(** * webcolor: 8-bit sRGB colour values

    A shallow embedding of [src/webcolor.js] and the properties its
    specification states about it.

    The development has four parts.

    - [JS]: the ECMAScript built-ins the module calls (string methods,
      [parseInt], [parseFloat], [Math.round], the 32-bit operators and
      [Number.prototype.toString]) over IEEE 754 binary64 numbers, which are
      Rocq's primitive floats.
    - The colour record and the arithmetic methods ([getBrightness],
      [getLuminance], [contrastRatio], [withAlpha], [invert], [shadeBlend],
      [contrastingColor]), written once over an interface [Arith] of number
      operations.  The interface has two instances: binary64 (what the
      program computes) and the real numbers (what the formulas mean).
    - The parser [stringInputToObject], the constructor, [toString] and
      [equals], over binary64.
    - The properties.

    Strings are sequences of 8-bit code units read as Latin-1; memoised
    fields ([rl], [cb]) are part of the record. *)

From Stdlib Require Import ZArith List String Ascii Bool Lia QArith Qround Floats.
From Stdlib Require Import Reals Lra.
Import ListNotations.

Set Warnings "-inexact-float".

(** ** ECMAScript built-ins *)

Module JS.

Local Open Scope Z_scope.

(** *** Strings *)

Definition code (c : ascii) : Z := Z.of_N (N_of_ascii c).

(** WhiteSpace and LineTerminator code units (those below 256). *)
Definition isWhiteSpace (c : ascii) : bool :=
  let n := code c in
  ((9 <=? n) && (n <=? 13)) || (n =? 32) || (n =? 160).

Fixpoint trimStart (s : string) : string :=
  match s with
  | String c s' => if isWhiteSpace c then trimStart s' else s
  | EmptyString => EmptyString
  end.

Fixpoint trimEnd (s : string) : string :=
  match s with
  | EmptyString => EmptyString
  | String c s' =>
      match trimEnd s' with
      | EmptyString => if isWhiteSpace c then EmptyString else String c EmptyString
      | t => String c t
      end
  end.

(** [String.prototype.trim] *)
Definition trim (s : string) : string := trimEnd (trimStart s).

Definition lowerChar (c : ascii) : ascii :=
  let n := code c in
  if ((65 <=? n) && (n <=? 90)) || ((192 <=? n) && (n <=? 222) && negb (n =? 215))
  then ascii_of_N (Z.to_N (n + 32))
  else c.

(** [String.prototype.toLowerCase] *)
Fixpoint toLowerCase (s : string) : string :=
  match s with
  | String c s' => String (lowerChar c) (toLowerCase s')
  | EmptyString => EmptyString
  end.

(** [s[i]]: [None] is [undefined]. *)
Definition at_ (s : string) (i : nat) : option ascii := String.get i s.

(** [s[i]] used as a string operand of [+]; the callers only index inside
    the string. *)
Definition charAt (s : string) (i : nat) : string :=
  match at_ s i with
  | Some c => String c EmptyString
  | None => "undefined"
  end.

(** [String.prototype.slice(start, end)]; [None] for an [undefined] end. *)
Definition slice (s : string) (start : Z) (end_ : option Z) : string :=
  let len := Z.of_nat (String.length s) in
  let clamp i := if i <? 0 then Z.max (len + i) 0 else Z.min i len in
  let from := clamp start in
  let to := match end_ with None => len | Some e => clamp e end in
  substring (Z.to_nat from) (Z.to_nat (Z.max (to - from) 0)) s.

(** [String.prototype.split] on a one-character separator. *)
Fixpoint split (sep : ascii) (s : string) : list string :=
  match s with
  | EmptyString => [EmptyString]
  | String c s' =>
      if Ascii.eqb c sep then EmptyString :: split sep s'
      else match split sep s' with
           | t :: ts => String c t :: ts
           | [] => [String c EmptyString]
           end
  end.

(** *** Numbers: IEEE 754 binary64 *)

(** The Number nearest to an integer (round to nearest, ties to even). *)
Definition float_of_Z (z : Z) : float :=
  SF2Prim (binary_normalize prec emax z 0 false).

(** A decimal literal [n/d] of the source text, for [n] and [d] below 2^53:
    the division rounds correctly, so this is the Number the literal denotes. *)
Definition float_lit (n d : Z) : float := (float_of_Z n / float_of_Z d)%float.

(** The value of a finite Number, as a rational. *)
Definition Qvalue (x : float) : option Q :=
  match Prim2SF x with
  | S754_zero _ => Some 0%Q
  | S754_finite s m e =>
      let v := if 0 <=? e then inject_Z (Zpos m * 2 ^ e) else Qmake (Zpos m) (Pos.pow 2 (Z.to_pos (- e))) in
      Some (if s then Qopp v else v)
  | _ => None
  end.

(** Truncation toward zero of a finite Number. *)
Definition truncate (x : float) : option Z :=
  match Prim2SF x with
  | S754_zero _ => Some 0
  | S754_finite s m e =>
      let v := if 0 <=? e then Zpos m * 2 ^ e else Zpos m / 2 ^ (- e) in
      Some (if s then - v else v)
  | _ => None
  end.

(** [ToInt32] *)
Definition ToInt32 (x : float) : Z :=
  match truncate x with
  | Some v => let u := v mod 2 ^ 32 in if 2 ^ 31 <=? u then u - 2 ^ 32 else u
  | None => 0
  end.

(** [x >> k] *)
Definition sar (x : float) (k : Z) : float :=
  float_of_Z (Z.shiftr (ToInt32 x) (k mod 32)).

(** [x & y] *)
Definition band (x y : float) : float :=
  float_of_Z (Z.land (ToInt32 x) (ToInt32 y)).

(** [Math.round]: the nearest integer, ties toward +Infinity; the sign of a
    zero result is that of the argument. *)
Definition Math_round (x : float) : float :=
  match Prim2SF x with
  | S754_finite s m e =>
      if 0 <=? e then x
      else
        let v := if s then Zneg m else Zpos m in
        let d := 2 ^ (- e) in
        let n := (2 * v + d) / (2 * d) in
        if (n =? 0) && s then neg_zero else float_of_Z n
  | _ => x
  end.

(** [Math.max] and [Math.min] of two Numbers: [NaN] if either is, and
    [+0] above [-0]. *)
Definition Math_max (x y : float) : float :=
  if is_nan x || is_nan y then nan
  else if (x <? y)%float then y
  else if (y <? x)%float then x
  else if get_sign x then y else x.

Definition Math_min (x y : float) : float :=
  if is_nan x || is_nan y then nan
  else if (x <? y)%float then x
  else if (y <? x)%float then y
  else if get_sign x then x else y.

(** *** [parseInt] and [parseFloat] *)

Definition digitValue (c : ascii) : option Z :=
  let n := code c in
  if (48 <=? n) && (n <=? 57) then Some (n - 48)
  else if (97 <=? n) && (n <=? 122) then Some (n - 87)
  else if (65 <=? n) && (n <=? 90) then Some (n - 55)
  else None.

(** The value of the longest prefix of radix-[radix] digits; [acc] is [None]
    until a digit has been read. *)
Fixpoint digits (radix : Z) (s : string) (acc : option Z) : option Z :=
  match s with
  | String c s' =>
      match digitValue c with
      | Some d =>
          if d <? radix
          then digits radix s' (Some (match acc with Some a => a | None => 0 end * radix + d))
          else acc
      | None => acc
      end
  | EmptyString => acc
  end.

Definition stripSign (s : string) : bool * string :=
  match s with
  | String "-" t => (true, t)
  | String "+" t => (false, t)
  | _ => (false, s)
  end.

(** [parseInt(string, radix)]; [radix] is [None] when the argument is
    omitted.  [NaN] when no digit is read. *)
Definition parseInt (str : string) (radix : option Z) : float :=
  let (neg, S) := stripSign (trimStart str) in
  let R := match radix with Some r => r | None => 0 end in
  if negb (R =? 0) && ((R <? 2) || (36 <? R)) then nan
  else
    let stripPrefix := (R =? 0) || (R =? 16) in
    let R := if R =? 0 then 10 else R in
    let (R, S) :=
      if stripPrefix then
        match S with
        | String "0" (String "x" t) => (16, t)
        | String "0" (String "X" t) => (16, t)
        | _ => (R, S)
        end
      else (R, S) in
    match digits R S None with
    | None => nan
    | Some n =>
        if n =? 0 then (if neg then neg_zero else zero)
        else float_of_Z (if neg then - n else n)
    end.

Fixpoint decimalDigits (s : string) (acc n : Z) : Z * Z * string :=
  match s with
  | String c s' =>
      let k := code c in
      if (48 <=? k) && (k <=? 57) then decimalDigits s' (acc * 10 + (k - 48)) (n + 1)
      else (acc, n, s)
  | EmptyString => (acc, n, s)
  end.

(** The Number nearest to [m * 10^e], for [0 <= m]. *)
Definition float_of_decimal (m e : Z) : float :=
  if m =? 0 then zero
  else if 0 <=? e then float_of_Z (m * 10 ^ e)
  else
    let d := 10 ^ (- e) in
    let s := Z.max 0 (64 + Z.log2_up d - Z.log2 m) in
    let q := (m * 2 ^ s) / d in
    let sticky := if (m * 2 ^ s) mod d =? 0 then 0 else 1 in
    SF2Prim (binary_normalize prec emax (2 * q + sticky) (- (s + 1)) false).

(** [parseFloat(string)]: the longest prefix that is a StrDecimalLiteral. *)
Definition parseFloat (str : string) : float :=
  let (neg, S) := stripSign (trimStart str) in
  if String.prefix "Infinity" S then (if neg then neg_infinity else infinity)
  else
    let '(i, ni, S1) := decimalDigits S 0 0 in
    let '(m, nf, S2) :=
      match S1 with
      | String "." t => decimalDigits t i 0
      | _ => (i, 0, S1)
      end in
    if (ni =? 0) && (nf =? 0) then nan
    else
      let e :=
        match S2 with
        | String c t =>
            if (Ascii.eqb c "e" || Ascii.eqb c "E")%bool then
              let (eneg, t') := stripSign t in
              let '(ev, en, _) := decimalDigits t' 0 0 in
              if en =? 0 then 0 else if eneg then - ev else ev
            else 0
        | EmptyString => 0
        end in
      let v := float_of_decimal m (e - nf) in
      if neg then (- v)%float else v.

(** *** [Number.prototype.toString] *)

Definition digitChar (d : Z) : ascii :=
  ascii_of_N (Z.to_N (if d <? 10 then 48 + d else 87 + d)).

Fixpoint digitsOf (fuel : nat) (radix n : Z) (acc : string) : string :=
  match fuel with
  | O => acc
  | S f =>
      let acc' := String (digitChar (n mod radix)) acc in
      if n / radix =? 0 then acc' else digitsOf f radix (n / radix) acc'
  end.

(** The digits of a natural number in a radix, most significant first. *)
Definition natString (radix n : Z) : string :=
  digitsOf (S (Z.to_nat (Z.log2 n))) radix n EmptyString.

Definition Qpow10 (n : Z) : Q :=
  if 0 <=? n then inject_Z (10 ^ n) else Qmake 1 (Z.to_pos (10 ^ (- n))).

Fixpoint lowerExp (fuel : nat) (v : Q) (n : Z) : Z :=
  match fuel with
  | O => n
  | S f => if Qle_bool (Qpow10 (n - 1)) v then n else lowerExp f v (n - 1)
  end.

Fixpoint raiseExp (fuel : nat) (v : Q) (n : Z) : Z :=
  match fuel with
  | O => n
  | S f => if Qle_bool (Qpow10 n) v then raiseExp f v (n + 1) else n
  end.

(** The [n] with [10^(n-1) <= v < 10^n], for [0 < v]. *)
Definition decimalExponent (v : Q) : Z :=
  let e2 := Z.log2 (Qnum v) - Z.log2 (Zpos (Qden v)) in
  raiseExp 8 v (lowerExp 8 v (e2 * 30103 / 100000)).

Definition Qlt_bool (x y : Q) : bool := negb (Qle_bool y x).

(** The shortest decimal [s * 10^(n-k)] that denotes [x] ([0 < x], finite):
    the search of Number::toString for the least [k], as [(s, k, n)]. *)
Fixpoint shortest (fuel : nat) (k : Z) (v lo hi : Q) (closed : bool) (n : Z) : Z * Z * Z :=
  match fuel with
  | O => (0, k, n)
  | S f =>
      let scale := Qpow10 (k - n) in
      let y := Qmult v scale in
      let s1 := Qfloor y in
      let s2 := s1 + 1 in
      let ok s :=
        let D := Qdiv (inject_Z s) scale in
        if closed then Qle_bool lo D && Qle_bool D hi
        else Qlt_bool lo D && Qlt_bool D hi in
      let norm s := if s =? 10 ^ k then (10 ^ (k - 1), k, n + 1) else (s, k, n) in
      let d1 := Qminus y (inject_Z s1) in
      let d2 := Qminus (inject_Z s2) y in
      match ok s1, ok s2 with
      | true, true =>
          if Qlt_bool d1 d2 then norm s1
          else if Qlt_bool d2 d1 then norm s2
          else if Z.even s1 then norm s1 else norm s2
      | true, false => norm s1
      | false, true => norm s2
      | false, false => shortest f (k + 1) v lo hi closed n
      end
  end.

Definition zeros (n : Z) : string := String.concat "" (repeat "0"%string (Z.to_nat n)).

(** Number::toString in radix 10 of a positive finite Number. *)
Definition positiveToString (x : float) : string :=
  match Prim2SF x, Qvalue x with
  | S754_finite _ m _, Some v =>
      let below := match Qvalue (next_down x) with Some q => q | None => 0%Q end in
      let above := match Qvalue (next_up x) with Some q => q | None => inject_Z (2 ^ 1024) end in
      let lo := Qdiv (Qplus v below) (inject_Z 2) in
      let hi := Qdiv (Qplus v above) (inject_Z 2) in
      let '(s, k, n) := shortest 17 1 v lo hi (Z.even (Zpos m)) (decimalExponent v) in
      let ds := natString 10 s in
      if (k <=? n) && (n <=? 21) then (ds ++ zeros (n - k))%string
      else if (0 <? n) && (n <=? 21) then
        (substring 0 (Z.to_nat n) ds ++ "." ++ substring (Z.to_nat n) (Z.to_nat (k - n)) ds)%string
      else if (-6 <? n) && (n <=? 0) then ("0." ++ zeros (- n) ++ ds)%string
      else
        let e := n - 1 in
        let sign := if e <? 0 then "-"%string else "+"%string in
        let es := (sign ++ natString 10 (Z.abs e))%string in
        if k =? 1 then (ds ++ "e" ++ es)%string
        else (substring 0 1 ds ++ "." ++ substring 1 (Z.to_nat (k - 1)) ds ++ "e" ++ es)%string
  | _, _ => "0"%string
  end.

(** [Number.prototype.toString()], radix 10; also the string a Number
    contributes to a concatenation. *)
Definition toString10 (x : float) : string :=
  if is_nan x then "NaN"
  else if is_zero x then "0"
  else if (x <? 0)%float then
    (if is_infinity x then "-Infinity" else "-" ++ positiveToString (- x)%float)%string
  else if is_infinity x then "Infinity" else positiveToString x.

(** [Number.prototype.toString(16)].  The module applies it to a sum of
    integers only, so the digits of the integer part are all there is. *)
Definition toString16 (x : float) : string :=
  if is_nan x then "NaN"
  else
    match truncate x with
    | None => if (x <? 0)%float then "-Infinity" else "Infinity"
    | Some n =>
        let sign := if n <? 0 then "-"%string else ""%string in
        (sign ++ natString 16 (Z.abs n))%string
    end.

End JS.

(** ** The colour value and its arithmetic *)

(** The operations of JavaScript Numbers the methods use.  [lit] is a
    decimal literal of the source text; [jeq] is [===] on Numbers. *)
Class Arith (num : Type) := {
  lit : Q -> num;
  jadd : num -> num -> num;
  jsub : num -> num -> num;
  jmul : num -> num -> num;
  jdiv : num -> num -> num;
  jlt : num -> num -> bool;
  jle : num -> num -> bool;
  jeq : num -> num -> bool;
  Math_max : num -> num -> num;
  Math_min : num -> num -> num
}.

(** [Math.pow] and [**]. *)
Class Power (num : Type) := { jpow : num -> num -> num }.

Arguments lit {num _} _%_Q.

Declare Scope js_scope.
Delimit Scope js_scope with js.
Notation "x + y" := (jadd x y) : js_scope.
Notation "x - y" := (jsub x y) : js_scope.
Notation "x * y" := (jmul x y) : js_scope.
Notation "x / y" := (jdiv x y) : js_scope.
Notation "x ** y" := (jpow x y) (at level 30, right associativity) : js_scope.
Notation "x <? y" := (jlt x y) : js_scope.
Notation "x <=? y" := (jle x y) : js_scope.
Notation "x >? y" := (jlt y x) : js_scope.
Notation "x >=? y" := (jle y x) : js_scope.
Notation "x === y" := (jeq x y) (at level 70, no associativity) : js_scope.

(** An instance of the prototype: the four channels and the two memo
    fields, [rl] (relative luminance) and [cb] (colour brightness), [None]
    for [null]. *)
Record color (num : Type) := Color {
  r : num;
  g : num;
  b : num;
  a : num;
  rl : option num;
  cb : option num
}.

Arguments Color {num}.
Arguments r {num}.
Arguments g {num}.
Arguments b {num}.
Arguments a {num}.
Arguments rl {num}.
Arguments cb {num}.

(** An object literal passed to the constructor: each of the keys [r], [g],
    [b], [a] is present or not. *)
Record object (num : Type) := Object {
  o_r : option num;
  o_g : option num;
  o_b : option num;
  o_a : option num
}.

Arguments Object {num}.
Arguments o_r {num}.
Arguments o_g {num}.
Arguments o_b {num}.
Arguments o_a {num}.

(** The completion of a call that may throw. *)
Inductive completion (A : Type) :=
  | Normal (v : A)
  | TypeError.

Arguments Normal {A}.
Arguments TypeError {A}.

Section Methods.

Context {num : Type} {AR : Arith num} {PW : Power num}.
Local Open Scope js_scope.

(** [new webcolor(o)] for an object [o]: the keys present are copied, the
    others keep the prototype's [r = g = b = 0], [a = 1]; [rl] and [cb] are
    the prototype's [null]. *)
Definition fromObject (o : object num) : color num :=
  {| r := match o_r o with Some v => v | None => lit 0 end;
     g := match o_g o with Some v => v | None => lit 0 end;
     b := match o_b o with Some v => v | None => lit 0 end;
     a := match o_a o with Some v => v | None => lit 1 end;
     rl := None;
     cb := None |}.

(** [new webcolor({ r, g, b, a })] *)
Definition rgba (r0 g0 b0 a0 : num) : color num :=
  fromObject (Object (Some r0) (Some g0) (Some b0) (Some a0)).

(** [new webcolor({ r, g, b })] *)
Definition rgb (r0 g0 b0 : num) : color num :=
  fromObject (Object (Some r0) (Some g0) (Some b0) None).

Definition isWhite (this : color num) : bool :=
  (r this === lit 0) && (g this === lit 0) && (b this === lit 0).

Definition isBlack (this : color num) : bool :=
  (r this === lit 255) && (g this === lit 255) && (b this === lit 255).

(** The value [getBrightness] computes when [cb] is [null]. *)
Definition brightness (this : color num) : num :=
  (r this * lit 299 + g this * lit 587 + b this * lit 114) / lit 1000.

(** [getBrightness]: the value returned and the receiver afterwards. *)
Definition getBrightness (this : color num) : num * color num :=
  match cb this with
  | None =>
      let v := brightness this in
      (v, Color (r this) (g this) (b this) (a this) (rl this) (Some v))
  | Some v => (v, this)
  end.

Definition isDark (this : color num) : bool :=
  fst (getBrightness this) <? lit 128.

(** One channel of [getLuminance]: [RsRGB] to [R]. *)
Definition linearChannel (c : num) : num :=
  let sRGB := c / lit 255 in
  if sRGB <=? lit 0.03928 then sRGB / lit 12.92
  else ((sRGB + lit 0.055) / lit 1.055) ** lit 2.4.

(** The value [getLuminance] computes when [rl] is [null]. *)
Definition luminance (this : color num) : num :=
  (lit 0.2126 * linearChannel (r this)) + (lit 0.7152 * linearChannel (g this))
  + (lit 0.0722 * linearChannel (b this)).

(** [getLuminance]: the value returned and the receiver afterwards. *)
Definition getLuminance (this : color num) : num * color num :=
  match rl this with
  | None =>
      let v := luminance this in
      (v, Color (r this) (g this) (b this) (a this) (Some v) (cb this))
  | Some v => (v, this)
  end.

(** [contrastRatio(c1)] for a colour value [c1] (the constructor returns a
    colour value as it is). *)
Definition contrastRatio (this c1 : color num) : num :=
  let l0 := fst (getLuminance this) in
  let l1 := fst (getLuminance c1) in
  (Math_max l0 l1 + lit 0.05) / (Math_min l0 l1 + lit 0.05).

(** [withAlpha(a)]: [None] is [null]. *)
Definition withAlpha (this : color num) (a0 : num) : option (color num) :=
  let a1 := if (a0 >? lit 1) && (a0 <=? lit 100) then a0 / lit 100 else a0 in
  if (a1 >=? lit 0) && (a1 <=? lit 1)
  then Some (rgba (r this) (g this) (b this) a1)
  else None.

Definition invert (this : color num) : color num :=
  rgba (lit 255 - r this) (lit 255 - g this) (lit 255 - b this) (a this).

(** One channel [f.r], [f.g] or [f.b] of [shadeBlend]: linear, or the
    square root of the blended squares. *)
Definition blendChannel (l : bool) (P p x y : num) : num :=
  if l then P * x + p * y
  else (P * x ** lit 2 + p * y ** lit 2) ** lit 0.5.

(** The alpha [f.a] of [shadeBlend]. *)
Definition blendAlpha (P p a0 ta : num) : num :=
  if (a0 >=? lit 0) || (ta >=? lit 0)
  then (if a0 <? lit 0 then ta
        else if ta <? lit 0 then a0
        else a0 * P + ta * p)
  else lit 1.

(** [shadeBlend(p, c1, l)] for a Number [p]; [c1] is a colour value or
    [None] for [null]; the result [None] is [null]. *)
Definition shadeBlend (this : color num) (p : num) (c1 : option (color num))
    (l : bool) : option (color num) :=
  if (p <? lit (-1)) || (p >? lit 1) then None
  else
    let P := p <? lit 0 in
    let t :=
      match c1 with
      | Some c => c
      | None => if P then rgba (lit 0) (lit 0) (lit 0) (lit 1)
                else rgba (lit 255) (lit 255) (lit 255) (lit 1)
      end in
    let p := if P then p * lit (-1) else p in
    let P := lit 1 - p in
    Some (rgba (blendChannel l P p (r this) (r t))
               (blendChannel l P p (g this) (g t))
               (blendChannel l P p (b this) (b t))
               (blendAlpha P p (a this) (a t))).

(** [webcolor('#000000')] and [webcolor('#ffffff')], the two colours
    [contrastingColor] measures the receiver against. *)
Definition hex000000 : color num := rgba (lit 0) (lit 0) (lit 0) (lit 1).
Definition hexffffff : color num := rgba (lit 255) (lit 255) (lit 255) (lit 1).

(** The shade direction [sd] of one round of the loop: [1] to lighten,
    [-1] to darken. *)
Definition shadeDirection (this targetcolor : color num) (cmin : num) : num :=
  let tl := fst (getLuminance targetcolor) in
  let l := fst (getLuminance this) in
  if tl === l then (if isDark this then lit 1 else lit (-1))
  else if tl <? l then (if contrastRatio this hex000000 >? cmin then lit (-1) else lit 1)
  else (if contrastRatio this hexffffff >? cmin then lit 1 else lit (-1)).

(** The [while] loop of [contrastingColor], for at most [fuel] rounds:
    [None] when the loop is still running after them.  A [null] from
    [shadeBlend] makes the call [isBlack] on it throw. *)
Fixpoint contrastingLoop (fuel : nat) (this targetcolor : color num) (cmin : num)
    (maxReached : bool) : option (completion (color num)) :=
  if (contrastRatio this targetcolor <? cmin) && negb maxReached then
    match fuel with
    | O => None
    | S fuel' =>
        let sd := shadeDirection this targetcolor cmin in
        match shadeBlend targetcolor (lit 0.2 * sd) None false with
        | None => Some TypeError
        | Some t' => contrastingLoop fuel' this t' cmin (isBlack t' || isWhite t')
        end
    end
  else Some (Normal targetcolor).

(** [contrastingColor(targetcolor, cmin)]; [targetcolor] is a colour value
    or [None] for [null]. *)
Definition contrastingColor (fuel : nat) (this : color num)
    (targetcolor : option (color num)) (cmin : num) : option (completion (color num)) :=
  match targetcolor with
  | Some t => contrastingLoop fuel this t cmin false
  | None =>
      if isDark this then Some (Normal (rgb (lit 255) (lit 255) (lit 255)))
      else Some (Normal (rgb (lit 0) (lit 0) (lit 0)))
  end.

End Methods.

(** ** The two number systems *)

(** Binary64, as the program runs. *)
#[global] Instance float_arith : Arith float :=
  {| lit := fun q => JS.float_lit (Qnum q) (Zpos (Qden q));
     jadd := PrimFloat.add;
     jsub := PrimFloat.sub;
     jmul := PrimFloat.mul;
     jdiv := PrimFloat.div;
     jlt := PrimFloat.ltb;
     jle := PrimFloat.leb;
     jeq := PrimFloat.eqb;
     Math_max := JS.Math_max;
     Math_min := JS.Math_min |}.

(** ECMAScript leaves the result of [Math.pow] to the implementation (an
    approximation of the power), so on binary64 it is a parameter [pw] of
    whatever is stated about the methods that call it. *)
Definition float_power (pw : float -> float -> float) : Power float :=
  {| jpow := pw |}.

(** The power function on the reals, where the methods use it: any exponent
    on a positive base, a positive exponent on zero, and the square of a
    negative base. *)
Definition Rjs_pow (x y : R) : R :=
  if Req_dec_T y 0 then 1%R
  else if Rlt_dec 0 x then Rpower x y
  else if Req_dec_T x 0 then 0%R
  else if Req_dec_T y 2 then (x * x)%R
  else 0%R.

(** The real numbers: every operation exact. *)
#[global] Instance real_arith : Arith R :=
  {| lit := Q2R;
     jadd := Rplus;
     jsub := Rminus;
     jmul := Rmult;
     jdiv := Rdiv;
     jlt := fun x y => if Rlt_dec x y then true else false;
     jle := fun x y => if Rle_dec x y then true else false;
     jeq := fun x y => if Req_dec_T x y then true else false;
     Math_max := Rmax;
     Math_min := Rmin |}.

#[global] Instance real_power : Power R := {| jpow := Rjs_pow |}.

(** ** Parsing, construction and printing *)

Local Open Scope string_scope.

(** The table [names]; every value is a non-empty string, so [names[s]] is
    truthy for each key listed.  The only other lower-case keys with a truthy
    [names[s]] are the inherited [constructor] and [__proto__]; for them
    [s] becomes [#] followed by a text of more than 9 characters without a
    comma, which the parser rejects with [null], the result it also gives for
    the two words themselves (they start with neither [r] nor [#]).  So the
    parser's result is the same with the own keys alone. *)
Definition names : list (string * string) :=
  [ ("aliceblue", "f0f8ff");
    ("antiquewhite", "faebd7");
    ("aqua", "0ff");
    ("aquamarine", "7fffd4");
    ("azure", "f0ffff");
    ("beige", "f5f5dc");
    ("bisque", "ffe4c4");
    ("black", "000");
    ("blanchedalmond", "ffebcd");
    ("blue", "00f");
    ("blueviolet", "8a2be2");
    ("brown", "a52a2a");
    ("burlywood", "deb887");
    ("burntsienna", "ea7e5d");
    ("cadetblue", "5f9ea0");
    ("chartreuse", "7fff00");
    ("chocolate", "d2691e");
    ("coral", "ff7f50");
    ("cornflowerblue", "6495ed");
    ("cornsilk", "fff8dc");
    ("crimson", "dc143c");
    ("cyan", "0ff");
    ("darkblue", "00008b");
    ("darkcyan", "008b8b");
    ("darkgoldenrod", "b8860b");
    ("darkgray", "a9a9a9");
    ("darkgreen", "006400");
    ("darkgrey", "a9a9a9");
    ("darkkhaki", "bdb76b");
    ("darkmagenta", "8b008b");
    ("darkolivegreen", "556b2f");
    ("darkorange", "ff8c00");
    ("darkorchid", "9932cc");
    ("darkred", "8b0000");
    ("darksalmon", "e9967a");
    ("darkseagreen", "8fbc8f");
    ("darkslateblue", "483d8b");
    ("darkslategray", "2f4f4f");
    ("darkslategrey", "2f4f4f");
    ("darkturquoise", "00ced1");
    ("darkviolet", "9400d3");
    ("deeppink", "ff1493");
    ("deepskyblue", "00bfff");
    ("dimgray", "696969");
    ("dimgrey", "696969");
    ("dodgerblue", "1e90ff");
    ("firebrick", "b22222");
    ("floralwhite", "fffaf0");
    ("forestgreen", "228b22");
    ("fuchsia", "f0f");
    ("gainsboro", "dcdcdc");
    ("ghostwhite", "f8f8ff");
    ("gold", "ffd700");
    ("goldenrod", "daa520");
    ("gray", "808080");
    ("green", "008000");
    ("greenyellow", "adff2f");
    ("grey", "808080");
    ("honeydew", "f0fff0");
    ("hotpink", "ff69b4");
    ("indianred", "cd5c5c");
    ("indigo", "4b0082");
    ("ivory", "fffff0");
    ("khaki", "f0e68c");
    ("lavender", "e6e6fa");
    ("lavenderblush", "fff0f5");
    ("lawngreen", "7cfc00");
    ("lemonchiffon", "fffacd");
    ("lightblue", "add8e6");
    ("lightcoral", "f08080");
    ("lightcyan", "e0ffff");
    ("lightgoldenrodyellow", "fafad2");
    ("lightgray", "d3d3d3");
    ("lightgreen", "90ee90");
    ("lightgrey", "d3d3d3");
    ("lightpink", "ffb6c1");
    ("lightsalmon", "ffa07a");
    ("lightseagreen", "20b2aa");
    ("lightskyblue", "87cefa");
    ("lightslategray", "789");
    ("lightslategrey", "789");
    ("lightsteelblue", "b0c4de");
    ("lightyellow", "ffffe0");
    ("lime", "0f0");
    ("limegreen", "32cd32");
    ("linen", "faf0e6");
    ("magenta", "f0f");
    ("maroon", "800000");
    ("mediumaquamarine", "66cdaa");
    ("mediumblue", "0000cd");
    ("mediumorchid", "ba55d3");
    ("mediumpurple", "9370db");
    ("mediumseagreen", "3cb371");
    ("mediumslateblue", "7b68ee");
    ("mediumspringgreen", "00fa9a");
    ("mediumturquoise", "48d1cc");
    ("mediumvioletred", "c71585");
    ("midnightblue", "191970");
    ("mintcream", "f5fffa");
    ("mistyrose", "ffe4e1");
    ("moccasin", "ffe4b5");
    ("navajowhite", "ffdead");
    ("navy", "000080");
    ("oldlace", "fdf5e6");
    ("olive", "808000");
    ("olivedrab", "6b8e23");
    ("orange", "ffa500");
    ("orangered", "ff4500");
    ("orchid", "da70d6");
    ("palegoldenrod", "eee8aa");
    ("palegreen", "98fb98");
    ("paleturquoise", "afeeee");
    ("palevioletred", "db7093");
    ("papayawhip", "ffefd5");
    ("peachpuff", "ffdab9");
    ("peru", "cd853f");
    ("pink", "ffc0cb");
    ("plum", "dda0dd");
    ("powderblue", "b0e0e6");
    ("purple", "800080");
    ("rebeccapurple", "663399");
    ("red", "f00");
    ("rosybrown", "bc8f8f");
    ("royalblue", "4169e1");
    ("saddlebrown", "8b4513");
    ("salmon", "fa8072");
    ("sandybrown", "f4a460");
    ("seagreen", "2e8b57");
    ("seashell", "fff5ee");
    ("sienna", "a0522d");
    ("silver", "c0c0c0");
    ("skyblue", "87ceeb");
    ("slateblue", "6a5acd");
    ("slategray", "708090");
    ("slategrey", "708090");
    ("snow", "fffafa");
    ("springgreen", "00ff7f");
    ("steelblue", "4682b4");
    ("tan", "d2b48c");
    ("teal", "008080");
    ("thistle", "d8bfd8");
    ("tomato", "ff6347");
    ("turquoise", "40e0d0");
    ("violet", "ee82ee");
    ("wheat", "f5deb3");
    ("white", "fff");
    ("whitesmoke", "f5f5f5");
    ("yellow", "ff0");
    ("yellowgreen", "9acd32") ].

Fixpoint lookup (k : string) (t : list (string * string)) : option string :=
  match t with
  | (k', v) :: t' => if String.eqb k k' then Some v else lookup k t'
  | [] => None
  end.

(** [s[i] === c] for a one-character [c]. *)
Definition is_char (o : option ascii) (c : ascii) : bool :=
  match o with
  | Some c' => Ascii.eqb c' c
  | None => false
  end.

(** The second half of [stringInputToObject], from the test of [s[0]] on:
    the hex and the [rgb()]/[rgba()] forms. *)
Definition parseForms (s : string) : option (object float) :=
  if negb (is_char (JS.at_ s 0) "r") && negb (is_char (JS.at_ s 0) "#") then None
  else
    let n := Z.of_nat (String.length s) in
    if (9 <? n)%Z then
      let parts := JS.split "," s in
      let n := Z.of_nat (List.length parts) in
      if ((n <? 3) || (4 <? n))%Z then None
      else
        let r := nth 0 parts "" in
        let g := nth 1 parts "" in
        let b := nth 2 parts "" in
        let a := nth_error parts 3 in
        Some (Object
          (Some (JS.parseInt (if is_char (JS.at_ r 3) "a" then JS.slice r 5 None
                              else JS.slice r 4 None) None))
          (Some (JS.parseInt g None))
          (Some (JS.parseInt b None))
          (Some (match a with
                 | Some (String c a') => JS.parseFloat (String c a')
                 | _ => 1%float
                 end)))
    else if ((n =? 8) || (n =? 6) || (n <? 4))%Z then None
    else
      let s :=
        if (n <? 6)%Z
        then "#" ++ JS.charAt s 1 ++ JS.charAt s 1 ++ JS.charAt s 2 ++ JS.charAt s 2
             ++ JS.charAt s 3 ++ JS.charAt s 3
             ++ (if (4 <? n)%Z then JS.charAt s 4 ++ JS.charAt s 4 else "")
        else s in
      let v := JS.parseInt (JS.slice s 1 None) (Some 16%Z) in
      if ((n =? 9) || (n =? 5))%Z then
        Some (Object
          (Some (JS.band (JS.sar v 24) 255))
          (Some (JS.band (JS.sar v 16) 255))
          (Some (JS.band (JS.sar v 8) 255))
          (Some (JS.Math_round (JS.band v 255 / 0.255) / 1000)%float))
      else
        Some (Object
          (Some (JS.sar v 16))
          (Some (JS.band (JS.sar v 8) 255))
          (Some (JS.band v 255))
          (Some 1%float)).

(** [stringInputToObject(s)]: the object [x], or [None] for [null]. *)
Definition stringInputToObject (s : string) : option (object float) :=
  let s := JS.toLowerCase (JS.trim s) in
  match lookup s names with
  | Some h => parseForms ("#" ++ h)
  | None =>
      if String.eqb s "transparent"
      then Some (Object (Some 0%float) (Some 0%float) (Some 0%float) (Some 0%float))
      else parseForms s
  end.

(** What the constructor is called with: a colour value, a string, an
    object, [null], or anything else (a Number, [undefined], ...). *)
Inductive input :=
  | InColor (c : color float)
  | InString (s : string)
  | InObject (o : object float)
  | InNull
  | InOther.

(** [webcolor(c)].  A colour value is returned as it is.  A string is
    parsed; the result, or an object passed in, has its keys copied by
    [c[v]], which throws a TypeError when [c] is [null] ([typeof null] is
    ['object']).  Any other value leaves the prototype's defaults. *)
Definition webcolor (c : input) : completion (color float) :=
  match c with
  | InColor c => Normal c
  | InString s =>
      match stringInputToObject s with
      | Some o => Normal (fromObject o)
      | None => TypeError
      end
  | InObject o => Normal (fromObject o)
  | InNull => TypeError
  | InOther => Normal (fromObject (Object None None None None))
  end.

(** [toString(format)]; the default format is ["rgb"]. *)
Definition toString (this : color float) (format : string) : string :=
  let round := JS.Math_round in
  let a1 := (a this =? 1)%float in
  if String.eqb format "hex" then
    "#" ++ JS.slice
             (JS.toString16 (4294967296 + round (r this) * 16777216
                             + round (g this) * 65536 + round (b this) * 256
                             + (if a1 then 0 else round (a this * 255)))%float)
             1 (if a1 then Some (-2)%Z else None)
  else if a1 then
    "rgb(" ++ JS.toString10 (round (r this)) ++ "," ++ JS.toString10 (round (g this))
    ++ "," ++ JS.toString10 (round (b this)) ++ ")"
  else
    "rgba(" ++ JS.toString10 (round (r this)) ++ "," ++ JS.toString10 (round (g this))
    ++ "," ++ JS.toString10 (round (b this)) ++ ","
    ++ JS.toString10 (round (a this * 1000) / 1000)%float ++ ")".

(** [equals(c1)] *)
Definition equals (this : color float) (c1 : input) : completion bool :=
  match webcolor c1 with
  | Normal c => Normal (String.eqb (toString this "rgb") (toString c "rgb"))
  | TypeError => TypeError
  end.

(** ** Vocabulary of the properties *)

(** A colour value's memo fields are consistent when each is [null] or holds
    what its getter would compute.  The constructor leaves both [null], and
    the getters are the only writers. *)
Definition cb_ok {num : Type} {AR : Arith num} (c : color num) : Prop :=
  cb c = None \/ cb c = Some (brightness c).

Definition rl_ok {num : Type} {AR : Arith num} {PW : Power num} (c : color num) : Prop :=
  rl c = None \/ rl c = Some (luminance c).

Definition memo_ok {num : Type} {AR : Arith num} {PW : Power num} (c : color num) : Prop :=
  cb_ok c /\ rl_ok c.

(** The same colour value with another alpha. *)
Definition setAlpha {num : Type} (c : color num) (x : num) : color num :=
  Color (r c) (g c) (b c) x (rl c) (cb c).

(** The order of a number system, as far as the branches of the methods
    need it. *)
Class ArithOrder {num : Type} (AR : Arith num) : Prop := {
  jlt_jeq : forall x y, jlt x y = true -> jeq x y = false;
  jlt_asym : forall x y, jlt x y = true -> jlt y x = false;
  jeq_sym : forall x y, jeq x y = jeq y x
}.

(** A channel in [0, 255]; a colour with its channels there and its alpha
    in [0, 1]. *)
Definition channelOK {num : Type} {AR : Arith num} (x : num) : bool :=
  jle (lit 0) x && jle x (lit 255).

Definition inGamut {num : Type} {AR : Arith num} (c : color num) : bool :=
  channelOK (r c) && channelOK (g c) && channelOK (b c)
  && (jle (lit 0) (a c) && jle (a c) (lit 1)).


(** Strictly inside the gamut: no channel is 0 or 255. *)
Definition interior (t : color R) : Prop :=
  (0 < r t < 255 /\ 0 < g t < 255 /\ 0 < b t < 255)%R.

(** [webcolor('#808080')], over the reals. *)
Definition grey808080 : color R := rgba 128%R 128%R 128%R 1%R.

(** The canonical six-digit form of a table entry: the spec's "3-digit
    entries expanded by digit doubling", behind a [#]. *)
Fixpoint doubled (h : string) : string :=
  match h with
  | String c h' => String c (String c (doubled h'))
  | EmptyString => EmptyString
  end.

Definition canonicalHex (h : string) : string :=
  "#" ++ (if Nat.eqb (String.length h) 3 then doubled h else h).

Definition roundtrips (entry : string * string) : bool :=
  String.eqb (JS.toLowerCase (JS.trim (fst entry))) (fst entry)
  && match webcolor (InString (fst entry)) with
     | Normal c => String.eqb (toString c "hex") (canonicalHex (snd entry))
     | TypeError => false
     end.

(** The string the grammar is applied to: the argument trimmed and
    lower-cased, and a keyword of the table replaced by [#] and its hex
    digits. *)
Definition normalized (s : string) : string :=
  let s := JS.toLowerCase (JS.trim s) in
  match lookup s names with
  | Some h => "#" ++ h
  | None => s
  end.

(** The shapes the grammar rejects: a first character other than [r] and
    [#]; at most 9 characters and a length of 6, 8 or less than 4; more than
    9 characters and other than 3 or 4 components between commas. *)
Definition rejectedShape (s : string) : bool :=
  let n := Z.of_nat (String.length s) in
  (negb (is_char (JS.at_ s 0) "r") && negb (is_char (JS.at_ s 0) "#"))
  || (if (9 <? n)%Z
      then (let k := Z.of_nat (List.length (JS.split "," s)) in (k <? 3) || (4 <? k))%Z
      else ((n =? 8) || (n =? 6) || (n <? 4))%Z).

(** Hex digits, the value of a digit, and of a string of digits read from
    the left. *)
Definition isHexDigit (c : ascii) : bool :=
  match JS.digitValue c with
  | Some d => (d <? 16)%Z
  | None => false
  end.

Definition hexValue (c : ascii) : Z :=
  match JS.digitValue c with
  | Some d => d
  | None => 0
  end.

Fixpoint allHex (s : string) : bool :=
  match s with
  | String c s' => isHexDigit c && allHex s'
  | EmptyString => true
  end.

Fixpoint hexFold (s : string) (acc : Z) : Z :=
  match s with
  | String c s' => hexFold s' (acc * 16 + hexValue c)
  | EmptyString => acc
  end.

(** The channel two hex digits denote, and the alpha a low byte becomes. *)
Definition hexByte (c1 c2 : ascii) : float :=
  JS.float_of_Z (16 * hexValue c1 + hexValue c2).

Definition alphaOfByte (x : float) : float :=
  (JS.Math_round (x / 0.255) / 1000)%float.

(** The spec's "dividing by 255 and rounding to 3 decimal places": the
    nearest thousandth of [n/255], written as the literal it is. *)
Definition alphaSpec (n : Z) : float :=
  JS.float_lit ((2000 * n + 255) / 510) 1000.

Definition alpha_agrees (n : nat) : bool :=
  PrimFloat.Leibniz.eqb (alphaOfByte (JS.float_of_Z (Z.of_nat n))) (alphaSpec (Z.of_nat n)).

(** *** Vocabulary of the round trips *)

(** The Number of an integer below 2^53 in size, as a specification float. *)
Definition SF_of_Z (n : Z) : spec_float := binary_normalize prec emax n 0 false.

(** The two hex digits of a byte. *)
Definition hexPair (n : Z) : string :=
  String (JS.digitChar (n / 16)) (String (JS.digitChar (n mod 16)) "").

(** The alpha a hex byte parses to is 1 for [ff] alone, and otherwise prints
    as that byte again. *)
Definition byteAlpha (x : nat) : bool :=
  let al := alphaOfByte (JS.float_of_Z (Z.of_nat x)) in
  if Nat.eqb x 255 then PrimFloat.Leibniz.eqb al 1
  else negb (al =? 1)%float
       && PrimFloat.Leibniz.eqb (JS.Math_round (al * 255)) (JS.float_of_Z (Z.of_nat x)).

Fixpoint noComma (s : string) : bool :=
  match s with
  | String c s' => negb (Ascii.eqb c ",") && noComma s'
  | EmptyString => true
  end.

(** What [toString10] prints for a byte is a component [parseInt] reads
    back, also in front of the closing parenthesis. *)
Definition decimalOK (n : nat) : bool :=
  let x := JS.float_of_Z (Z.of_nat n) in
  let t := JS.toString10 x in
  noComma t && String.eqb (JS.toLowerCase t) t && negb (String.eqb t "")
  && PrimFloat.Leibniz.eqb (JS.parseInt t None) x
  && PrimFloat.Leibniz.eqb (JS.parseInt (t ++ ")") None) x.

(** An alpha of [k] thousandths is not 1, and what [toString] prints for it
    is read back by [parseFloat]. *)
Definition thousandthOK (k : nat) : bool :=
  let al := (JS.float_of_Z (Z.of_nat k) / 1000)%float in
  let t := JS.toString10 (JS.Math_round (al * 1000) / 1000)%float in
  negb (al =? 1)%float && noComma t && String.eqb (JS.toLowerCase t) t
  && PrimFloat.Leibniz.eqb (JS.parseFloat (t ++ ")")) al.

(** [x / 1000 < 128] agrees with [s < 128000] for the [n] integers from [s]
    on, [x] being the Number of [s]. *)
Fixpoint darkOK (n : nat) (x : float) (s : Z) : bool :=
  match n with
  | O => true
  | S n' => Bool.eqb (x / 1000 <? 128)%float (s <? 128000)%Z
            && darkOK n' (x + 1)%float (s + 1)%Z
  end.

(** A channel that is an integer in 0..255. *)
Definition isByte (x : float) : bool :=
  match JS.truncate x with
  | Some n => (0 <=? n)%Z && (n <=? 255)%Z && PrimFloat.Leibniz.eqb x (JS.float_of_Z n)
  | None => false
  end.

(** The integer a channel rounds to. *)
Definition byteOf (x : float) : Z :=
  match JS.truncate (JS.Math_round x) with
  | Some n => n
  | None => 0%Z
  end.

(** A keyword constructs an opaque colour with byte channels and no memo. *)
Definition namedOK (entry : string * string) : bool :=
  match webcolor (InString (fst entry)) with
  | Normal c =>
      isByte (r c) && isByte (g c) && isByte (b c) && PrimFloat.Leibniz.eqb (a c) 1
      && match rl c, cb c with None, None => true | _, _ => false end
  | TypeError => false
  end.

(** A finite Number other than the zeros. *)
Definition finiteNonzero (x : float) : bool :=
  match Prim2SF x with
  | S754_finite _ _ _ => true
  | _ => false
  end.

(** Powers of two with an integer exponent, and the value of a Number that
    is a zero or finite and positive ([None] for the others). *)
Definition P2 (e : Z) : R := powerRZ 2 e.

Definition SFvalue (x : spec_float) : option R :=
  match x with
  | S754_zero _ => Some 0%R
  | S754_finite false m e => Some (IZR (Zpos m) * P2 e)%R
  | _ => None
  end.

Definition fval (x : float) : option R := SFvalue (Prim2SF x).






(** One [Math.pow] on the two exponents [shadeBlend] uses: the product
    [x * x] for 2 and the square root for 0.5, both correctly rounded (as
    fdlibm's [pow] computes them).  On other exponents, which [shadeBlend]
    does not use, it returns [NaN]. *)
Definition pow_special (x y : float) : float :=
  if PrimFloat.eqb y 2 then (x * x)%float
  else if PrimFloat.eqb y 0.5 then PrimFloat.sqrt x
  else nan.


(** ** Properties *)

(** *** Binary64 comparisons *)

Lemma SFcompare_antisym x y c :
  SFcompare x y = Some c -> SFcompare y x = Some (CompOpp c).
Proof.
  destruct x as [sx|sx| |sx mx ex], y as [sy|sy| |sy my ey]; simpl; intros H;
    try discriminate; try (injection H as <-);
    try (destruct sx; reflexivity); try (destruct sy; reflexivity);
    try (destruct sx, sy; reflexivity).
  assert (E : Pos.compare_cont Eq my mx = CompOpp (Pos.compare_cont Eq mx my))
    by (rewrite Pos.compare_cont_antisym; reflexivity).
  destruct sx, sy; try reflexivity; f_equal;
    rewrite (Z.compare_antisym ex ey); destruct (ex ?= ey)%Z; simpl; try reflexivity;
    rewrite E; destruct (Pos.compare_cont Eq mx my); reflexivity.
Qed.

Lemma float_ltb_eqb x y : (x <? y)%float = true -> (x =? y)%float = false.
Proof.
  rewrite ltb_spec, eqb_spec. unfold SFltb, SFeqb.
  destruct (SFcompare (Prim2SF x) (Prim2SF y)) as [[]|]; congruence.
Qed.

Lemma float_ltb_asym x y : (x <? y)%float = true -> (y <? x)%float = false.
Proof.
  rewrite !ltb_spec. unfold SFltb.
  destruct (SFcompare (Prim2SF x) (Prim2SF y)) as [c|] eqn:E; try discriminate.
  rewrite (SFcompare_antisym _ _ _ E). destruct c; simpl; congruence.
Qed.

Lemma float_eqb_sym x y : (x =? y)%float = (y =? x)%float.
Proof.
  rewrite !eqb_spec. unfold SFeqb.
  destruct (SFcompare (Prim2SF x) (Prim2SF y)) as [c|] eqn:E.
  - rewrite (SFcompare_antisym _ _ _ E). destruct c; reflexivity.
  - destruct (SFcompare (Prim2SF y) (Prim2SF x)) as [c|] eqn:E'; auto.
    apply SFcompare_antisym in E'. congruence.
Qed.

(** [===] against a finite non-zero Number is identity. *)
Lemma float_eqb_finite x y s m e :
  Prim2SF y = S754_finite s m e -> (x =? y)%float = true -> x = y.
Proof.
  intros Hy. rewrite eqb_spec, Hy. unfold SFeqb. intros H.
  apply Prim2SF_inj. rewrite Hy.
  destruct (Prim2SF x) as [sx|sx| |sx mx ex]; simpl in H; try discriminate;
   try (destruct sx; discriminate); try (destruct s; discriminate).
  destruct sx, s; try discriminate;
    (destruct (ex ?= e)%Z eqn:E; try discriminate;
     apply Z.compare_eq in E; subst;
     destruct (Pos.compare_cont Eq mx m) eqn:E2; try discriminate;
     apply (Pos.compare_eq mx m) in E2; subst; reflexivity).
Qed.

(** [===] against zero holds of the two zeros. *)
Lemma float_eqb_zero x : (x =? 0)%float = true <-> x = 0%float \/ x = (-0)%float.
Proof.
  split.
  - rewrite eqb_spec. unfold SFeqb. intros H.
    destruct (Prim2SF x) as [sx|sx| |sx mx ex] eqn:E; simpl in H;
      try discriminate; try (destruct sx; discriminate).
    destruct sx; [right|left]; apply Prim2SF_inj; rewrite E; reflexivity.
  - intros [-> | ->]; reflexivity.
Qed.

Lemma float_eqb_255 x : (x =? 255)%float = true <-> x = 255%float.
Proof.
  split.
  - apply (float_eqb_finite x 255%float false 8972014882652160%positive (-45)%Z).
    vm_compute. reflexivity.
  - intros ->. reflexivity.
Qed.

(** Two Numbers of which none is [NaN] and none is below the other are the
    same Number, or are both zeros. *)
Lemma float_not_ltb x y :
  is_nan x = false -> is_nan y = false ->
  (x <? y)%float = false -> (y <? x)%float = false ->
  x = y \/ ((x = 0 \/ x = -0) /\ (y = 0 \/ y = -0))%float.
Proof.
  unfold is_nan. intros Nx Ny Hxy Hyx.
  apply negb_false_iff in Nx, Ny.
  assert (E : (x =? y)%float = true).
  { revert Nx Ny Hxy Hyx. rewrite !eqb_spec, !ltb_spec. unfold SFeqb, SFltb.
    destruct (SFcompare (Prim2SF x) (Prim2SF y)) as [c|] eqn:E.
    - rewrite (SFcompare_antisym _ _ _ E). destruct c; simpl; congruence.
    - destruct (Prim2SF x) as [sx|sx| |sx mx ex], (Prim2SF y) as [sy|sy| |sy my ey];
        simpl in *; intros; discriminate. }
  destruct (Prim2SF y) as [s|s| |s m e] eqn:Ey.
  - right. split; apply float_eqb_zero.
    + revert E. rewrite !eqb_spec, Ey. unfold SFeqb.
      destruct (Prim2SF x) as [sx|sx| |sx mx ex]; simpl; intros E; exact E.
    + rewrite eqb_spec, Ey. reflexivity.
  - left. apply Prim2SF_inj. rewrite Ey.
    revert E. rewrite eqb_spec, Ey. unfold SFeqb.
    destruct (Prim2SF x) as [sx|sx| |sx mx ex]; simpl; try discriminate;
      destruct sx, s; simpl; intros E; try discriminate E; reflexivity.
  - rewrite eqb_spec, Ey in Ny. discriminate Ny.
  - left. apply (float_eqb_finite x y s m e Ey E).
Qed.

(** [Math.max] and [Math.min] do not depend on the order of their two
    arguments, the zeros and [NaN] included. *)
Lemma Math_max_comm x y : JS.Math_max x y = JS.Math_max y x.
Proof.
  unfold JS.Math_max. rewrite (orb_comm (is_nan y)).
  destruct (is_nan x || is_nan y) eqn:N; [reflexivity|].
  apply orb_false_elim in N as [Nx Ny].
  destruct (x <? y)%float eqn:Hxy.
  - rewrite (float_ltb_asym _ _ Hxy). reflexivity.
  - destruct (y <? x)%float eqn:Hyx; [reflexivity|].
    destruct (float_not_ltb x y Nx Ny Hxy Hyx) as [-> | [[-> | ->] [-> | ->]]];
      reflexivity.
Qed.

Lemma Math_min_comm x y : JS.Math_min x y = JS.Math_min y x.
Proof.
  unfold JS.Math_min. rewrite (orb_comm (is_nan y)).
  destruct (is_nan x || is_nan y) eqn:N; [reflexivity|].
  apply orb_false_elim in N as [Nx Ny].
  destruct (x <? y)%float eqn:Hxy.
  - rewrite (float_ltb_asym _ _ Hxy). reflexivity.
  - destruct (y <? x)%float eqn:Hyx; [reflexivity|].
    destruct (float_not_ltb x y Nx Ny Hxy Hyx) as [-> | [[-> | ->] [-> | ->]]];
      reflexivity.
Qed.

(** *** Memoisation *)

Lemma fromObject_memo_ok {num : Type} {AR : Arith num} {PW : Power num} (o : object num) :
  memo_ok (fromObject o).
Proof. split; left; reflexivity. Qed.

Lemma getBrightness_memo {num : Type} {AR : Arith num} {PW : Power num} (c : color num) :
  memo_ok c ->
  fst (getBrightness c) = brightness c /\ memo_ok (snd (getBrightness c)).
Proof.
  intros [[Hc | Hc] Hl]; unfold getBrightness; rewrite Hc; simpl.
  - split; [reflexivity|]. split; [right; reflexivity | exact Hl].
  - split; [reflexivity|]. split; [right; exact Hc | exact Hl].
Qed.

Lemma getLuminance_memo {num : Type} {AR : Arith num} {PW : Power num} (c : color num) :
  memo_ok c ->
  fst (getLuminance c) = luminance c /\ memo_ok (snd (getLuminance c)).
Proof.
  intros [Hc [Hl | Hl]]; unfold getLuminance; rewrite Hl; simpl.
  - split; [reflexivity|]. split; [exact Hc | right; reflexivity].
  - split; [reflexivity|]. split; [exact Hc | right; exact Hl].
Qed.

(** *** The predicates *)

(** C4.  For every colour value (over binary64, memo field consistent):
    [isBlack()] is true iff [r], [g] and [b] are each exactly 255;
    [isWhite()] is true iff each is exactly zero (one of the two zeros of
    binary64); [getBrightness()] is [(r*299 + g*587 + b*114) / 1000], which
    in exact arithmetic is [0.299 r + 0.587 g + 0.114 b]; and [isDark()] is
    true iff that brightness is strictly less than 128. *)
Theorem isBlack_isWhite_isDark (c : color float) :
  cb_ok c ->
  (isBlack c = true <-> r c = 255%float /\ g c = 255%float /\ b c = 255%float)
  /\ (isWhite c = true <->
      (r c = 0%float \/ r c = (-0)%float) /\ (g c = 0%float \/ g c = (-0)%float)
      /\ (b c = 0%float \/ b c = (-0)%float))
  /\ fst (getBrightness c) = ((r c * 299 + g c * 587 + b c * 114) / 1000)%float
  /\ (isDark c = true <->
      ((r c * 299 + g c * 587 + b c * 114) / 1000 <? 128)%float = true)
  /\ (forall c' : color R,
        brightness c'
        = (299 / 1000 * r c' + 587 / 1000 * g c' + 114 / 1000 * b c')%R).
Proof.
  intros Hm.
  assert (Hb : fst (getBrightness c) = ((r c * 299 + g c * 587 + b c * 114) / 1000)%float).
  { destruct Hm as [Hc | Hc]; unfold getBrightness; rewrite Hc; reflexivity. }
  assert (HR : forall c' : color R,
             brightness c'
             = (299 / 1000 * r c' + 587 / 1000 * g c' + 114 / 1000 * b c')%R).
  { intros c'. unfold brightness. cbn [jadd jmul jdiv lit real_arith].
    unfold Q2R. cbn [Qnum Qden]. lra. }
  repeat split; try exact HR.
  - unfold isBlack in H. apply andb_prop in H as [H _]. apply andb_prop in H as [H _].
    apply float_eqb_255. exact H.
  - unfold isBlack in H. apply andb_prop in H as [H _]. apply andb_prop in H as [_ H].
    apply float_eqb_255. exact H.
  - unfold isBlack in H. apply andb_prop in H as [_ H].
    apply float_eqb_255. exact H.
  - intros (Hr & Hg & Hbl). unfold isBlack. rewrite Hr, Hg, Hbl. reflexivity.
  - unfold isWhite in H. apply andb_prop in H as [H _]. apply andb_prop in H as [H _].
    apply float_eqb_zero. exact H.
  - unfold isWhite in H. apply andb_prop in H as [H _]. apply andb_prop in H as [_ H].
    apply float_eqb_zero. exact H.
  - unfold isWhite in H. apply andb_prop in H as [_ H].
    apply float_eqb_zero. exact H.
  - intros (Hr & Hg & Hbl). unfold isWhite.
    apply float_eqb_zero in Hr, Hg, Hbl.
    change (lit 0) with 0%float. cbn [jeq float_arith].
    rewrite Hr, Hg, Hbl. reflexivity.
  - exact Hb.
  - unfold isDark. rewrite Hb. intros H. exact H.
  - unfold isDark. rewrite Hb. intros H. exact H.
Qed.

(** The mid grey [#808080] has brightness exactly 128 and is not dark. *)
Lemma isBlack_isWhite_isDark_witness :
  isDark (rgba 128 128 128 1)%float = false
  /\ fst (getBrightness (rgba 128 128 128 1)%float) = 128%float.
Proof.
  pose proof (isBlack_isWhite_isDark (rgba 128 128 128 1)%float
                (or_introl eq_refl)) as (_ & _ & Hb & Hd & _).
  split.
  - destruct Hd as [Hd _].
    destruct (isDark (rgba 128 128 128 1)%float); [|reflexivity].
    specialize (Hd eq_refl). vm_compute in Hd. discriminate Hd.
  - rewrite Hb. vm_compute. reflexivity.
Defined.

(** *** [withAlpha] *)

(** C9.  [withAlpha(a)] first divides [a] by 100 when [1 < a <= 100]; with
    [a1] the alpha after that step, the call returns a new colour value with
    the receiver's [r], [g], [b] and alpha [a1] exactly when [0 <= a1 <= 1],
    and [null] otherwise.  It is a total function (nothing is thrown) and the
    receiver, a value, is not changed. *)
Theorem withAlpha_spec (num : Type) (AR : Arith num) (this : color num) (a0 : num) :
  let a1 := if jlt (lit 1) a0 && jle a0 (lit 100) then jdiv a0 (lit 100) else a0 in
  let in01 := jle (lit 0) a1 && jle a1 (lit 1) in
  withAlpha this a0 =
    (if in01 then Some (Color (r this) (g this) (b this) a1 None None) else None)
  /\ match withAlpha this a0 with
     | Some c => r c = r this /\ g c = g this /\ b c = b this /\ a c = a1
                 /\ jle (lit 0) (a c) && jle (a c) (lit 1) = true
     | None => in01 = false
     end.
Proof.
  intros a1 in01. unfold withAlpha. fold a1. fold in01.
  split; [reflexivity|].
  destruct in01 eqn:E; simpl; auto.
Qed.

(** *** [equals] and [toString] *)

(** The string [toString()] prints depends on the channels through their
    roundings, and on alpha through the test [a === 1] and the rounding of
    [a * 1000]. *)
Lemma toString_rgb_ext (c1 c2 : color float) :
  JS.Math_round (r c1) = JS.Math_round (r c2) ->
  JS.Math_round (g c1) = JS.Math_round (g c2) ->
  JS.Math_round (b c1) = JS.Math_round (b c2) ->
  (a c1 =? 1)%float = (a c2 =? 1)%float ->
  JS.Math_round (a c1 * 1000) = JS.Math_round (a c2 * 1000) ->
  toString c1 "rgb" = toString c2 "rgb".
Proof.
  intros Hr Hg Hb H1 Ha. unfold toString. simpl.
  rewrite Hr, Hg, Hb, H1, Ha. reflexivity.
Qed.

(** C8, as amended.  [equals(other)] holds iff the two colours' default
    [toString()] outputs are the same string; two colour values with the
    same [r], [g], [b] whose alphas round identically (the rounding of
    [a * 1000] is the same) are equal provided both alphas are exactly 1 or
    neither is. *)
Theorem equals_spec (c1 c2 : color float) :
  (equals c1 (InColor c2) = Normal true <-> toString c1 "rgb" = toString c2 "rgb")
  /\ (r c1 = r c2 -> g c1 = g c2 -> b c1 = b c2 ->
      JS.Math_round (a c1 * 1000) = JS.Math_round (a c2 * 1000) ->
      (a c1 =? 1)%float = (a c2 =? 1)%float ->
      equals c1 (InColor c2) = Normal true).
Proof.
  assert (E : equals c1 (InColor c2) = Normal true <->
              toString c1 "rgb" = toString c2 "rgb").
  { unfold equals. simpl. split.
    - intros H. injection H as H. apply String.eqb_eq. exact H.
    - intros H. f_equal. apply String.eqb_eq. exact H. }
  split; [exact E|].
  intros Hr Hg Hb Ha H1. apply E.
  apply toString_rgb_ext; congruence.
Qed.

(** Alphas 0.5004 and 0.4996 both print as [0.5]. *)
Lemma equals_spec_witness :
  equals (rgba 1 2 3 0.5004)%float (InColor (rgba 1 2 3 0.4996)%float) = Normal true
  /\ toString (rgba 1 2 3 0.5004)%float "rgb" = "rgba(1,2,3,0.5)".
Proof.
  split.
  - apply (proj2 (equals_spec (rgba 1 2 3 0.5004)%float (rgba 1 2 3 0.4996)%float));
      vm_compute; reflexivity.
  - vm_compute. reflexivity.
Defined.

(** C8 as stated fails across [a === 1]: alphas 1 and 0.9996 both round to
    1 at three decimals, yet the strings are [rgb(1,2,3)] and
    [rgba(1,2,3,1)], and [equals] is false. *)
Lemma equals_across_opaque_counterexample :
  let c1 := (rgba 1 2 3 1)%float in
  let c2 := (rgba 1 2 3 0.9996)%float in
  r c1 = r c2 /\ g c1 = g c2 /\ b c1 = b c2 /\ a c1 <> a c2
  /\ (JS.Math_round (a c1 * 1000) / 1000 = JS.Math_round (a c2 * 1000) / 1000)%float
  /\ toString c1 "rgb" = "rgb(1,2,3)"
  /\ toString c2 "rgb" = "rgba(1,2,3,1)"
  /\ equals c1 (InColor c2) = Normal false.
Proof.
  repeat split; try (vm_compute; reflexivity).
  vm_compute. intros H.
  assert (E : (1 =? 0.9996)%float = true) by (rewrite <- H; reflexivity).
  vm_compute in E. discriminate E.
Qed.

(** *** The parser *)

(** The parser reads its argument only through its trimmed, lower-cased
    form. *)
Lemma stringInputToObject_normal (s s' : string) :
  JS.toLowerCase (JS.trim s) = JS.toLowerCase (JS.trim s') ->
  stringInputToObject s = stringInputToObject s'.
Proof. intros H. unfold stringInputToObject. rewrite H. reflexivity. Qed.

Lemma names_roundtrip : forallb roundtrips names = true.
Proof. vm_compute. reflexivity. Qed.

(** C6.  For every entry of the table [names], a string that is the name
    up to letter case and surrounding white space constructs a colour value
    whose [toString("hex")] is the canonical six-digit hex string of the
    entry. *)
Theorem named_color_hex_roundtrip (name hex s : string) :
  In (name, hex) names ->
  JS.toLowerCase (JS.trim s) = name ->
  exists c, webcolor (InString s) = Normal c /\ toString c "hex" = canonicalHex hex.
Proof.
  intros Hin Hs.
  pose proof (proj1 (forallb_forall roundtrips names) names_roundtrip _ Hin) as H.
  unfold roundtrips in H. simpl fst in H. simpl snd in H.
  apply andb_prop in H as [Hn H]. apply String.eqb_eq in Hn.
  assert (E : stringInputToObject s = stringInputToObject name).
  { apply stringInputToObject_normal. congruence. }
  unfold webcolor in *. rewrite E.
  destruct (stringInputToObject name) as [o|]; [|discriminate H].
  exists (fromObject o). split; [reflexivity|].
  apply String.eqb_eq. exact H.
Qed.

(** ["  ReD "] prints as [#ff0000]. *)
Lemma named_color_hex_roundtrip_witness :
  exists c, webcolor (InString "  ReD ") = Normal c /\ toString c "hex" = "#ff0000".
Proof.
  apply (named_color_hex_roundtrip "red" "f00" "  ReD ").
  - unfold names. repeat (try (left; reflexivity); right).
  - vm_compute. reflexivity.
Defined.

Lemma parseForms_null (u : string) :
  parseForms u = None <-> rejectedShape u = true.
Proof.
  unfold parseForms, rejectedShape.
  destruct (negb (is_char (JS.at_ u 0) "r") && negb (is_char (JS.at_ u 0) "#"));
    [split; reflexivity|].
  rewrite orb_false_l.
  destruct (9 <? Z.of_nat (String.length u))%Z.
  - destruct ((Z.of_nat (List.length (JS.split "," u)) <? 3)
              || (4 <? Z.of_nat (List.length (JS.split "," u))))%Z;
      split; (reflexivity || discriminate).
  - destruct ((Z.of_nat (String.length u) =? 8) || (Z.of_nat (String.length u) =? 6)
              || (Z.of_nat (String.length u) <? 4))%Z;
      [split; reflexivity|].
    destruct ((Z.of_nat (String.length u) =? 9) || (Z.of_nat (String.length u) =? 5))%Z;
      split; discriminate.
Qed.

(** C1, as amended.  [stringInputToObject] returns [null] exactly for the
    strings that, trimmed and lower-cased, are not ["transparent"] and whose
    normalized form has a rejected shape.  It is total: no input makes it
    throw.  The numeric components are not validated, so a string of an
    accepted shape parses whatever its digits are. *)
Theorem stringInputToObject_null (s : string) :
  stringInputToObject s = None <->
  (JS.toLowerCase (JS.trim s) <> "transparent" /\ rejectedShape (normalized s) = true).
Proof.
  unfold stringInputToObject, normalized.
  set (t := JS.toLowerCase (JS.trim s)).
  destruct (lookup t names) as [h|] eqn:El.
  - assert (Ht : t <> "transparent").
    { intros E. rewrite E in El. vm_compute in El. discriminate El. }
    rewrite parseForms_null. tauto.
  - destruct (String.eqb t "transparent") eqn:Et.
    + apply String.eqb_eq in Et.
      split; [discriminate | intros [H _]; contradiction].
    + apply String.eqb_neq in Et. rewrite parseForms_null. tauto.
Qed.

(** C1 as stated fails: malformed strings of an accepted shape construct a
    colour value instead of failing.  [#gggggg] (no hex digit) is black,
    [rgb(1,,3)] (an empty component, 9 characters, so read as hex) is
    transparent black, and [rgb(a,b,c)] has [NaN] channels. *)
Lemma malformed_accepted_counterexample :
  webcolor (InString "#gggggg") = Normal (Color 0 0 0 1 None None)%float
  /\ webcolor (InString "rgb(1,,3)") = Normal (Color 0 0 0 0 None None)%float
  /\ webcolor (InString "rgb(a,b,c)") = Normal (Color nan nan nan 1%float None None).
Proof. repeat split; vm_compute; reflexivity. Qed.

(** *** Integers in binary64 *)

Section Binary64Integers.

Local Open Scope Z_scope.

Lemma iter_xO_value (p d : positive) : Zpos (Pos.iter xO p d) = Zpos p * 2 ^ Zpos d.
Proof.
  induction d as [|d IH] using Pos.peano_ind.
  - simpl. lia.
  - rewrite Pos.iter_succ, Pos2Z.inj_succ, Z.pow_succ_r by lia.
    rewrite Pos2Z.inj_xO, IH. lia.
Qed.

Lemma iter_xO_digits (p d : positive) :
  digits2_pos (Pos.iter xO p d) = (digits2_pos p + d)%positive.
Proof.
  induction d as [|d IH] using Pos.peano_ind.
  - simpl. lia.
  - rewrite Pos.iter_succ. simpl. rewrite IH. lia.
Qed.

Lemma digits2_pos_bound (p : positive) (k : Z) :
  0 <= k -> Zpos p < 2 ^ k -> Zpos (digits2_pos p) <= k.
Proof.
  revert k. induction p as [p IH|p IH|]; intros k Hk H.
  - assert (0 < k) by (destruct (Z.eq_dec k 0) as [->|]; [simpl in H; lia | lia]).
    replace k with (Z.succ (k - 1)) in H by lia. rewrite Z.pow_succ_r in H by lia.
    simpl digits2_pos. rewrite Pos2Z.inj_succ.
    specialize (IH (k - 1) ltac:(lia) ltac:(lia)). lia.
  - assert (0 < k) by (destruct (Z.eq_dec k 0) as [->|]; [simpl in H; lia | lia]).
    replace k with (Z.succ (k - 1)) in H by lia. rewrite Z.pow_succ_r in H by lia.
    simpl digits2_pos. rewrite Pos2Z.inj_succ.
    specialize (IH (k - 1) ltac:(lia) ltac:(lia)). lia.
  - simpl. destruct (Z.eq_dec k 0) as [->|]; [simpl in H; lia | lia].
Qed.

(** A mantissa of 53 digits with an exponent in range is left as it is. *)
Lemma binary_round_aux_canonical (s : bool) (m : positive) (e : Z) :
  Zpos (digits2_pos m) = 53 -> -1074 <= e <= 971 ->
  binary_round_aux prec emax s (Zpos m) e loc_Exact = S754_finite s m e.
Proof.
  intros Hd He.
  assert (Hf : fexp prec emax (Zdigits2 (Zpos m) + e) - e = 0).
  { unfold fexp, emin, prec, emax, Zdigits2. lia. }
  unfold binary_round_aux, shr_fexp. rewrite Hf. cbn [shr shr_record_of_loc].
  cbn [shr_m loc_of_shr_record round_nearest_even]. rewrite Hf. cbn [shr shr_m].
  replace (e <=? emax - prec) with true; [reflexivity|].
  symmetry. apply Z.leb_le. unfold emax, prec. lia.
Qed.

Lemma binary_round_exact (s : bool) (p : positive) :
  Zpos (digits2_pos p) <= 53 ->
  exists m e, binary_round prec emax s p 0 = S754_finite s m e
              /\ -52 <= e <= 0 /\ Zpos m = Zpos p * 2 ^ (- e)
              /\ Zpos (digits2_pos m) = 53.
Proof.
  intros Hd. unfold binary_round, shl_align.
  assert (Hf : fexp prec emax (Zpos (digits2_pos p) + 0) = Zpos (digits2_pos p) - 53).
  { unfold fexp, emin, prec, emax. lia. }
  rewrite Hf.
  destruct (Zpos (digits2_pos p) - 53 - 0) as [|d|d] eqn:Ed; try lia.
  - exists p, 0. rewrite binary_round_aux_canonical by lia.
    repeat split; try lia.
  - exists (Pos.iter xO p d), (Zpos (digits2_pos p) - 53).
    pose proof (iter_xO_digits p d) as Hdig.
    rewrite binary_round_aux_canonical by lia.
    repeat split; try lia.
    rewrite iter_xO_value. f_equal. f_equal. lia.
Qed.

Lemma valid_canonical (s : bool) (m : positive) (e : Z) :
  Zpos (digits2_pos m) = 53 -> -52 <= e <= 0 ->
  valid_binary (S754_finite s m e) = true.
Proof.
  intros Hd He. unfold SpecFloat.valid_binary, bounded, canonical_mantissa.
  apply andb_true_iff. split.
  - apply Z.eqb_eq. unfold fexp, emin, prec, emax. lia.
  - apply Z.leb_le. unfold prec, emax. lia.
Qed.

Lemma truncate_float_of_Z (n : Z) :
  - 2 ^ 53 < n < 2 ^ 53 -> JS.truncate (JS.float_of_Z n) = Some n.
Proof.
  intros Hn. unfold JS.truncate, JS.float_of_Z.
  destruct n as [|p|p].
  - reflexivity.
  - destruct (binary_round_exact false p) as (m & e & E & He & Hm & Hd).
    { apply digits2_pos_bound; lia. }
    cbn [binary_normalize]. rewrite E.
    rewrite Prim2SF_SF2Prim by (apply valid_canonical; assumption).
    destruct (0 <=? e) eqn:E0.
    + apply Z.leb_le in E0. assert (e = 0) by lia. subst e. f_equal. simpl in Hm. lia.
    + f_equal. rewrite Hm. apply Z.div_mul. apply Z.pow_nonzero; lia.
  - destruct (binary_round_exact true p) as (m & e & E & He & Hm & Hd).
    { apply digits2_pos_bound; lia. }
    cbn [binary_normalize]. rewrite E.
    rewrite Prim2SF_SF2Prim by (apply valid_canonical; assumption).
    destruct (0 <=? e) eqn:E0.
    + apply Z.leb_le in E0. assert (e = 0) by lia. subst e. f_equal. simpl in Hm. lia.
    + f_equal. rewrite Hm. rewrite Z.div_mul by (apply Z.pow_nonzero; lia). lia.
Qed.

Lemma ToInt32_float_of_Z (n : Z) :
  - 2 ^ 31 <= n < 2 ^ 31 -> JS.ToInt32 (JS.float_of_Z n) = n.
Proof.
  intros Hn. unfold JS.ToInt32. rewrite truncate_float_of_Z by lia.
  destruct (2 ^ 31 <=? n mod 2 ^ 32) eqn:E.
  - apply Z.leb_le in E. 
    assert (n < 0) by (destruct (Z_lt_le_dec n 0); [assumption|rewrite Z.mod_small in E; lia]).
    pose proof (Z.mod_pos_bound n (2^32) ltac:(lia)).
    rewrite <- (Z.mod_unique n (2^32) (-1) (n + 2^32)); lia.
  - apply Z.leb_gt in E.
    assert (0 <= n).
    { destruct (Z_lt_le_dec n 0); [|assumption].
      rewrite <- (Z.mod_unique n (2^32) (-1) (n + 2^32)) in E; lia. }
    apply Z.mod_small. lia.
Qed.

Lemma ToInt32_float_of_Z_high (n : Z) :
  2 ^ 31 <= n < 2 ^ 32 -> JS.ToInt32 (JS.float_of_Z n) = n - 2 ^ 32.
Proof.
  intros Hn. unfold JS.ToInt32. rewrite truncate_float_of_Z by lia.
  rewrite Z.mod_small by lia.
  destruct (2 ^ 31 <=? n) eqn:E; [reflexivity|]. apply Z.leb_gt in E. lia.
Qed.

End Binary64Integers.

(** *** The hex forms *)

Section HexForms.

Local Open Scope Z_scope.
Local Open Scope string_scope.

Ltac each_char c :=
  destruct c as [[] [] [] [] [] [] [] []].

Lemma hex_value_range (c : ascii) : isHexDigit c = true -> (0 <= hexValue c < 16)%Z.
Proof.
  intros H. each_char c; try discriminate H; vm_compute; split; congruence.
Qed.

Lemma hex_digitValue (c : ascii) :
  isHexDigit c = true -> JS.digitValue c = Some (hexValue c).
Proof.
  unfold isHexDigit, hexValue. destruct (JS.digitValue c); [reflexivity | discriminate].
Qed.

Lemma hex_not_space (c : ascii) : isHexDigit c = true -> JS.isWhiteSpace c = false.
Proof. intros H. each_char c; try discriminate H; reflexivity. Qed.

Lemma hex_not_comma (c : ascii) : isHexDigit c = true -> Ascii.eqb c "," = false.
Proof. intros H. each_char c; try discriminate H; reflexivity. Qed.

Lemma hex_lower (c : ascii) :
  isHexDigit c = true ->
  isHexDigit (JS.lowerChar c) = true /\ hexValue (JS.lowerChar c) = hexValue c.
Proof. intros H. each_char c; try discriminate H; split; reflexivity. Qed.

Lemma hex_stripSign (c : ascii) (s : string) :
  isHexDigit c = true -> JS.stripSign (String c s) = (false, String c s).
Proof. intros H. each_char c; try discriminate H; reflexivity. Qed.

Lemma hex_no_prefix (c : ascii) (s : string) :
  isHexDigit c = true -> allHex s = true ->
  match String c s with
  | String "0" (String "x" t) => (16, t)
  | String "0" (String "X" t) => (16, t)
  | _ => (16, String c s)
  end = (16, String c s).
Proof.
  intros H Hs. each_char c; try discriminate H; try reflexivity.
  destruct s as [|c2 s']; [reflexivity|].
  simpl in Hs. apply andb_prop in Hs as [H2 _].
  each_char c2; try discriminate H2; reflexivity.
Qed.

Lemma digits_hex (s : string) (acc : Z) :
  allHex s = true ->
  JS.digits 16 s (Some acc) = Some (hexFold s acc).
Proof.
  revert acc. induction s as [|c s IH]; intros acc H; [reflexivity|].
  simpl in H. apply andb_prop in H as [Hc Hs].
  cbn [JS.digits hexFold]. rewrite (hex_digitValue c Hc).
  pose proof (hex_value_range c Hc) as Hr.
  replace (hexValue c <? 16)%Z with true by (symmetry; apply Z.ltb_lt; lia).
  apply IH. exact Hs.
Qed.

Lemma hexFold_nonneg (s : string) (acc : Z) :
  allHex s = true -> (0 <= acc -> 0 <= hexFold s acc)%Z.
Proof.
  revert acc. induction s as [|c s IH]; intros acc H Ha; [exact Ha|].
  simpl in H. apply andb_prop in H as [Hc Hs]. cbn [hexFold].
  apply IH; [exact Hs|]. pose proof (hex_value_range c Hc). lia.
Qed.

(** [parseInt] of a non-empty string of hex digits, in radix 16. *)
Lemma parseInt_hex (c : ascii) (s : string) :
  isHexDigit c = true -> allHex s = true ->
  JS.parseInt (String c s) (Some 16) = JS.float_of_Z (hexFold (String c s) 0).
Proof.
  intros Hc Hs. unfold JS.parseInt.
  cbn [JS.trimStart]. rewrite (hex_not_space c Hc).
  rewrite (hex_stripSign c s Hc).
  change (negb (16 =? 0)%Z && ((16 <? 2)%Z || (36 <? 16)%Z)) with false. cbv iota.
  change ((16 =? 0)%Z || (16 =? 16)%Z) with true. cbv iota.
  change (if (16 =? 0)%Z then 10%Z else 16%Z) with 16%Z.
  rewrite (hex_no_prefix c s Hc Hs).
  cbn [JS.digits]. rewrite (hex_digitValue c Hc).
  pose proof (hex_value_range c Hc) as Hr.
  replace (hexValue c <? 16)%Z with true by (symmetry; apply Z.ltb_lt; lia).
  rewrite digits_hex by exact Hs.
  cbn [hexFold]. 
  destruct (hexFold s (0 * 16 + hexValue c) =? 0)%Z eqn:E.
  - apply Z.eqb_eq in E. rewrite E. reflexivity.
  - reflexivity.
Qed.

Lemma trimEnd_hex (s : string) : allHex s = true -> JS.trimEnd s = s.
Proof.
  induction s as [|c s IH]; intros H; [reflexivity|].
  simpl in H. apply andb_prop in H as [Hc Hs].
  cbn [JS.trimEnd]. rewrite (IH Hs). rewrite (hex_not_space c Hc).
  destruct s; reflexivity.
Qed.

Lemma trim_hash_hex (s : string) : allHex s = true -> JS.trim (String "#" s) = String "#" s.
Proof.
  intros H. unfold JS.trim. cbn [JS.trimStart].
  change (JS.isWhiteSpace "#") with false. cbv iota.
  cbn [JS.trimEnd]. rewrite (trimEnd_hex s H).
  destruct s; reflexivity.
Qed.

Lemma lower_hex (s : string) :
  allHex s = true ->
  allHex (JS.toLowerCase s) = true
  /\ (forall acc, hexFold (JS.toLowerCase s) acc = hexFold s acc)
  /\ String.length (JS.toLowerCase s) = String.length s.
Proof.
  induction s as [|c s IH]; intros H; [repeat split|].
  simpl in H. apply andb_prop in H as [Hc Hs].
  destruct (IH Hs) as (IH1 & IH2 & IH3). destruct (hex_lower c Hc) as [Hl Hv].
  cbn [JS.toLowerCase allHex hexFold String.length].
  rewrite Hl, IH1, IH3, Hv. repeat split. intros acc. apply IH2.
Qed.

Lemma lookup_hash (s : string) : lookup (String "#" s) names = None.
Proof. vm_compute. reflexivity. Qed.

Lemma not_transparent_hash (s : string) : String.eqb (String "#" s) "transparent" = false.
Proof. reflexivity. Qed.

Lemma split_hex (s : string) : allHex s = true -> JS.split "," s = [s]%list.
Proof.
  induction s as [|c s IH]; intros H; [reflexivity|].
  simpl in H. apply andb_prop in H as [Hc Hs].
  cbn [JS.split]. rewrite (hex_not_comma c Hc), (IH Hs). reflexivity.
Qed.

(** A string of [#] and hex digits is parsed as its lower-case form is. *)
Lemma stringInputToObject_hash (ds : string) :
  allHex ds = true ->
  stringInputToObject (String "#" ds) = parseForms (String "#" (JS.toLowerCase ds)).
Proof.
  intros H. unfold stringInputToObject. rewrite (trim_hash_hex ds H).
  cbn [JS.toLowerCase]. change (JS.lowerChar "#") with "#"%char.
  rewrite lookup_hash, not_transparent_hash. reflexivity.
Qed.

Lemma rejectedShape_hash (ds : string) :
  allHex ds = true ->
  rejectedShape (String "#" ds) = true <->
  ~ In (String.length ds) [3; 4; 6; 8]%nat.
Proof.
  intros H. unfold rejectedShape.
  change (JS.at_ (String "#" ds) 0) with (Some "#"%char).
  change (negb (is_char (Some "#"%char) "r") && negb (is_char (Some "#"%char) "#")) with false.
  rewrite orb_false_l.
  cbn [JS.split]. change (Ascii.eqb "#" ",") with false. cbv iota.
  rewrite (split_hex ds H). cbn [List.length String.length].
  change ((Z.of_nat 1 <? 3)%Z || (4 <? Z.of_nat 1)%Z) with true.
  destruct (9 <? Z.of_nat (S (String.length ds)))%Z eqn:E9.
  - apply Z.ltb_lt in E9. split; [|reflexivity]. intros _. simpl. lia.
  - apply Z.ltb_ge in E9. rewrite !orb_true_iff, !Z.eqb_eq, Z.ltb_lt. simpl. lia.
Qed.

Lemma sar_float_of_Z (n k : Z) :
  (- 2 ^ 31 <= n < 2 ^ 31)%Z -> (0 <= k < 32)%Z ->
  JS.sar (JS.float_of_Z n) k = JS.float_of_Z (n / 2 ^ k).
Proof.
  intros Hn Hk. unfold JS.sar. rewrite ToInt32_float_of_Z by exact Hn.
  rewrite Z.mod_small by exact Hk. rewrite Z.shiftr_div_pow2 by lia. reflexivity.
Qed.

Lemma sar_float_of_Z_high (n k : Z) :
  (2 ^ 31 <= n < 2 ^ 32)%Z -> (0 <= k < 32)%Z ->
  JS.sar (JS.float_of_Z n) k = JS.float_of_Z ((n - 2 ^ 32) / 2 ^ k).
Proof.
  intros Hn Hk. unfold JS.sar. rewrite ToInt32_float_of_Z_high by exact Hn.
  rewrite Z.mod_small by exact Hk. rewrite Z.shiftr_div_pow2 by lia. reflexivity.
Qed.

Lemma ToInt32_255 : JS.ToInt32 255%float = 255%Z.
Proof. vm_compute. reflexivity. Qed.

Lemma band_255 (n : Z) :
  (- 2 ^ 31 <= n < 2 ^ 31)%Z ->
  JS.band (JS.float_of_Z n) 255%float = JS.float_of_Z (n mod 256).
Proof.
  intros Hn. unfold JS.band. rewrite ToInt32_float_of_Z by exact Hn.
  rewrite ToInt32_255. change 255%Z with (Z.ones 8). rewrite Z.land_ones by lia.
  reflexivity.
Qed.

Lemma band_255_high (n : Z) :
  (2 ^ 31 <= n < 2 ^ 32)%Z ->
  JS.band (JS.float_of_Z n) 255%float = JS.float_of_Z (n mod 256).
Proof.
  intros Hn. unfold JS.band. rewrite ToInt32_float_of_Z_high by exact Hn.
  rewrite ToInt32_255. change 255%Z with (Z.ones 8). rewrite Z.land_ones by lia.
  f_equal. change (2 ^ 8)%Z with 256%Z.
  replace (n - 2 ^ 32)%Z with (n + (- 16777216) * 256)%Z by lia.
  apply Z.mod_add. lia.
Qed.

Ltac zdiv := Z.div_mod_to_equations; lia.

(** The three channels of a decoded integer below 2^24. *)
Lemma channels_24 (n : Z) :
  (0 <= n < 16777216)%Z ->
  JS.sar (JS.float_of_Z n) 16 = JS.float_of_Z (n / 65536)
  /\ JS.band (JS.sar (JS.float_of_Z n) 8) 255%float = JS.float_of_Z (n / 256 mod 256)
  /\ JS.band (JS.float_of_Z n) 255%float = JS.float_of_Z (n mod 256).
Proof.
  intros Hn.
  assert (P31 : (2 ^ 31 = 2147483648)%Z) by reflexivity.
  repeat split.
  - rewrite sar_float_of_Z by lia. reflexivity.
  - rewrite sar_float_of_Z by lia. change (2 ^ 8)%Z with 256%Z.
    rewrite band_255; [reflexivity|]. rewrite P31. zdiv.
  - rewrite band_255 by lia. reflexivity.
Qed.

(** The four bytes of a decoded integer below 2^32. *)
Lemma channels_32 (n : Z) :
  (0 <= n < 4294967296)%Z ->
  JS.band (JS.sar (JS.float_of_Z n) 24) 255%float = JS.float_of_Z (n / 16777216)
  /\ JS.band (JS.sar (JS.float_of_Z n) 16) 255%float = JS.float_of_Z (n / 65536 mod 256)
  /\ JS.band (JS.sar (JS.float_of_Z n) 8) 255%float = JS.float_of_Z (n / 256 mod 256)
  /\ JS.band (JS.float_of_Z n) 255%float = JS.float_of_Z (n mod 256).
Proof.
  intros Hn.
  assert (P31 : (2 ^ 31 = 2147483648)%Z) by reflexivity.
  assert (P32 : (2 ^ 32 = 4294967296)%Z) by reflexivity.
  destruct (Z_lt_le_dec n 2147483648) as [Hlo | Hhi].
  - rewrite !sar_float_of_Z by lia.
    change (2 ^ 24)%Z with 16777216%Z. change (2 ^ 16)%Z with 65536%Z.
    change (2 ^ 8)%Z with 256%Z.
    rewrite !band_255 by (rewrite P31; zdiv).
    repeat split. f_equal. zdiv.
  - rewrite !sar_float_of_Z_high by lia.
    change (2 ^ 24)%Z with 16777216%Z. change (2 ^ 16)%Z with 65536%Z.
    change (2 ^ 8)%Z with 256%Z. rewrite P32.
    rewrite !band_255 by (rewrite P31; zdiv).
    rewrite band_255_high by lia.
    repeat split; f_equal; zdiv.
Qed.

Lemma alpha_agrees_all : forallb alpha_agrees (seq 0 256) = true.
Proof. vm_compute. reflexivity. Qed.

Lemma alphaOfByte_spec (n : Z) :
  (0 <= n < 256)%Z -> alphaOfByte (JS.float_of_Z n) = alphaSpec n.
Proof.
  intros Hn.
  pose proof (proj1 (forallb_forall alpha_agrees (seq 0 256)) alpha_agrees_all (Z.to_nat n)) as H.
  unfold alpha_agrees in H. rewrite Z2Nat.id in H by lia.
  apply FloatAxioms.Leibniz.eqb_spec. apply H. apply in_seq. lia.
Qed.

Lemma hexByte_six (d1 d2 d3 d4 d5 d6 : ascii) :
  isHexDigit d1 = true -> isHexDigit d2 = true -> isHexDigit d3 = true ->
  isHexDigit d4 = true -> isHexDigit d5 = true -> isHexDigit d6 = true ->
  parseForms (String "#" (JS.toLowerCase
     (String d1 (String d2 (String d3 (String d4 (String d5 (String d6 ""))))))))
  = Some (Object (Some (hexByte d1 d2)) (Some (hexByte d3 d4)) (Some (hexByte d5 d6))
                 (Some 1%float)).
Proof.
  intros H1 H2 H3 H4 H5 H6.
  set (ds := String d1 (String d2 (String d3 (String d4 (String d5 (String d6 "")))))).
  assert (Hds : allHex ds = true) by (subst ds; simpl; rewrite H1, H2, H3, H4, H5, H6; reflexivity).
  destruct (lower_hex ds Hds) as (Hl & Hf & Hlen).
  unfold parseForms.
  change (JS.at_ (String "#" (JS.toLowerCase ds)) 0) with (Some "#"%char).
  change (negb (is_char (Some "#"%char) "r") && negb (is_char (Some "#"%char) "#")) with false.
  cbv iota.
  cbn [String.length]. rewrite Hlen. subst ds. cbn [String.length].
  change (9 <? Z.of_nat 7)%Z with false.
  change ((Z.of_nat 7 =? 8)%Z || (Z.of_nat 7 =? 6)%Z || (Z.of_nat 7 <? 4)%Z) with false.
  change (Z.of_nat 7 <? 6)%Z with false.
  change ((Z.of_nat 7 =? 9)%Z || (Z.of_nat 7 =? 5)%Z) with false.
  cbv iota.
  set (ds := String d1 (String d2 (String d3 (String d4 (String d5 (String d6 "")))))) in *.
  assert (Hs : JS.slice (String "#" (JS.toLowerCase ds)) 1 None = JS.toLowerCase ds).
  { subst ds. reflexivity. }
  rewrite Hs.
  assert (Hp : JS.parseInt (JS.toLowerCase ds) (Some 16%Z) = JS.float_of_Z (hexFold ds 0)).
  { rewrite <- Hf. subst ds. cbn [JS.toLowerCase] in *.
    cbn [allHex] in Hl. apply andb_prop in Hl as [Hl1 Hl2].
    apply parseInt_hex; assumption. }
  rewrite Hp. subst ds. cbn [hexFold].
  pose proof (hex_value_range d1 H1). pose proof (hex_value_range d2 H2).
  pose proof (hex_value_range d3 H3). pose proof (hex_value_range d4 H4).
  pose proof (hex_value_range d5 H5). pose proof (hex_value_range d6 H6).
  set (n := ((((((0 * 16 + hexValue d1) * 16 + hexValue d2) * 16 + hexValue d3) * 16
              + hexValue d4) * 16 + hexValue d5) * 16 + hexValue d6)%Z).
  destruct (channels_24 n ltac:(subst n; lia)) as (E1 & E2 & E3).
  rewrite E1, E2, E3. unfold hexByte.
  assert (A1 : (n / 65536 = 16 * hexValue d1 + hexValue d2)%Z) by (subst n; zdiv).
  assert (A2 : (n / 256 mod 256 = 16 * hexValue d3 + hexValue d4)%Z) by (subst n; zdiv).
  assert (A3 : (n mod 256 = 16 * hexValue d5 + hexValue d6)%Z) by (subst n; zdiv).
  rewrite A1, A2, A3. reflexivity.
Qed.

Lemma hexByte_eight (d1 d2 d3 d4 d5 d6 d7 d8 : ascii) :
  isHexDigit d1 = true -> isHexDigit d2 = true -> isHexDigit d3 = true ->
  isHexDigit d4 = true -> isHexDigit d5 = true -> isHexDigit d6 = true ->
  isHexDigit d7 = true -> isHexDigit d8 = true ->
  parseForms (String "#" (JS.toLowerCase
     (String d1 (String d2 (String d3 (String d4 (String d5 (String d6
        (String d7 (String d8 ""))))))))))
  = Some (Object (Some (hexByte d1 d2)) (Some (hexByte d3 d4)) (Some (hexByte d5 d6))
                 (Some (alphaOfByte (hexByte d7 d8)))).
Proof.
  intros H1 H2 H3 H4 H5 H6 H7 H8.
  set (ds := String d1 (String d2 (String d3 (String d4 (String d5 (String d6
               (String d7 (String d8 "")))))))).
  assert (Hds : allHex ds = true)
    by (subst ds; simpl; rewrite H1, H2, H3, H4, H5, H6, H7, H8; reflexivity).
  destruct (lower_hex ds Hds) as (Hl & Hf & Hlen).
  unfold parseForms.
  change (JS.at_ (String "#" (JS.toLowerCase ds)) 0) with (Some "#"%char).
  change (negb (is_char (Some "#"%char) "r") && negb (is_char (Some "#"%char) "#")) with false.
  cbv iota.
  cbn [String.length]. rewrite Hlen. subst ds. cbn [String.length].
  change (9 <? Z.of_nat 9)%Z with false.
  change ((Z.of_nat 9 =? 8)%Z || (Z.of_nat 9 =? 6)%Z || (Z.of_nat 9 <? 4)%Z) with false.
  change (Z.of_nat 9 <? 6)%Z with false.
  change ((Z.of_nat 9 =? 9)%Z || (Z.of_nat 9 =? 5)%Z) with true.
  cbv iota.
  set (ds := String d1 (String d2 (String d3 (String d4 (String d5 (String d6
               (String d7 (String d8 "")))))))) in *.
  assert (Hs : JS.slice (String "#" (JS.toLowerCase ds)) 1 None = JS.toLowerCase ds).
  { subst ds. reflexivity. }
  rewrite Hs.
  assert (Hp : JS.parseInt (JS.toLowerCase ds) (Some 16%Z) = JS.float_of_Z (hexFold ds 0)).
  { rewrite <- Hf. subst ds. cbn [JS.toLowerCase] in *.
    cbn [allHex] in Hl. apply andb_prop in Hl as [Hl1 Hl2].
    apply parseInt_hex; assumption. }
  rewrite Hp. subst ds. cbn [hexFold].
  pose proof (hex_value_range d1 H1). pose proof (hex_value_range d2 H2).
  pose proof (hex_value_range d3 H3). pose proof (hex_value_range d4 H4).
  pose proof (hex_value_range d5 H5). pose proof (hex_value_range d6 H6).
  pose proof (hex_value_range d7 H7). pose proof (hex_value_range d8 H8).
  set (n := ((((((((0 * 16 + hexValue d1) * 16 + hexValue d2) * 16 + hexValue d3) * 16
              + hexValue d4) * 16 + hexValue d5) * 16 + hexValue d6) * 16
              + hexValue d7) * 16 + hexValue d8)%Z).
  destruct (channels_32 n ltac:(subst n; lia)) as (E1 & E2 & E3 & E4).
  rewrite E1, E2, E3, E4. unfold hexByte.
  assert (A1 : (n / 16777216 = 16 * hexValue d1 + hexValue d2)%Z) by (subst n; zdiv).
  assert (A2 : (n / 65536 mod 256 = 16 * hexValue d3 + hexValue d4)%Z) by (subst n; zdiv).
  assert (A3 : (n / 256 mod 256 = 16 * hexValue d5 + hexValue d6)%Z) by (subst n; zdiv).
  assert (A4 : (n mod 256 = 16 * hexValue d7 + hexValue d8)%Z) by (subst n; zdiv).
  rewrite A1, A2, A3, A4. reflexivity.
Qed.

(** The shorthand forms are read as their doubled forms. *)
Lemma shorthand_three (d1 d2 d3 : ascii) :
  parseForms (String "#" (JS.toLowerCase (String d1 (String d2 (String d3 "")))))
  = parseForms (String "#" (JS.toLowerCase
      (String d1 (String d1 (String d2 (String d2 (String d3 (String d3 "")))))))).
Proof. reflexivity. Qed.

Lemma shorthand_four (d1 d2 d3 d4 : ascii) :
  parseForms (String "#" (JS.toLowerCase (String d1 (String d2 (String d3 (String d4 ""))))))
  = parseForms (String "#" (JS.toLowerCase
      (String d1 (String d1 (String d2 (String d2 (String d3 (String d3
         (String d4 (String d4 "")))))))))).
Proof. reflexivity. Qed.


(** C5.  Of the strings made of [#] and hex digits, exactly those with 3,
    4, 6 or 8 digits parse ([#rgb], [#rgba], [#rrggbb], [#rrggbbaa]); 5 and
    7 digits (6 and 8 characters) and every other length are rejected.  The
    3- and 4-digit forms are read as the forms with each digit doubled.  In
    the 6-digit form the channels are the three bytes and alpha is 1; in the
    8-digit form the low byte [n] becomes the alpha
    [Math.round(n / 0.255) / 1000], which is [n/255] rounded to 3 decimal
    places.  [#43C403] is 67, 196, 3, 1; the alpha of [#43C40399] is 0.6;
    [#F3A] is 255, 51, 170, 1. *)
Theorem hex_forms :
  (forall ds, allHex ds = true ->
     (stringInputToObject (String "#" ds) <> None
      <-> In (String.length ds) [3; 4; 6; 8]%nat))
  /\ (forall d1 d2 d3,
        isHexDigit d1 = true -> isHexDigit d2 = true -> isHexDigit d3 = true ->
        stringInputToObject (String "#" (String d1 (String d2 (String d3 ""))))
        = stringInputToObject
            (String "#" (String d1 (String d1 (String d2 (String d2
               (String d3 (String d3 ""))))))))
  /\ (forall d1 d2 d3 d4,
        isHexDigit d1 = true -> isHexDigit d2 = true -> isHexDigit d3 = true ->
        isHexDigit d4 = true ->
        stringInputToObject
          (String "#" (String d1 (String d2 (String d3 (String d4 "")))))
        = stringInputToObject
            (String "#" (String d1 (String d1 (String d2 (String d2
               (String d3 (String d3 (String d4 (String d4 ""))))))))))
  /\ (forall d1 d2 d3 d4 d5 d6,
        isHexDigit d1 = true -> isHexDigit d2 = true -> isHexDigit d3 = true ->
        isHexDigit d4 = true -> isHexDigit d5 = true -> isHexDigit d6 = true ->
        stringInputToObject
          (String "#" (String d1 (String d2 (String d3 (String d4
             (String d5 (String d6 "")))))))
        = Some (Object (Some (hexByte d1 d2)) (Some (hexByte d3 d4))
                       (Some (hexByte d5 d6)) (Some 1%float)))
  /\ (forall d1 d2 d3 d4 d5 d6 d7 d8,
        isHexDigit d1 = true -> isHexDigit d2 = true -> isHexDigit d3 = true ->
        isHexDigit d4 = true -> isHexDigit d5 = true -> isHexDigit d6 = true ->
        isHexDigit d7 = true -> isHexDigit d8 = true ->
        stringInputToObject
          (String "#" (String d1 (String d2 (String d3 (String d4
             (String d5 (String d6 (String d7 (String d8 "")))))))))
        = Some (Object (Some (hexByte d1 d2)) (Some (hexByte d3 d4))
                       (Some (hexByte d5 d6)) (Some (alphaOfByte (hexByte d7 d8)))))
  /\ (forall n, (0 <= n < 256)%Z -> alphaOfByte (JS.float_of_Z n) = alphaSpec n)
  /\ webcolor (InString "#43C403") = Normal (Color 67 196 3 1 None None)%float
  /\ (exists c, webcolor (InString "#43C40399") = Normal c /\ a c = 0.6%float)
  /\ webcolor (InString "#F3A") = Normal (Color 255 51 170 1 None None)%float.
Proof.
  split.
  { intros ds H. rewrite (stringInputToObject_hash ds H).
    destruct (lower_hex ds H) as (Hl & _ & Hlen).
    pose proof (parseForms_null (String "#" (JS.toLowerCase ds))) as Hn.
    pose proof (rejectedShape_hash (JS.toLowerCase ds) Hl) as Hr.
    rewrite Hlen in Hr.
    split.
    - intros Hp.
      destruct (in_dec Nat.eq_dec (String.length ds) [3; 4; 6; 8]%nat) as [Hi | Hi];
        [exact Hi|].
      exfalso. apply Hp. apply Hn. apply Hr. exact Hi.
    - intros Hi Hp. apply Hn in Hp. apply Hr in Hp. contradiction. }
  split.
  { intros d1 d2 d3 H1 H2 H3.
    rewrite !stringInputToObject_hash
      by (cbn [allHex]; rewrite ?H1, ?H2, ?H3; reflexivity).
    apply shorthand_three. }
  split.
  { intros d1 d2 d3 d4 H1 H2 H3 H4.
    rewrite !stringInputToObject_hash
      by (cbn [allHex]; rewrite ?H1, ?H2, ?H3, ?H4; reflexivity).
    apply shorthand_four. }
  split.
  { intros d1 d2 d3 d4 d5 d6 H1 H2 H3 H4 H5 H6.
    rewrite stringInputToObject_hash
      by (cbn [allHex]; rewrite H1, H2, H3, H4, H5, H6; reflexivity).
    apply hexByte_six; assumption. }
  split.
  { intros d1 d2 d3 d4 d5 d6 d7 d8 H1 H2 H3 H4 H5 H6 H7 H8.
    rewrite stringInputToObject_hash
      by (cbn [allHex]; rewrite H1, H2, H3, H4, H5, H6, H7, H8; reflexivity).
    apply hexByte_eight; assumption. }
  split; [exact alphaOfByte_spec|].
  split; [vm_compute; reflexivity|].
  split; [eexists; split; vm_compute; reflexivity|].
  vm_compute. reflexivity.
Qed.

(** The six digits of [#43C403]. *)
Lemma hex_forms_witness :
  stringInputToObject "#43C403"
  = Some (Object (Some (hexByte "4" "3")) (Some (hexByte "C" "4"))
                 (Some (hexByte "0" "3")) (Some 1%float)).
Proof.
  apply (proj1 (proj2 (proj2 (proj2 hex_forms)))); reflexivity.
Defined.

End HexForms.

(** *** Exact arithmetic *)

Ltac real_lits :=
  repeat match goal with
  | |- context [@lit R real_arith ?q] => change (@lit R real_arith q) with (Q2R q)
  | H : context [@lit R real_arith ?q] |- _ => change (@lit R real_arith q) with (Q2R q) in H
  end;
  cbv [Q2R Qnum Qden] in *.

Ltac real_ops :=
  cbn [jadd jsub jmul jdiv jlt jle jeq jpow Math_max Math_min real_arith real_power] in *.

Section RealArithmetic.

Local Open Scope R_scope.

Lemma real_jlt (x y : R) : jlt x y = true <-> x < y.
Proof. simpl. destruct (Rlt_dec x y); split; intros H; try assumption; try reflexivity; try discriminate; try contradiction. Qed.

Lemma real_jle (x y : R) : jle x y = true <-> x <= y.
Proof. simpl. destruct (Rle_dec x y); split; intros H; try assumption; try reflexivity; try discriminate; try contradiction. Qed.

Lemma real_jeq (x y : R) : jeq x y = true <-> x = y.
Proof. simpl. destruct (Req_dec_T x y); split; intros H; try assumption; try reflexivity; try discriminate; try contradiction. Qed.

Lemma real_jlt_false (x y : R) : jlt x y = false <-> ~ x < y.
Proof. simpl. destruct (Rlt_dec x y); split; intros H; try assumption; try reflexivity; try discriminate; try contradiction. Qed.

Lemma real_jle_false (x y : R) : jle x y = false <-> ~ x <= y.
Proof. simpl. destruct (Rle_dec x y); split; intros H; try assumption; try reflexivity; try discriminate; try contradiction. Qed.

Lemma real_jeq_false (x y : R) : jeq x y = false <-> x <> y.
Proof. simpl. destruct (Req_dec_T x y); split; intros H; try assumption; try reflexivity; try discriminate; try contradiction. Qed.

Lemma Rjs_pow_2 x : Rjs_pow x (lit 2) = x * x.
Proof.
  unfold Rjs_pow. real_lits.
  destruct (Req_dec_T (2 * / 1) 0) as [E|_]; [lra|].
  destruct (Rlt_dec 0 x) as [Hx|Hx].
  - replace (2 * / 1) with (INR 2) by (simpl; lra). rewrite Rpower_pow by assumption. simpl. lra.
  - destruct (Req_dec_T x 0) as [->|Hn]; [lra|].
    destruct (Req_dec_T (2 * / 1) 2) as [_|E]; [reflexivity | lra].
Qed.

Lemma Rjs_pow_half x : 0 <= x -> Rjs_pow x (lit 0.5) = sqrt x.
Proof.
  intros H0. unfold Rjs_pow. real_lits.
  destruct (Req_dec_T (5 * / 10) 0) as [E|_]; [lra|].
  destruct (Rlt_dec 0 x) as [Hx|Hx].
  - replace (5 * / 10) with (/ 2) by lra. apply Rpower_sqrt. assumption.
  - destruct (Req_dec_T x 0) as [->|Hn]; [symmetry; apply sqrt_0 | lra].
Qed.

(** Between the cube and the square on (0,1]. *)
Lemma Rpower_24_bounds x : 0 < x <= 1 -> x * x * x <= Rpower x (24 * / 10) <= x * x.
Proof.
  intros [H0 H1].
  assert (Hl : ln x <= 0). { rewrite <- ln_1. destruct H1 as [H1| ->]; [left; apply ln_increasing; assumption | right; reflexivity]. }
  assert (E3 : Rpower x 3 = x * x * x).
  { replace 3 with (INR 3) by (simpl; lra). rewrite Rpower_pow by assumption. simpl. lra. }
  assert (E2 : Rpower x 2 = x * x).
  { replace 2 with (INR 2) by (simpl; lra). rewrite Rpower_pow by assumption. simpl. lra. }
  rewrite <- E3, <- E2. unfold Rpower.
  split.
  - destruct (Rle_lt_or_eq_dec _ _ Hl) as [Hlt | Heq].
    + left. apply exp_increasing. nra.
    + rewrite Heq. right. f_equal. lra.
  - destruct (Rle_lt_or_eq_dec _ _ Hl) as [Hlt | Heq].
    + left. apply exp_increasing. nra.
    + rewrite Heq. right. f_equal. lra.
Qed.

Lemma Rjs_pow_24 x : 0 < x -> Rjs_pow x (lit 2.4) = Rpower x (24 * / 10).
Proof.
  intros H. unfold Rjs_pow. real_lits.
  destruct (Req_dec_T (24 * / 10) 0) as [E|_]; [lra|].
  destruct (Rlt_dec 0 x) as [_|Hx]; [reflexivity | contradiction].
Qed.

(** One channel of the luminance, on the reals. *)
Lemma linearChannel_real (c : R) :
  linearChannel c = if Rle_dec (c / 255) (3928 / 100000) then c / 255 / (1292 / 100)
             else Rpower ((c / 255 + 55 / 1000) / (1055 / 1000)) (24 * / 10).
Proof.
  unfold linearChannel. cbn [jle jdiv jadd real_arith].
  real_lits.
  replace (255 * / 1) with 255 by lra.
  destruct (Rle_dec (c / 255) (3928 * / 100000)) as [H|H];
    destruct (Rle_dec (c / 255) (3928 / 100000)) as [H'|H']; try (exfalso; lra).
  - unfold Rdiv. reflexivity.
  - change (jpow ((c / 255 + 55 * / 1000) / (1055 * / 1000)) (24 * / 10))
      with (Rjs_pow ((c / 255 + 55 * / 1000) / (1055 * / 1000)) (lit 2.4)).
    rewrite Rjs_pow_24; [reflexivity|].
    apply Rdiv_lt_0_compat; lra.
Qed.

Lemma linearChannel_nonneg (c : R) : 0 <= c -> 0 <= linearChannel c.
Proof.
  intros H. rewrite linearChannel_real.
  destruct (Rle_dec (c / 255) (3928 / 100000)).
  - apply Rmult_le_pos; [lra | ]. left. apply Rinv_0_lt_compat. lra.
  - left. apply exp_pos.
Qed.

Lemma linearChannel_range (c : R) : 0 <= c <= 255 -> 0 <= linearChannel c <= 1.
Proof.
  intros [H0 H1]. split; [apply linearChannel_nonneg; assumption|].
  rewrite linearChannel_real.
  destruct (Rle_dec (c / 255) (3928 / 100000)) as [H|H].
  - lra.
  - assert (Hb : 0 < (c / 255 + 55 / 1000) / (1055 / 1000) <= 1).
    { split; [apply Rdiv_lt_0_compat; lra|].
      apply (Rmult_le_reg_r (1055 / 1000)); [lra|].
      unfold Rdiv at 1. rewrite Rmult_assoc, Rinv_l by lra. lra. }
    pose proof (Rpower_24_bounds _ Hb) as [_ Hu]. nra.
Qed.

Lemma luminance_real (c : color R) :
  luminance c = 2126 / 10000 * linearChannel (r c) + 7152 / 10000 * linearChannel (g c)
                + 722 / 10000 * linearChannel (b c).
Proof. unfold luminance. real_ops. real_lits. lra. Qed.

Lemma luminance_nonneg (c : color R) :
  0 <= r c -> 0 <= g c -> 0 <= b c -> 0 <= luminance c.
Proof.
  intros Hr Hg Hb. rewrite luminance_real.
  pose proof (linearChannel_nonneg _ Hr). pose proof (linearChannel_nonneg _ Hg).
  pose proof (linearChannel_nonneg _ Hb). lra.
Qed.

Lemma luminance_range (c : color R) :
  0 <= r c <= 255 -> 0 <= g c <= 255 -> 0 <= b c <= 255 -> 0 <= luminance c <= 1.
Proof.
  intros Hr Hg Hb. rewrite luminance_real.
  pose proof (linearChannel_range _ Hr). pose proof (linearChannel_range _ Hg).
  pose proof (linearChannel_range _ Hb). lra.
Qed.

Lemma contrastRatio_real (c0 c1 : color R) :
  contrastRatio c0 c1 =
  (Rmax (fst (getLuminance c0)) (fst (getLuminance c1)) + 5 / 100)
  / (Rmin (fst (getLuminance c0)) (fst (getLuminance c1)) + 5 / 100).
Proof. unfold contrastRatio. real_ops. real_lits. reflexivity. Qed.

Lemma r_rgba {num : Type} {AR : Arith num} (x y z w : num) : r (rgba x y z w) = x.
Proof. reflexivity. Qed.
Lemma g_rgba {num : Type} {AR : Arith num} (x y z w : num) : g (rgba x y z w) = y.
Proof. reflexivity. Qed.
Lemma b_rgba {num : Type} {AR : Arith num} (x y z w : num) : b (rgba x y z w) = z.
Proof. reflexivity. Qed.
Lemma a_rgba {num : Type} {AR : Arith num} (x y z w : num) : a (rgba x y z w) = w.
Proof. reflexivity. Qed.

Lemma channelOK_real (x : R) : channelOK x = true <-> 0 <= x <= 255.
Proof.
  unfold channelOK. rewrite andb_true_iff, !real_jle. real_lits. lra.
Qed.

Lemma inGamut_real (c : color R) :
  inGamut c = true <->
  0 <= r c <= 255 /\ 0 <= g c <= 255 /\ 0 <= b c <= 255 /\ 0 <= a c <= 1.
Proof.
  unfold inGamut. rewrite !andb_true_iff, !channelOK_real, !real_jle. real_lits.
  intuition lra.
Qed.

Lemma blend_linear_range (p x y : R) :
  0 <= p <= 1 -> 0 <= x <= 255 -> 0 <= y <= 255 ->
  0 <= (1 - p) * x + p * y <= 255.
Proof.
  intros Hp Hx Hy.
  assert (H1 : 0 <= (1 - p) * x) by (apply Rmult_le_pos; lra).
  assert (H2 : 0 <= p * y) by (apply Rmult_le_pos; lra).
  assert (H3 : 0 <= (1 - p) * (255 - x)) by (apply Rmult_le_pos; lra).
  assert (H4 : 0 <= p * (255 - y)) by (apply Rmult_le_pos; lra).
  lra.
Qed.

Lemma blend_sqrt_range (p x y : R) :
  0 <= p <= 1 -> 0 <= x <= 255 -> 0 <= y <= 255 ->
  0 <= sqrt ((1 - p) * (x * x) + p * (y * y)) <= 255.
Proof.
  intros Hp Hx Hy. split; [apply sqrt_pos|].
  apply Rle_trans with (sqrt (255 * 255)).
  - apply sqrt_le_1_alt.
    assert (Hxx : x * x <= 255 * 255) by nra.
    assert (Hyy : y * y <= 255 * 255) by nra.
    assert (H1 : 0 <= (1 - p) * (255 * 255 - x * x)) by (apply Rmult_le_pos; lra).
    assert (H2 : 0 <= p * (255 * 255 - y * y)) by (apply Rmult_le_pos; lra).
    lra.
  - rewrite sqrt_square; lra.
Qed.

Lemma blendChannel_real (l : bool) (q x y : R) :
  0 <= q <= 1 -> 0 <= x <= 255 -> 0 <= y <= 255 ->
  0 <= blendChannel l (jsub (lit 1) q) q x y <= 255.
Proof.
  intros Hq Hx Hy. unfold blendChannel. destruct l.
  - real_ops. replace (lit 1) with 1 by (real_lits; lra).
    apply blend_linear_range; assumption.
  - cbn [jpow real_power]. rewrite !Rjs_pow_2. real_ops.
    replace (lit 1) with 1 by (real_lits; lra).
    rewrite Rjs_pow_half.
    + apply blend_sqrt_range; assumption.
    + assert (H1 : 0 <= (1 - q) * (x * x)) by (apply Rmult_le_pos; nra).
      assert (H2 : 0 <= q * (y * y)) by (apply Rmult_le_pos; nra).
      lra.
Qed.



Lemma linearChannel_low (c : R) : c / 255 <= 3928 / 100000 -> linearChannel c = c / 255 / (1292 / 100).
Proof.
  intros H. rewrite linearChannel_real.
  destruct (Rle_dec (c / 255) (3928 / 100000)); [reflexivity | contradiction].
Qed.

Lemma linearChannel_high (c : R) :
  3928 / 100000 < c / 255 ->
  linearChannel c = Rpower ((c / 255 + 55 / 1000) / (1055 / 1000)) (24 * / 10).
Proof.
  intros H. rewrite linearChannel_real.
  destruct (Rle_dec (c / 255) (3928 / 100000)); [lra | reflexivity].
Qed.

(** [contrastRatio] in exact (real) arithmetic: it is
    [(max(L0,L1) + 0.05) / (min(L0,L1) + 0.05)] over the two relative
    luminances and does not read alpha; it is symmetric; and
    [contrastRatio(a, a)] is 1 whenever the luminance of [a] is not -0.05,
    in particular for every colour with non-negative channels. *)
Lemma contrastRatio_real_spec (c0 c1 : color R) :
  let l0 := fst (getLuminance c0) in
  let l1 := fst (getLuminance c1) in
  contrastRatio c0 c1 = (Rmax l0 l1 + 5 / 100) / (Rmin l0 l1 + 5 / 100)
  /\ (forall x y, contrastRatio (setAlpha c0 x) (setAlpha c1 y) = contrastRatio c0 c1)
  /\ contrastRatio c0 c1 = contrastRatio c1 c0
  /\ (l0 <> - (5 / 100) -> contrastRatio c0 c0 = 1)
  /\ (rl_ok c0 -> 0 <= r c0 -> 0 <= g c0 -> 0 <= b c0 -> contrastRatio c0 c0 = 1).
Proof.
  intros l0 l1.
  assert (Hself : l0 <> - (5 / 100) -> contrastRatio c0 c0 = 1).
  { intros H. rewrite contrastRatio_real. fold l0.
    unfold Rmax, Rmin. destruct (Rle_dec l0 l0); apply Rdiv_diag; lra. }
  split; [apply contrastRatio_real|].
  split.
  { intros x y. unfold contrastRatio, getLuminance, setAlpha. simpl.
    destruct (rl c0), (rl c1); reflexivity. }
  split.
  { rewrite !contrastRatio_real. rewrite Rmax_comm, Rmin_comm. reflexivity. }
  split; [exact Hself|].
  intros Hm Hr Hg Hb. apply Hself.
  assert (E : l0 = luminance c0).
  { subst l0. unfold getLuminance. destruct Hm as [-> | ->]; reflexivity. }
  rewrite E. pose proof (luminance_nonneg c0 Hr Hg Hb). lra.
Qed.

(** C7 as stated fails for [rgb(-682,-28,4)], which the parser accepts: its
    luminance is exactly -0.05, in real arithmetic and in binary64, so the
    ratio against itself is 0/0, not 1 ([NaN] in binary64). *)
Lemma contrastRatio_self_counterexample :
  (let c : color R := rgba (-682) (-28) 4 1 in
   luminance c = - (5 / 100) /\ contrastRatio c c <> 1)
  /\ (let c : color float := (rgba (-682) (-28) 4 1)%float in
      webcolor (InString "rgb(-682,-28,4)"%string) = Normal c
      /\ forall pw, luminance (PW := float_power pw) c = (-0.05)%float
                    /\ PrimFloat.eqb (contrastRatio (PW := float_power pw) c c) 1 = false).
Proof.
  split.
  - cbv zeta. 
    assert (E : luminance (rgba (-682) (-28) 4 1 : color R) = - (5 / 100)).
    { rewrite luminance_real, r_rgba, g_rgba, b_rgba.
      rewrite !linearChannel_low by lra. lra. }
    split; [exact E|].
    rewrite contrastRatio_real.
    replace (fst (getLuminance (rgba (-682) (-28) 4 1 : color R))) with (- (5 / 100)) by (rewrite <- E; reflexivity).
    unfold Rmax, Rmin. destruct (Rle_dec (- (5 / 100)) (- (5 / 100))).
    + replace (- (5 / 100) + 5 / 100) with 0 by lra. unfold Rdiv. rewrite Rmult_0_l. lra.
    + replace (- (5 / 100) + 5 / 100) with 0 by lra. unfold Rdiv. rewrite Rmult_0_l. lra.
  - cbv zeta. split; [vm_compute; reflexivity|].
    intros pw. split; vm_compute; reflexivity.
Qed.

(** X2.  In binary64 too [contrastRatio] does not depend on the order of the
    two colours, whatever their channels and whatever the implementation's
    [Math.pow]: the two results are the same Number, so they are [===]
    unless they are [NaN]. *)
Theorem contrastRatio_float_symmetric (pw : float -> float -> float)
    (c0 c1 : color float) :
  contrastRatio (PW := float_power pw) c0 c1 = contrastRatio (PW := float_power pw) c1 c0
  /\ jeq (contrastRatio (PW := float_power pw) c0 c1)
         (contrastRatio (PW := float_power pw) c1 c0)
     = negb (is_nan (contrastRatio (PW := float_power pw) c0 c1)).
Proof.
  assert (E : contrastRatio (PW := float_power pw) c0 c1
              = contrastRatio (PW := float_power pw) c1 c0).
  { unfold contrastRatio. cbn [Math_max Math_min float_arith].
    rewrite (Math_max_comm (fst (getLuminance c0))).
    rewrite (Math_min_comm (fst (getLuminance c0))). reflexivity. }
  split; [exact E|].
  rewrite <- E. unfold is_nan. rewrite negb_involutive. reflexivity.
Qed.

#[global] Instance float_order : ArithOrder float_arith.
Proof.
  split; simpl.
  - apply float_ltb_eqb.
  - apply float_ltb_asym.
  - apply float_eqb_sym.
Qed.

#[global] Instance real_order : ArithOrder real_arith.
Proof.
  split; intros x y; simpl.
  - destruct (Rlt_dec x y), (Req_dec_T x y); intros; try reflexivity; try discriminate; lra.
  - destruct (Rlt_dec x y), (Rlt_dec y x); intros; try reflexivity; try discriminate; lra.
  - destruct (Req_dec_T x y), (Req_dec_T y x); try reflexivity; congruence.
Qed.

(** C2, as amended.  In a round of the loop, with [tl] the candidate's
    luminance and [l] the receiver's: when [tl === l] the step lightens iff
    the receiver [isDark()]; when [tl < l] it darkens iff the receiver's
    contrast ratio against [#000000] exceeds [cmin], and lightens otherwise;
    when [tl > l] it lightens iff the receiver's contrast ratio against
    [#ffffff] exceeds [cmin], and darkens otherwise.  For every number
    system with the usual order, binary64 and the reals included. *)
Theorem shadeDirection_policy (num : Type) (AR : Arith num) (PW : Power num)
    (AO : ArithOrder AR) (this targetcolor : color num) (cmin : num) :
  let tl := fst (getLuminance targetcolor) in
  let l := fst (getLuminance this) in
  (jeq tl l = true ->
   shadeDirection this targetcolor cmin = if isDark this then lit 1 else lit (-1))
  /\ (jlt tl l = true ->
      shadeDirection this targetcolor cmin =
      if jlt cmin (contrastRatio this hex000000) then lit (-1) else lit 1)
  /\ (jlt l tl = true ->
      shadeDirection this targetcolor cmin =
      if jlt cmin (contrastRatio this hexffffff) then lit 1 else lit (-1)).
Proof.
  intros tl l. unfold shadeDirection. fold tl. fold l.
  split; [|split].
  - intros ->. reflexivity.
  - intros H. rewrite (jlt_jeq _ _ H), H. reflexivity.
  - intros H. pose proof (jlt_jeq _ _ H) as E. rewrite jeq_sym in E.
    rewrite E, (jlt_asym _ _ H). reflexivity.
Qed.

Lemma shadeDirection_cases {num : Type} {AR : Arith num} {PW : Power num}
    (this targetcolor : color num) (cmin : num) :
  shadeDirection this targetcolor cmin = lit 1
  \/ shadeDirection this targetcolor cmin = lit (-1).
Proof.
  unfold shadeDirection.
  destruct (jeq _ _); [destruct (isDark this); auto|].
  destruct (jlt (fst (getLuminance targetcolor)) _).
  - destruct (jlt cmin _); auto.
  - destruct (jlt cmin _); auto.
Qed.

Lemma Rdiv_lt_bound (x y c : R) : 0 < y -> x < c * y -> x / y < c.
Proof.
  intros Hy H. apply (Rmult_lt_reg_r y); [assumption|].
  unfold Rdiv. rewrite Rmult_assoc, Rinv_l by lra. lra.
Qed.

Lemma Rdiv_gt_bound (x y c : R) : 0 < y -> c * y < x -> c < x / y.
Proof.
  intros Hy H. apply (Rmult_lt_reg_r y); [assumption|].
  unfold Rdiv. rewrite Rmult_assoc, Rinv_l by lra. lra.
Qed.

Lemma Rpower_one (y : R) : Rpower 1 y = 1.
Proof. unfold Rpower. rewrite ln_1, Rmult_0_r. apply exp_0. Qed.

(** Above the threshold the linearised channel is strictly increasing. *)
Lemma linearChannel_monotone (x y : R) :
  3928 / 100000 < x / 255 -> x < y -> linearChannel x < linearChannel y.
Proof.
  intros Hx Hxy. rewrite !linearChannel_high by lra.
  apply Rlt_Rpower_l; [lra|]. split.
  - apply Rdiv_lt_0_compat; lra.
  - apply Rmult_lt_compat_r; [apply Rinv_0_lt_compat; lra | lra].
Qed.

(** C2 as stated fails: for the receiver [#cccccc], the candidate [#aaaaaa]
    and [cmin = 4.5], the candidate is darker, the receiver's contrast
    against black exceeds [cmin], and the step darkens ([sd = -1]) where the
    claim has it switch to lightening. *)
Lemma shadeDirection_counterexample :
  let this : color R := rgba 204 204 204 1 in
  let targetcolor : color R := rgba 170 170 170 1 in
  let cmin : R := 45 / 10 in
  fst (getLuminance targetcolor) < fst (getLuminance this)
  /\ contrastRatio this hex000000 > cmin
  /\ shadeDirection this targetcolor cmin = lit (-1)
  /\ shadeDirection this targetcolor cmin <> lit 1.
Proof.
  intros this targetcolor cmin.
  assert (Hlt : fst (getLuminance targetcolor) < fst (getLuminance this)).
  { change (luminance targetcolor < luminance this).
    rewrite !luminance_real. subst this targetcolor.
    rewrite !r_rgba, !g_rgba, !b_rgba.
    pose proof (linearChannel_monotone 170 204 ltac:(lra) ltac:(lra)). lra. }
  assert (Hl : 532 / 1000 <= fst (getLuminance this)).
  { change (532 / 1000 <= luminance this).
    rewrite luminance_real. subst this. rewrite !r_rgba, !g_rgba, !b_rgba.
    rewrite linearChannel_high by lra.
    set (x := (204 / 255 + 55 / 1000) / (1055 / 1000)).
    assert (Hx : 8104 / 10000 <= x <= 1) by (subst x; lra).
    pose proof (Rpower_24_bounds x ltac:(lra)) as [Hc _].
    assert (532 / 1000 <= x * x * x) by nra. lra. }
  assert (Hb : fst (getLuminance (hex000000 : color R)) = 0).
  { change (luminance (hex000000 : color R) = 0). rewrite luminance_real.
    unfold hex000000. rewrite !r_rgba, !g_rgba, !b_rgba.
    replace (lit 0) with 0 by (real_lits; lra).
    rewrite linearChannel_low by lra. lra. }
  assert (Hc : contrastRatio this hex000000 > cmin).
  { rewrite contrastRatio_real, Hb. rewrite Rmax_left, Rmin_right by lra.
    subst cmin. apply Rlt_gt. apply Rdiv_gt_bound; lra. }
  assert (Hs : shadeDirection this targetcolor cmin = lit (-1)).
  { assert (E1 : jeq (fst (getLuminance targetcolor)) (fst (getLuminance this)) = false)
      by (apply real_jeq_false; lra).
    assert (E2 : jlt (fst (getLuminance targetcolor)) (fst (getLuminance this)) = true)
      by (apply real_jlt; exact Hlt).
    assert (E3 : jlt cmin (contrastRatio this hex000000) = true)
      by (apply real_jlt; apply Rgt_lt; exact Hc).
    unfold shadeDirection. rewrite E1, E2, E3. reflexivity. }
  repeat split; try assumption.
  rewrite Hs. real_lits. lra.
Qed.

Lemma blendChannel_interior (q x y : R) :
  0 < q < 1 -> 0 < x < 255 -> 0 <= y <= 255 ->
  0 < blendChannel false (jsub (lit 1) q) q x y < 255.
Proof.
  intros Hq Hx Hy. unfold blendChannel.
  cbn [jpow real_power]. rewrite !Rjs_pow_2. real_ops.
  replace (lit 1) with 1 by (real_lits; lra).
  assert (H1 : 0 < (1 - q) * (x * x)) by (apply Rmult_lt_0_compat; nra).
  assert (H2 : 0 <= q * (y * y)) by (apply Rmult_le_pos; nra).
  assert (H3 : 0 < (1 - q) * (255 * 255 - x * x)) by (apply Rmult_lt_0_compat; nra).
  assert (H4 : 0 <= q * (255 * 255 - y * y)) by (apply Rmult_le_pos; nra).
  rewrite Rjs_pow_half by lra.
  split.
  - apply sqrt_lt_R0. lra.
  - apply Rlt_le_trans with (sqrt (255 * 255)).
    + apply sqrt_lt_1_alt. lra.
    + rewrite sqrt_square; lra.
Qed.

(** One round of the loop keeps the candidate strictly inside the gamut,
    whichever way it shades. *)
Lemma shade_step_interior (t : color R) (sd : R) :
  sd = lit 1 \/ sd = lit (-1) ->
  interior t ->
  exists t', shadeBlend t (jmul (lit 0.2) sd) None false = Some t'
             /\ interior t' /\ rl t' = None.
Proof.
  intros Hsd (Hr & Hg & Hb).
  destruct Hsd as [-> | ->].
  - exists (rgba (blendChannel false (jsub (lit 1) (2 / 10)) (2 / 10) (r t) 255)
                 (blendChannel false (jsub (lit 1) (2 / 10)) (2 / 10) (g t) 255)
                 (blendChannel false (jsub (lit 1) (2 / 10)) (2 / 10) (b t) 255)
                 (blendAlpha (jsub (lit 1) (2 / 10)) (2 / 10) (a t) 1)).
    split; [|split; [|reflexivity]].
    + unfold shadeBlend. real_ops. real_lits.
      destruct (Rlt_dec (2 * / 10 * (1 * / 1)) (-1 * / 1)) as [H|_]; [lra|].
      destruct (Rlt_dec (1 * / 1) (2 * / 10 * (1 * / 1))) as [H|_]; [lra|].
      destruct (Rlt_dec (2 * / 10 * (1 * / 1)) (0 * / 1)) as [H|_]; [lra|].
      cbn [orb]. unfold rgba, fromObject. cbn [o_r o_g o_b o_a r g b a].
      f_equal. f_equal; try (f_equal; lra); f_equal; lra.
    + unfold interior. rewrite r_rgba, g_rgba, b_rgba.
      repeat split; apply blendChannel_interior; lra.
  - exists (rgba (blendChannel false (jsub (lit 1) (2 / 10)) (2 / 10) (r t) 0)
                 (blendChannel false (jsub (lit 1) (2 / 10)) (2 / 10) (g t) 0)
                 (blendChannel false (jsub (lit 1) (2 / 10)) (2 / 10) (b t) 0)
                 (blendAlpha (jsub (lit 1) (2 / 10)) (2 / 10) (a t) 1)).
    split; [|split; [|reflexivity]].
    + unfold shadeBlend. real_ops. real_lits.
      destruct (Rlt_dec (2 * / 10 * (-1 * / 1)) (-1 * / 1)) as [H|_]; [lra|].
      destruct (Rlt_dec (1 * / 1) (2 * / 10 * (-1 * / 1))) as [H|_]; [lra|].
      destruct (Rlt_dec (2 * / 10 * (-1 * / 1)) (0 * / 1)) as [_|H]; [|lra].
      cbn [orb]. unfold rgba, fromObject. cbn [o_r o_g o_b o_a r g b a].
      f_equal. f_equal; try (f_equal; lra); f_equal; lra.
    + unfold interior. rewrite r_rgba, g_rgba, b_rgba.
      repeat split; apply blendChannel_interior; lra.
Qed.

Lemma interior_not_terminal (t : color R) :
  interior t -> isBlack t || isWhite t = false.
Proof.
  intros (Hr & _). apply orb_false_iff. unfold isBlack, isWhite. split.
  - apply andb_false_iff. left. apply andb_false_iff. left.
    apply real_jeq_false. real_lits. lra.
  - apply andb_false_iff. left. apply andb_false_iff. left.
    apply real_jeq_false. real_lits. lra.
Qed.

(** When no colour strictly inside the gamut reaches the contrast [cmin]
    against the receiver, the loop started inside never ends. *)
Lemma contrastingLoop_runs_on (this : color R) (cmin : R) :
  (forall t, interior t -> rl t = None -> contrastRatio this t < cmin) ->
  forall fuel t, interior t -> rl t = None ->
    contrastingLoop fuel this t cmin false = None.
Proof.
  intros Hlow fuel. induction fuel as [|fuel IH]; intros t Hin Hrl.
  - cbn [contrastingLoop]. pose proof (Hlow t Hin Hrl) as H. apply real_jlt in H.
    rewrite H. reflexivity.
  - cbn [contrastingLoop]. pose proof (Hlow t Hin Hrl) as H. apply real_jlt in H.
    rewrite H. cbn [andb negb].
    destruct (shade_step_interior t (shadeDirection this t cmin)
                (shadeDirection_cases this t cmin) Hin) as (t' & E & Hin' & Hrl').
    rewrite E. rewrite (interior_not_terminal t' Hin'). apply IH; assumption.
Qed.

Lemma grey808080_luminance :
  147 / 1000 <= luminance grey808080 <= 279 / 1000.
Proof.
  rewrite luminance_real. unfold grey808080. rewrite r_rgba, g_rgba, b_rgba.
  rewrite linearChannel_high by lra.
  set (x := (128 / 255 + 55 / 1000) / (1055 / 1000)).
  assert (Hx : 5279 / 10000 <= x <= 528 / 1000) by (subst x; lra).
  pose proof (Rpower_24_bounds x ltac:(lra)) as [Hl Hu].
  assert (147 / 1000 <= x * x * x) by nra.
  assert (x * x <= 279 / 1000) by nra.
  lra.
Qed.

Lemma grey808080_contrast_below_7 (t : color R) :
  interior t -> rl t = None -> contrastRatio grey808080 t < 7.
Proof.
  intros (Hr & Hg & Hb) Hrl.
  rewrite contrastRatio_real.
  change (fst (getLuminance grey808080)) with (luminance grey808080).
  replace (fst (getLuminance t)) with (luminance t)
    by (unfold getLuminance; rewrite Hrl; reflexivity).
  pose proof grey808080_luminance as [Hl Hu].
  pose proof (luminance_range t ltac:(lra) ltac:(lra) ltac:(lra)) as [Ht0 Ht1].
  unfold Rmax, Rmin.
  destruct (Rle_dec (luminance grey808080) (luminance t));
    apply Rdiv_lt_bound; lra.
Qed.

(** What the loop's exit test gives: a colour it returns is not below
    [cmin] in contrast against the receiver, or is all-255 or all-0. *)
Lemma contrastingLoop_exit {num : Type} {AR : Arith num} {PW : Power num}
    (fuel : nat) (this t : color num) (cmin : num) (m : bool) (c : color num) :
  (m = true -> isBlack t || isWhite t = true) ->
  contrastingLoop fuel this t cmin m = Some (Normal c) ->
  jlt (contrastRatio this c) cmin = false \/ isBlack c || isWhite c = true.
Proof.
  revert t m. induction fuel as [|fuel IH]; intros t m Hm; cbn [contrastingLoop];
    destruct (jlt (contrastRatio this t) cmin && negb m) eqn:E.
  - discriminate.
  - intros H. injection H as <-. apply andb_false_iff in E as [E | E].
    + left. exact E.
    + right. apply Hm. destruct m; [reflexivity | discriminate E].
  - destruct (shadeBlend t (jmul (lit 0.2) (shadeDirection this t cmin)) None false)
      as [t'|]; [|discriminate].
    apply IH. intros H. exact H.
  - intros H. injection H as <-. apply andb_false_iff in E as [E | E].
    + left. exact E.
    + right. apply Hm. destruct m; [reflexivity | discriminate E].
Qed.

(** X3.  Partial correctness of [contrastingColor] with a target, in any number
    system: when the call returns a colour, the contrast ratio of the
    receiver against it is not below [cmin], or the colour passes
    [isBlack()] or [isWhite()]. *)
Theorem contrastingColor_returns (num : Type) (AR : Arith num) (PW : Power num)
    (fuel : nat) (this t : color num) (cmin : num) :
  match contrastingColor fuel this (Some t) cmin with
  | Some (Normal c) =>
      jlt (contrastRatio this c) cmin = false \/ isBlack c || isWhite c = true
  | _ => True
  end.
Proof.
  unfold contrastingColor.
  destruct (contrastingLoop fuel this t cmin false) as [[c|]|] eqn:E; try exact I.
  apply (contrastingLoop_exit fuel this t cmin false c); [discriminate | exact E].
Qed.

(** C3 fails on the code: [webcolor('#808080').contrastingColor('#808080', 7)]
    does not terminate.  Against mid grey no colour reaches the ratio 7
    (black gives 5.3, white 3.9), so the policy lightens a darker candidate
    and darkens a lighter one, and the candidate never is pure black or pure
    white: for every number of rounds the loop is still running. *)
Theorem contrastingColor_grey_diverges (fuel : nat) :
  contrastingColor fuel grey808080 (Some grey808080) 7 = None.
Proof.
  unfold contrastingColor.
  apply contrastingLoop_runs_on.
  - apply grey808080_contrast_below_7.
  - unfold interior, grey808080. rewrite r_rgba, g_rgba, b_rgba. lra.
  - reflexivity.
Qed.

End RealArithmetic.

(** *** Witnesses and binary64 counterexamples of the arithmetic claims *)

Section Witnesses.

Local Open Scope R_scope.

(** [#eeeeee] against itself: equal luminance, a light receiver, so the
    step darkens. *)
Lemma shadeDirection_policy_witness :
  shadeDirection (rgba 238 238 238 1 : color R) (rgba 238 238 238 1) (45 / 10) = lit (-1).
Proof.
  rewrite (proj1 (shadeDirection_policy R real_arith real_power real_order
                    (rgba 238 238 238 1) (rgba 238 238 238 1) (45 / 10))).
  - unfold isDark, getBrightness, brightness. cbn [cb rgba fromObject fst].
    rewrite r_rgba, g_rgba, b_rgba.
    rewrite (proj2 (real_jlt_false _ _)); [reflexivity|].
    real_ops. real_lits. lra.
  - apply real_jeq. reflexivity.
Defined.

(** Black on white: the contrast ratio is 21, so [contrastingColor] returns
    the target as it is. *)
Lemma contrastingColor_black_on_white :
  contrastRatio (hexffffff : color R) hex000000 = 21
  /\ contrastingColor 0 (hexffffff : color R) (Some hex000000) (45 / 10)
     = Some (Normal hex000000).
Proof.
  assert (Hw : luminance (hexffffff : color R) = 1).
  { rewrite luminance_real. unfold hexffffff. rewrite r_rgba, g_rgba, b_rgba.
    replace (lit 255) with 255 by (real_lits; lra).
    rewrite linearChannel_high by lra.
    replace ((255 / 255 + 55 / 1000) / (1055 / 1000)) with 1 by lra.
    rewrite Rpower_one. lra. }
  assert (Hb : luminance (hex000000 : color R) = 0).
  { rewrite luminance_real. unfold hex000000. rewrite r_rgba, g_rgba, b_rgba.
    replace (lit 0) with 0 by (real_lits; lra).
    rewrite linearChannel_low by lra. lra. }
  assert (Hc : contrastRatio (hexffffff : color R) hex000000 = 21).
  { rewrite contrastRatio_real.
    change (fst (getLuminance (hexffffff : color R))) with (luminance (hexffffff : color R)).
    change (fst (getLuminance (hex000000 : color R))) with (luminance (hex000000 : color R)).
    rewrite Hw, Hb, Rmax_left, Rmin_right by lra. lra. }
  split; [exact Hc|].
  unfold contrastingColor. cbn [contrastingLoop].
  rewrite (proj2 (real_jlt_false _ _)); [reflexivity|].
  rewrite Hc. lra.
Qed.

End Witnesses.


(** ** Further properties of the code *)

(** *** Integer arithmetic in binary64 *)

Section IntegerArithmetic.
Local Open Scope Z_scope.

Lemma iter_pos_nat {A : Type} (f : A -> A) (n : positive) (x : A) :
  SpecFloat.iter_pos f n x = Nat.iter (Pos.to_nat n) f x.
Proof.
  revert x. induction n as [n IH|n IH|]; intros x; cbn [SpecFloat.iter_pos].
  - rewrite !IH. rewrite Pos2Nat.inj_xI.
    replace (S (2 * Pos.to_nat n))%nat with (Pos.to_nat n + (Pos.to_nat n + 1))%nat by lia.
    rewrite !Nat.iter_add. reflexivity.
  - rewrite !IH. rewrite Pos2Nat.inj_xO.
    replace (2 * Pos.to_nat n)%nat with (Pos.to_nat n + Pos.to_nat n)%nat by lia.
    rewrite Nat.iter_add. reflexivity.
  - reflexivity.
Qed.

Lemma iter_xO_nat (m d : positive) : Pos.iter xO m d = Nat.iter (Pos.to_nat d) xO m.
Proof.
  induction d as [|d IH] using Pos.peano_ind.
  - reflexivity.
  - rewrite Pos.iter_succ, Pos2Nat.inj_succ, IH. reflexivity.
Qed.

Lemma shr_1_iter (k : nat) (m : positive) :
  Nat.iter k shr_1 (Build_shr_record (Zpos (Nat.iter k xO m)) false false)
  = Build_shr_record (Zpos m) false false.
Proof.
  induction k as [|k IH].
  - reflexivity.
  - rewrite Nat.iter_succ_r. cbn [Nat.iter shr_1 orb]. exact IH.
Qed.

(** A mantissa of 53 digits followed by [d] zero bits is brought back to
    the 53 digits, exactly. *)
Lemma binary_round_aux_shift (s : bool) (m d : positive) (e : Z) :
  Zpos (digits2_pos m) = 53 -> -1074 <= e <= 971 ->
  binary_round_aux prec emax s (Zpos (Pos.iter xO m d)) (e - Zpos d) loc_Exact
  = S754_finite s m e.
Proof.
  intros Hd He.
  pose proof (iter_xO_digits m d) as Hdig.
  assert (Hf : fexp prec emax (Zdigits2 (Zpos (Pos.iter xO m d)) + (e - Zpos d))
               - (e - Zpos d) = Zpos d).
  { unfold fexp, emin, prec, emax, Zdigits2. rewrite Hdig. lia. }
  assert (Hf' : fexp prec emax (Zdigits2 (Zpos m) + (e - Zpos d + Zpos d))
                - (e - Zpos d + Zpos d) = 0).
  { unfold fexp, emin, prec, emax, Zdigits2. lia. }
  unfold binary_round_aux, shr_fexp. rewrite Hf. cbn [shr shr_record_of_loc].
  rewrite iter_pos_nat, iter_xO_nat, shr_1_iter.
  cbn [shr_m loc_of_shr_record round_nearest_even]. rewrite Hf'. cbn [shr shr_m].
  replace (e - Zpos d + Zpos d) with e by lia.
  replace (e <=? emax - prec) with true; [reflexivity|].
  symmetry. apply Z.leb_le. unfold emax, prec. lia.
Qed.

Lemma pos_shift_iter (M m : positive) (k : Z) :
  0 < k -> Zpos M = Zpos m * 2 ^ k -> M = Pos.iter xO m (Z.to_pos k).
Proof.
  intros Hk H. destruct k as [|k|k]; try lia.
  apply Pos2Z.inj. rewrite iter_xO_value. exact H.
Qed.

(** Any way of writing an integer below 2^53 as a mantissa and a
    non-positive exponent rounds to the Number of the integer. *)
Lemma binary_round_int (s : bool) (M P : positive) (E : Z) :
  Zpos (digits2_pos P) <= 53 -> -1000 <= E <= 0 -> Zpos M = Zpos P * 2 ^ (- E) ->
  binary_round prec emax s M E = binary_round prec emax s P 0.
Proof.
  intros HP HE HM.
  destruct (binary_round_exact s P HP) as (m & e & E0 & He & Hm & Hd).
  rewrite E0.
  destruct (Z.compare_spec E e) as [Heq | Hlt | Hgt].
  - subst E. assert (M = m) by (apply Pos2Z.inj; lia). subst M.
    unfold binary_round, shl_align.
    assert (Hf : fexp prec emax (Zpos (digits2_pos m) + e) = e)
      by (unfold fexp, emin, prec, emax; lia).
    rewrite Hf, Z.sub_diag. apply binary_round_aux_canonical; lia.
  - assert (HMm : Zpos M = Zpos m * 2 ^ (e - E)).
    { rewrite HM, Hm, <- Z.mul_assoc, <- Z.pow_add_r by lia. f_equal. f_equal. lia. }
    apply pos_shift_iter in HMm; [|lia].
    unfold binary_round, shl_align.
    assert (Hf : fexp prec emax (Zpos (digits2_pos M) + E) = e).
    { rewrite HMm, iter_xO_digits. unfold fexp, emin, prec, emax.
      rewrite Pos2Z.inj_add, Z2Pos.id by lia. lia. }
    rewrite Hf.
    destruct (e - E) as [|d|d] eqn:Ed; try lia.
    rewrite HMm. cbn [Z.to_pos].
    replace E with (e - Zpos d) by lia.
    apply binary_round_aux_shift; lia.
  - assert (HmM : Zpos m = Zpos M * 2 ^ (E - e)).
    { rewrite HM, Hm, <- Z.mul_assoc, <- Z.pow_add_r by lia. f_equal. f_equal. lia. }
    apply pos_shift_iter in HmM; [|lia].
    unfold binary_round, shl_align.
    assert (Hf : fexp prec emax (Zpos (digits2_pos M) + E) = e).
    { pose proof (iter_xO_digits M (Z.to_pos (E - e))) as Hdig.
      rewrite <- HmM in Hdig. unfold fexp, emin, prec, emax.
      assert (Zpos (digits2_pos m) = Zpos (digits2_pos M) + (E - e)).
      { rewrite Hdig, Pos2Z.inj_add, Z2Pos.id by lia. reflexivity. }
      lia. }
    rewrite Hf.
    destruct (e - E) as [|d|d] eqn:Ed; try lia.
    assert (Z.to_pos (E - e) = d) by lia.
    rewrite <- H, <- HmM.
    apply binary_round_aux_canonical; lia.
Qed.


Lemma digits2_pos_gt (p : positive) : Zpos p < 2 ^ Zpos (digits2_pos p).
Proof.
  induction p as [p IH|p IH|]; cbn [digits2_pos];
    rewrite ?Pos2Z.inj_succ, ?Z.pow_succ_r by lia; lia.
Qed.

Lemma binary_round_long (s : bool) (M : positive) (E : Z) :
  53 <= Zpos (digits2_pos M) -> -1074 <= E ->
  binary_round_aux prec emax s (Zpos M) E loc_Exact = binary_round prec emax s M E.
Proof.
  intros Hd HE. unfold binary_round, shl_align.
  destruct (fexp prec emax (Zpos (digits2_pos M) + E) - E) as [|d|d] eqn:Ed;
    try reflexivity.
  unfold fexp, emin, prec, emax in Ed. lia.
Qed.

Lemma SF_of_Z_valid (n : Z) : - 2 ^ 53 < n < 2 ^ 53 -> valid_binary (SF_of_Z n) = true.
Proof.
  intros Hn. destruct n as [|p|p]; [reflexivity| |]; unfold SF_of_Z; cbn [binary_normalize].
  - destruct (binary_round_exact false p) as (m & e & E & He & Hm & Hd).
    { apply digits2_pos_bound; lia. }
    rewrite E. apply valid_canonical; assumption.
  - destruct (binary_round_exact true p) as (m & e & E & He & Hm & Hd).
    { apply digits2_pos_bound; lia. }
    rewrite E. apply valid_canonical; assumption.
Qed.

Lemma Prim2SF_float_of_Z (n : Z) :
  - 2 ^ 53 < n < 2 ^ 53 -> Prim2SF (JS.float_of_Z n) = SF_of_Z n.
Proof. intros Hn. apply Prim2SF_SF2Prim. apply SF_of_Z_valid. exact Hn. Qed.

(** The shape of the Number of a non-zero integer. *)
Lemma SF_of_Z_finite (n : Z) :
  - 2 ^ 53 < n < 2 ^ 53 -> n <> 0 ->
  exists m e, SF_of_Z n = S754_finite (n <? 0) m e
              /\ -52 <= e <= 0 /\ Zpos m = Z.abs n * 2 ^ (- e)
              /\ Zpos (digits2_pos m) = 53.
Proof.
  intros Hn H0. destruct n as [|p|p]; [contradiction| |]; unfold SF_of_Z; cbn [binary_normalize].
  - apply binary_round_exact. apply digits2_pos_bound; lia.
  - apply binary_round_exact. apply digits2_pos_bound; lia.
Qed.

Lemma binary_normalize_int (v E n : Z) :
  - 2 ^ 53 < n < 2 ^ 53 -> -1000 <= E <= 0 -> v = n * 2 ^ (- E) ->
  binary_normalize prec emax v E false = SF_of_Z n.
Proof.
  intros Hn HE Hv.
  assert (Hp : 0 < 2 ^ (- E)) by (apply Z.pow_pos_nonneg; lia).
  destruct n as [|p|p].
  - subst v. reflexivity.
  - destruct v as [|M|M]; try nia.
    unfold SF_of_Z. cbn [binary_normalize].
    apply binary_round_int; [apply digits2_pos_bound; lia | lia | exact Hv].
  - destruct v as [|M|M]; try nia.
    unfold SF_of_Z. cbn [binary_normalize].
    apply binary_round_int; [apply digits2_pos_bound; lia | lia | nia].
Qed.

Lemma shl_align_value (m : positive) (e ez : Z) :
  ez <= e -> Zpos (fst (shl_align m e ez)) = Zpos m * 2 ^ (e - ez).
Proof.
  intros H. unfold shl_align.
  destruct (ez - e) as [|d|d] eqn:Ed; try lia.
  - replace (e - ez) with 0 by lia. cbn [fst]. lia.
  - cbn [fst]. rewrite iter_xO_value. f_equal. f_equal. lia.
Qed.

Lemma pow2_split (x e ez : Z) :
  ez <= e -> e <= 0 -> x * 2 ^ (- e) * 2 ^ (e - ez) = x * 2 ^ (- ez).
Proof.
  intros H1 H2. rewrite <- Z.mul_assoc, <- Z.pow_add_r by lia. f_equal. f_equal. lia.
Qed.

(** Sums of integers are exact while they stay below 2^53 in size. *)
Lemma float_add_int (a b : Z) :
  - 2 ^ 53 < a < 2 ^ 53 -> - 2 ^ 53 < b < 2 ^ 53 -> - 2 ^ 53 < a + b < 2 ^ 53 ->
  (JS.float_of_Z a + JS.float_of_Z b)%float = JS.float_of_Z (a + b).
Proof.
  intros Ha Hb Hab. apply Prim2SF_inj.
  rewrite add_spec, !Prim2SF_float_of_Z by assumption.
  destruct (Z.eq_dec a 0) as [->|Ha0].
  - cbn [Z.add]. change (SF_of_Z 0) with (S754_zero false).
    destruct (Z.eq_dec b 0) as [->|Hb0]; [reflexivity|].
    destruct (SF_of_Z_finite b Hb Hb0) as (m & e & -> & _). reflexivity.
  - destruct (SF_of_Z_finite a Ha Ha0) as (ma & ea & Ea & Hea & Hma & _).
    destruct (Z.eq_dec b 0) as [->|Hb0].
    + rewrite Z.add_0_r, Ea. reflexivity.
    + destruct (SF_of_Z_finite b Hb Hb0) as (mb & eb & Eb & Heb & Hmb & _).
      rewrite Ea, Eb. unfold SF64add, SFadd.
      apply binary_normalize_int; [assumption | lia |].
      rewrite !shl_align_value by lia.
      rewrite Hma, Hmb, !pow2_split by lia.
      unfold cond_Zopp.
      destruct (a <? 0) eqn:Sa, (b <? 0) eqn:Sb;
        try apply Z.ltb_lt in Sa; try apply Z.ltb_ge in Sa;
        try apply Z.ltb_lt in Sb; try apply Z.ltb_ge in Sb;
        rewrite ?(Z.abs_neq a), ?(Z.abs_eq a), ?(Z.abs_neq b), ?(Z.abs_eq b) by lia; ring.
Qed.

Lemma binary_round_aux_opp (m e : Z) (l : location) :
  binary_round_aux prec emax true m e l = SFopp (binary_round_aux prec emax false m e l).
Proof.
  unfold binary_round_aux.
  destruct (shr_fexp prec emax m e l) as [mrs' e'].
  destruct (shr_fexp prec emax
              (round_nearest_even (shr_m mrs') (loc_of_shr_record mrs')) e' loc_Exact)
    as [mrs'' e''].
  destruct (shr_m mrs''); [reflexivity | | reflexivity].
  destruct (e'' <=? emax - prec); reflexivity.
Qed.

Lemma SF_of_Z_opp (n : Z) : n <> 0 -> SF_of_Z (- n) = SFopp (SF_of_Z n).
Proof.
  intros H. destruct n as [|p|p]; [contradiction| |];
    unfold SF_of_Z; cbn [Z.opp binary_normalize]; unfold binary_round;
    destruct (shl_align p 0 (fexp prec emax (Zpos (digits2_pos p) + 0))) as [mz ez];
    rewrite binary_round_aux_opp; [reflexivity|].
  destruct (binary_round_aux prec emax false (Zpos mz) ez loc_Exact) as [[]|[]| |[] m e];
    reflexivity.
Qed.

Lemma float_sub_int (a b : Z) :
  - 2 ^ 53 < a < 2 ^ 53 -> - 2 ^ 53 < b < 2 ^ 53 -> - 2 ^ 53 < a - b < 2 ^ 53 ->
  (JS.float_of_Z a - JS.float_of_Z b)%float = JS.float_of_Z (a - b).
Proof.
  intros Ha Hb Hab. apply Prim2SF_inj.
  rewrite sub_spec, !Prim2SF_float_of_Z by assumption.
  destruct (Z.eq_dec b 0) as [->|Hb0].
  - rewrite Z.sub_0_r. change (SF_of_Z 0) with (S754_zero false).
    destruct (Z.eq_dec a 0) as [->|Ha0]; [reflexivity|].
    destruct (SF_of_Z_finite a Ha Ha0) as (m & e & -> & _). reflexivity.
  - destruct (SF_of_Z_finite b Hb Hb0) as (mb & eb & Eb & Heb & Hmb & Hdb).
    destruct (Z.eq_dec a 0) as [->|Ha0].
    + cbn [Z.sub Z.add]. rewrite SF_of_Z_opp, Eb by assumption. reflexivity.
    + destruct (SF_of_Z_finite a Ha Ha0) as (ma & ea & Ea & Hea & Hma & _).
      rewrite Ea, Eb. unfold SF64sub, SFsub.
      apply binary_normalize_int; [assumption | lia |].
      rewrite !shl_align_value by lia.
      rewrite Hma, Hmb, !pow2_split by lia.
      unfold cond_Zopp.
      destruct (a <? 0) eqn:Sa, (b <? 0) eqn:Sb;
        try apply Z.ltb_lt in Sa; try apply Z.ltb_ge in Sa;
        try apply Z.ltb_lt in Sb; try apply Z.ltb_ge in Sb;
        rewrite ?(Z.abs_neq a), ?(Z.abs_eq a), ?(Z.abs_neq b), ?(Z.abs_eq b) by lia; ring.
Qed.

Lemma digits2_pos_ge (p : positive) (k : Z) :
  0 <= k -> 2 ^ k <= Zpos p -> k < Zpos (digits2_pos p).
Proof.
  intros Hk H. pose proof (digits2_pos_gt p) as Hg.
  destruct (Z_lt_le_dec k (Zpos (digits2_pos p))) as [|Hle]; [assumption|].
  pose proof (Z.pow_le_mono_r 2 _ _ ltac:(lia) Hle). lia.
Qed.

(** Products of natural numbers are exact while they stay below 2^53. *)
Lemma float_mul_int (a b : Z) :
  0 <= a < 2 ^ 53 -> 0 <= b < 2 ^ 53 -> a * b < 2 ^ 53 ->
  (JS.float_of_Z a * JS.float_of_Z b)%float = JS.float_of_Z (a * b).
Proof.
  intros Ha Hb Hab. apply Prim2SF_inj.
  rewrite mul_spec, !Prim2SF_float_of_Z by nia.
  destruct (Z.eq_dec a 0) as [->|Ha0].
  - cbn [Z.mul]. change (SF_of_Z 0) with (S754_zero false).
    destruct (Z.eq_dec b 0) as [->|Hb0]; [reflexivity|].
    destruct (SF_of_Z_finite b ltac:(lia) Hb0) as (m & e & -> & _).
    replace (b <? 0) with false by (symmetry; apply Z.ltb_ge; lia). reflexivity.
  - destruct (SF_of_Z_finite a ltac:(lia) Ha0) as (ma & ea & Ea & Hea & Hma & Hda).
    replace (a <? 0) with false in Ea by (symmetry; apply Z.ltb_ge; lia).
    destruct (Z.eq_dec b 0) as [->|Hb0].
    + rewrite Z.mul_0_r, Ea. reflexivity.
    + destruct (SF_of_Z_finite b ltac:(lia) Hb0) as (mb & eb & Eb & Heb & Hmb & Hdb).
      replace (b <? 0) with false in Eb by (symmetry; apply Z.ltb_ge; lia).
      rewrite Ea, Eb. unfold SF64mul, SFmul. cbn [xorb].
      assert (H52a : 2 ^ 52 <= Zpos ma).
      { destruct (Z_lt_le_dec (Zpos ma) (2 ^ 52)) as [H|H]; [|exact H].
        pose proof (digits2_pos_bound ma 52 ltac:(lia) H). lia. }
      assert (H52b : 2 ^ 52 <= Zpos mb).
      { destruct (Z_lt_le_dec (Zpos mb) (2 ^ 52)) as [H|H]; [|exact H].
        pose proof (digits2_pos_bound mb 52 ltac:(lia) H). lia. }
      rewrite binary_round_long.
      * assert (Hab0 : 0 < a * b) by nia.
        destruct (a * b) as [|p|p] eqn:Ep; try lia.
        unfold SF_of_Z. cbn [binary_normalize].
        apply binary_round_int; [apply digits2_pos_bound; lia | lia |].
        rewrite Pos2Z.inj_mul, Hma, Hmb, <- Ep.
        rewrite !Z.abs_eq by lia.
        replace (- (ea + eb)) with (- ea + - eb) by lia.
        rewrite Z.pow_add_r by lia. ring.
      * assert (104 < Zpos (digits2_pos (ma * mb))); [|lia].
        apply digits2_pos_ge; [lia|]. rewrite Pos2Z.inj_mul.
        change (2 ^ 104) with (2 ^ 52 * 2 ^ 52). nia.
      * lia.
Qed.


Lemma SFcompare_refl_finite (s : bool) (m : positive) (e : Z) :
  SFcompare (S754_finite s m e) (S754_finite s m e) = Some Eq.
Proof.
  cbn [SFcompare]. rewrite Z.compare_refl.
  assert (Pos.compare_cont Eq m m = Eq) by (apply Pos.compare_cont_refl).
  rewrite H. destruct s; reflexivity.
Qed.

Lemma is_nan_float_of_Z (n : Z) :
  - 2 ^ 53 < n < 2 ^ 53 -> is_nan (JS.float_of_Z n) = false.
Proof.
  intros Hn. unfold is_nan. rewrite eqb_spec, Prim2SF_float_of_Z by assumption.
  destruct (Z.eq_dec n 0) as [->|H0]; [reflexivity|].
  destruct (SF_of_Z_finite n Hn H0) as (m & e & -> & _).
  unfold SFeqb. rewrite SFcompare_refl_finite. reflexivity.
Qed.

(** [Math.round] leaves an integer as it is. *)
Lemma Math_round_int (n : Z) :
  - 2 ^ 53 < n < 2 ^ 53 -> JS.Math_round (JS.float_of_Z n) = JS.float_of_Z n.
Proof.
  intros Hn. unfold JS.Math_round. rewrite Prim2SF_float_of_Z by assumption.
  destruct (Z.eq_dec n 0) as [->|H0]; [reflexivity|].
  destruct (SF_of_Z_finite n Hn H0) as (m & e & -> & He & Hm & _).
  destruct (0 <=? e) eqn:E0; [reflexivity|].
  apply Z.leb_gt in E0.
  assert (Hp : 0 < 2 ^ (- e)) by (apply Z.pow_pos_nonneg; lia).
  assert (Hv : (if n <? 0 then Zneg m else Zpos m) = n * 2 ^ (- e)).
  { destruct (n <? 0) eqn:Sn.
    - apply Z.ltb_lt in Sn. rewrite Z.abs_neq in Hm by lia.
      change (Zneg m) with (- Zpos m). rewrite Hm. ring.
    - apply Z.ltb_ge in Sn. rewrite Z.abs_eq in Hm by lia. exact Hm. }
  rewrite Hv.
  assert (Hq : (2 * (n * 2 ^ (- e)) + 2 ^ (- e)) / (2 * 2 ^ (- e)) = n).
  { symmetry. apply (Z.div_unique_pos _ _ n (2 ^ (- e))); [lia | ring]. }
  rewrite Hq.
  replace (n =? 0) with false by (symmetry; apply Z.eqb_neq; exact H0).
  reflexivity.
Qed.

(** [toString(16)] of a natural number is its digits. *)
Lemma toString16_int (n : Z) :
  0 <= n < 2 ^ 53 -> JS.toString16 (JS.float_of_Z n) = JS.natString 16 n.
Proof.
  intros Hn. unfold JS.toString16.
  rewrite is_nan_float_of_Z, truncate_float_of_Z by lia.
  replace (n <? 0) with false by (symmetry; apply Z.ltb_ge; lia).
  rewrite Z.abs_eq by lia. reflexivity.
Qed.

End IntegerArithmetic.

(** *** Rounding a channel *)

Section Rounding.
Local Open Scope Z_scope.

Lemma valid_digits (s : bool) (m : positive) (e : Z) :
  valid_binary (S754_finite s m e) = true -> Zpos m < 2 ^ 53.
Proof.
  unfold SpecFloat.valid_binary, bounded, canonical_mantissa. intros H.
  apply andb_prop in H as [H _]. apply Z.eqb_eq in H.
  unfold fexp, emin, prec, emax in H.
  assert (Hd : Zpos (digits2_pos m) <= 53) by lia.
  pose proof (digits2_pos_gt m) as Hg.
  pose proof (Z.pow_le_mono_r 2 _ _ ltac:(lia) Hd). lia.
Qed.

Lemma SFleb_finite (m m' : positive) (e e' : Z) :
  SFleb (S754_finite false m e) (S754_finite false m' e') = true ->
  e < e' \/ (e = e' /\ Zpos m <= Zpos m').
Proof.
  unfold SFleb. cbn [SFcompare].
  destruct (Z.compare_spec e e') as [He|He|He]; intros H.
  - right. split; [exact He|].
    change (Pos.compare_cont Eq m m') with (Pos.compare m m') in H.
    destruct (Pos.compare_spec m m') as [Hc|Hc|Hc]; try discriminate H; lia.
  - left. exact He.
  - discriminate H.
Qed.

(** [Math.round] of a channel in [0, 255] is an integer in 0..255, or the
    negative zero when the channel is. *)
Lemma Math_round_channel (x : float) :
  channelOK x = true ->
  exists n, 0 <= n <= 255
            /\ (JS.Math_round x = JS.float_of_Z n
                \/ (n = 0 /\ JS.Math_round x = neg_zero)).
Proof.
  unfold channelOK. cbn [jle float_arith].
  replace (@lit float float_arith 0) with 0%float by (vm_compute; reflexivity).
  replace (@lit float float_arith 255) with 255%float by (vm_compute; reflexivity).
  rewrite !leb_spec. intros H. apply andb_prop in H as [H0 H1].
  pose proof (Prim2SF_valid x) as Hv.
  unfold JS.Math_round.
  destruct (Prim2SF x) as [s|s| |s m e] eqn:Ex.
  - exists 0. split; [lia|].
    destruct s; [right | left]; (split || idtac); try reflexivity;
      apply Prim2SF_inj; rewrite Ex; reflexivity.
  - destruct s; [discriminate H0 | discriminate H1].
  - discriminate H0.
  - destruct s; [discriminate H0|].
    pose proof (valid_digits _ _ _ Hv) as Hm.
    change (Prim2SF 255) with (S754_finite false 8972014882652160 (-45)) in H1.
    apply SFleb_finite in H1. rename H1 into Hb.
    replace (0 <=? e) with false by (symmetry; apply Z.leb_gt; lia).
    cbn [andb]. rewrite andb_false_r.
    remember (2 ^ (- e)) as d eqn:Ed.
    assert (Hd : 2 ^ 45 <= d).
    { subst d. apply Z.pow_le_mono_r; lia. }
    assert (Hmd : Zpos m <= 255 * d).
    { destruct Hb as [He | [He Hle]].
      - assert (2 ^ 46 <= d) by (subst d; apply Z.pow_le_mono_r; lia).
        clear Ed. lia.
      - subst d. rewrite He. change (2 ^ (- -45)) with 35184372088832. lia. }
    clear Ed Hb Hv Ex.
    exists ((2 * Zpos m + d) / (2 * d)). split; [|left; reflexivity].
    assert (H45 : 0 < 2 ^ 45) by reflexivity.
    split.
    + apply Z.div_pos; lia.
    + assert ((2 * Zpos m + d) / (2 * d) < 256); [|lia].
      apply Z.div_lt_upper_bound; lia.
Qed.

Lemma byteOf_spec (x : float) :
  channelOK x = true ->
  0 <= byteOf x <= 255
  /\ (JS.Math_round x = JS.float_of_Z (byteOf x)
      \/ (byteOf x = 0 /\ JS.Math_round x = neg_zero)).
Proof.
  intros H. destruct (Math_round_channel x H) as (n & Hn & [E | [E0 E]]).
  - unfold byteOf. rewrite E, truncate_float_of_Z by lia. split; [lia|]. left. reflexivity.
  - unfold byteOf. rewrite E. change (JS.truncate neg_zero) with (Some 0).
    split; [lia|]. right. split; reflexivity.
Qed.

Lemma byteOf_int (n : Z) : 0 <= n < 256 -> byteOf (JS.float_of_Z n) = n.
Proof.
  intros H. unfold byteOf. rewrite Math_round_int, truncate_float_of_Z by lia. reflexivity.
Qed.

Lemma channelOK_int (n : Z) : 0 <= n < 256 -> channelOK (JS.float_of_Z n) = true.
Proof.
  intros H.
  assert (C : forallb (fun k => channelOK (JS.float_of_Z (Z.of_nat k))) (seq 0 256) = true)
    by (vm_compute; reflexivity).
  pose proof (proj1 (forallb_forall _ _) C (Z.to_nat n)) as Hn. cbv beta in Hn.
  rewrite Z2Nat.id in Hn by lia. apply Hn. apply in_seq. lia.
Qed.


Lemma neg_zero_mul (k : Z) :
  0 <= k < 2 ^ 53 -> (neg_zero * JS.float_of_Z k)%float = neg_zero.
Proof.
  intros Hk. apply Prim2SF_inj. rewrite mul_spec, Prim2SF_float_of_Z by lia.
  change (Prim2SF neg_zero) with (S754_zero true).
  destruct (Z.eq_dec k 0) as [->|H0]; [reflexivity|].
  destruct (SF_of_Z_finite k ltac:(lia) H0) as (m & e & -> & _).
  replace (k <? 0) with false by (symmetry; apply Z.ltb_ge; lia). reflexivity.
Qed.

Lemma float_add_neg_zero (a : Z) :
  0 < a < 2 ^ 53 -> (JS.float_of_Z a + neg_zero)%float = JS.float_of_Z a.
Proof.
  intros Ha. apply Prim2SF_inj. rewrite add_spec, Prim2SF_float_of_Z by lia.
  change (Prim2SF neg_zero) with (S754_zero true).
  destruct (SF_of_Z_finite a ltac:(lia) ltac:(lia)) as (m & e & -> & _). reflexivity.
Qed.

(** One term of the sum [toString('hex')] prints. *)
Lemma round_term (x : float) (a k : Z) :
  channelOK x = true -> 0 < a -> 0 <= k -> a + 255 * k < 2 ^ 53 ->
  (JS.float_of_Z a + JS.Math_round x * JS.float_of_Z k)%float
  = JS.float_of_Z (a + byteOf x * k).
Proof.
  intros Hx Ha Hk Hs.
  destruct (byteOf_spec x Hx) as (Hb & [E | [E0 E]]).
  - rewrite E, float_mul_int, float_add_int by nia. reflexivity.
  - rewrite E, E0, neg_zero_mul, float_add_neg_zero by nia. f_equal. lia.
Qed.

Lemma toString10_round (x : float) :
  channelOK x = true ->
  JS.toString10 (JS.Math_round x) = JS.toString10 (JS.float_of_Z (byteOf x)).
Proof.
  intros Hx. destruct (byteOf_spec x Hx) as (Hb & [E | [E0 E]]).
  - rewrite <- E. reflexivity.
  - rewrite E, E0. reflexivity.
Qed.

Lemma isByte_spec (x : float) :
  isByte x = true -> exists n, 0 <= n < 256 /\ x = JS.float_of_Z n.
Proof.
  unfold isByte. destruct (JS.truncate x) as [n|]; [|discriminate].
  intros H. apply andb_prop in H as [H H3]. apply andb_prop in H as [H1 H2].
  exists n. split; [lia|]. apply FloatAxioms.Leibniz.eqb_spec. exact H3.
Qed.

Lemma isByte_byteOf (x : float) : isByte x = true -> JS.float_of_Z (byteOf x) = x.
Proof.
  intros H. destruct (isByte_spec x H) as (n & Hn & ->).
  rewrite byteOf_int by lia. reflexivity.
Qed.

End Rounding.

(** *** Printing in hex *)

Section HexPrinting.
Local Open Scope Z_scope.
Local Open Scope string_scope.

Ltac zdiv := Z.div_mod_to_equations; lia.

Lemma digitsOf_step (f : nat) (n : Z) (acc : string) :
  n / 16 <> 0 ->
  JS.digitsOf (S f) 16 n acc = JS.digitsOf f 16 (n / 16) (String (JS.digitChar (n mod 16)) acc).
Proof.
  intros H. cbn [JS.digitsOf]. apply Z.eqb_neq in H. rewrite H. reflexivity.
Qed.

Lemma digitsOf_last (f : nat) (n : Z) (acc : string) :
  n / 16 = 0 ->
  JS.digitsOf (S f) 16 n acc = String (JS.digitChar (n mod 16)) acc.
Proof.
  intros H. cbn [JS.digitsOf]. apply Z.eqb_eq in H. rewrite H. reflexivity.
Qed.

(** The nine hex digits of [2^32 + r 2^24 + g 2^16 + b 2^8 + x]. *)
Lemma natString16_bytes (r g b x : Z) :
  0 <= r < 256 -> 0 <= g < 256 -> 0 <= b < 256 -> 0 <= x < 256 ->
  JS.natString 16 (4294967296 + r * 16777216 + g * 65536 + b * 256 + x)
  = "1" ++ hexPair r ++ hexPair g ++ hexPair b ++ hexPair x.
Proof.
  intros Hr Hg Hb Hx.
  set (n := 4294967296 + r * 16777216 + g * 65536 + b * 256 + x).
  assert (Hn : 2 ^ 32 <= n < 2 ^ 33) by (subst n; lia).
  unfold JS.natString.
  rewrite (Z.log2_unique n 32) by (change (Z.succ 32) with 33; lia).
  change (S (Z.to_nat 32)) with (S (S (S (S (S (S (S (S (S 24))))))))).
  assert (E1 : n / 16 = 268435456 + r * 1048576 + g * 4096 + b * 16 + x / 16) by (subst n; zdiv).
  assert (D0 : n mod 16 = x mod 16) by (subst n; zdiv).
  rewrite digitsOf_step by (rewrite E1; zdiv); rewrite D0, E1. clear E1 D0. clearbody n. clear Hn n.
  set (n := 268435456 + r * 1048576 + g * 4096 + b * 16 + x / 16).
  assert (E2 : n / 16 = 16777216 + r * 65536 + g * 256 + b) by (subst n; zdiv).
  assert (D1 : n mod 16 = x / 16) by (subst n; zdiv).
  rewrite digitsOf_step by (rewrite E2; zdiv); rewrite D1, E2. clear E2 D1 n.
  set (n := 16777216 + r * 65536 + g * 256 + b).
  assert (E3 : n / 16 = 1048576 + r * 4096 + g * 16 + b / 16) by (subst n; zdiv).
  assert (D2 : n mod 16 = b mod 16) by (subst n; zdiv).
  rewrite digitsOf_step by (rewrite E3; zdiv); rewrite D2, E3. clear E3 D2 n.
  set (n := 1048576 + r * 4096 + g * 16 + b / 16).
  assert (E4 : n / 16 = 65536 + r * 256 + g) by (subst n; zdiv).
  assert (D3 : n mod 16 = b / 16) by (subst n; zdiv).
  rewrite digitsOf_step by (rewrite E4; zdiv); rewrite D3, E4. clear E4 D3 n.
  set (n := 65536 + r * 256 + g).
  assert (E5 : n / 16 = 4096 + r * 16 + g / 16) by (subst n; zdiv).
  assert (D4 : n mod 16 = g mod 16) by (subst n; zdiv).
  rewrite digitsOf_step by (rewrite E5; zdiv); rewrite D4, E5. clear E5 D4 n.
  set (n := 4096 + r * 16 + g / 16).
  assert (E6 : n / 16 = 256 + r) by (subst n; zdiv).
  assert (D5 : n mod 16 = g / 16) by (subst n; zdiv).
  rewrite digitsOf_step by (rewrite E6; zdiv); rewrite D5, E6. clear E6 D5 n.
  set (n := 256 + r).
  assert (E7 : n / 16 = 16 + r / 16) by (subst n; zdiv).
  assert (D6 : n mod 16 = r mod 16) by (subst n; zdiv).
  rewrite digitsOf_step by (rewrite E7; zdiv); rewrite D6, E7. clear E7 D6 n.
  set (n := 16 + r / 16).
  assert (E8 : n / 16 = 1) by (subst n; zdiv).
  assert (D7 : n mod 16 = r / 16) by (subst n; zdiv).
  rewrite digitsOf_step by (rewrite E8; zdiv); rewrite D7, E8. clear E8 D7 n.
  rewrite digitsOf_last by reflexivity.
  reflexivity.
Qed.


Lemma slice_opaque (c0 c1 c2 c3 c4 c5 c6 c7 c8 : ascii) :
  JS.slice (String c0 (String c1 (String c2 (String c3 (String c4 (String c5
              (String c6 (String c7 (String c8 ""))))))))) 1 (Some (-2))
  = String c1 (String c2 (String c3 (String c4 (String c5 (String c6 ""))))).
Proof. reflexivity. Qed.

Lemma slice_alpha (c0 c1 c2 c3 c4 c5 c6 c7 c8 : ascii) :
  JS.slice (String c0 (String c1 (String c2 (String c3 (String c4 (String c5
              (String c6 (String c7 (String c8 ""))))))))) 1 None
  = String c1 (String c2 (String c3 (String c4 (String c5 (String c6
      (String c7 (String c8 ""))))))).
Proof. reflexivity. Qed.

Lemma hex_sum (x y z : float) (w : Z) :
  channelOK x = true -> channelOK y = true -> channelOK z = true -> 0 <= w < 256 ->
  (4294967296 + JS.Math_round x * 16777216 + JS.Math_round y * 65536
   + JS.Math_round z * 256 + JS.float_of_Z w)%float
  = JS.float_of_Z (4294967296 + byteOf x * 16777216 + byteOf y * 65536
                   + byteOf z * 256 + w).
Proof.
  intros Hx Hy Hz Hw.
  destruct (byteOf_spec x Hx) as [Bx _]. destruct (byteOf_spec y Hy) as [By _].
  destruct (byteOf_spec z Hz) as [Bz _].
  replace 4294967296%float with (JS.float_of_Z 4294967296) by (vm_compute; reflexivity).
  replace 16777216%float with (JS.float_of_Z 16777216) by (vm_compute; reflexivity).
  replace 65536%float with (JS.float_of_Z 65536) by (vm_compute; reflexivity).
  replace 256%float with (JS.float_of_Z 256) by (vm_compute; reflexivity).
  rewrite (round_term x) by (assumption || lia).
  rewrite (round_term y) by (assumption || lia).
  rewrite (round_term z) by (assumption || lia).
  rewrite float_add_int by lia.
  reflexivity.
Qed.

(** What [toString('hex')] prints for channels in [0, 255]: the hex digits
    of the rounded channels when the alpha is 1, and two more for the byte
    [round(a * 255)] otherwise. *)
Lemma toString_hex_opaque (x y z al : float) :
  channelOK x = true -> channelOK y = true -> channelOK z = true ->
  (al =? 1)%float = true ->
  toString (rgba x y z al) "hex"
  = "#" ++ hexPair (byteOf x) ++ hexPair (byteOf y) ++ hexPair (byteOf z).
Proof.
  intros Hx Hy Hz Ha. unfold toString. cbn [String.eqb Ascii.eqb Bool.eqb].
  rewrite r_rgba, g_rgba, b_rgba, a_rgba, Ha.
  destruct (byteOf_spec x Hx) as [Bx _]. destruct (byteOf_spec y Hy) as [By _].
  destruct (byteOf_spec z Hz) as [Bz _].
  replace 0%float with (JS.float_of_Z 0) by reflexivity.
  rewrite hex_sum by (assumption || lia).
  rewrite toString16_int by lia.
  rewrite natString16_bytes by lia.
  reflexivity.
Qed.

Lemma toString_hex_alpha (x y z al : float) (w : Z) :
  channelOK x = true -> channelOK y = true -> channelOK z = true -> 0 <= w < 256 ->
  (al =? 1)%float = false -> JS.Math_round (al * 255) = JS.float_of_Z w ->
  toString (rgba x y z al) "hex"
  = "#" ++ hexPair (byteOf x) ++ hexPair (byteOf y) ++ hexPair (byteOf z) ++ hexPair w.
Proof.
  intros Hx Hy Hz Hw Ha Hal. unfold toString. cbn [String.eqb Ascii.eqb Bool.eqb].
  rewrite r_rgba, g_rgba, b_rgba, a_rgba, Ha, Hal.
  destruct (byteOf_spec x Hx) as [Bx _]. destruct (byteOf_spec y Hy) as [By _].
  destruct (byteOf_spec z Hz) as [Bz _].
  rewrite hex_sum by (assumption || lia).
  rewrite toString16_int by lia.
  rewrite natString16_bytes by lia.
  reflexivity.
Qed.

Lemma toString_hex_opaque_int (r0 g0 b0 : Z) (al : float) :
  0 <= r0 < 256 -> 0 <= g0 < 256 -> 0 <= b0 < 256 -> (al =? 1)%float = true ->
  toString (rgba (JS.float_of_Z r0) (JS.float_of_Z g0) (JS.float_of_Z b0) al) "hex"
  = "#" ++ hexPair r0 ++ hexPair g0 ++ hexPair b0.
Proof.
  intros Hr Hg Hb Ha.
  rewrite toString_hex_opaque by (try apply channelOK_int; assumption).
  rewrite !byteOf_int by assumption. reflexivity.
Qed.

Lemma toString_hex_alpha_int (r0 g0 b0 w : Z) (al : float) :
  0 <= r0 < 256 -> 0 <= g0 < 256 -> 0 <= b0 < 256 -> 0 <= w < 256 ->
  (al =? 1)%float = false -> JS.Math_round (al * 255) = JS.float_of_Z w ->
  toString (rgba (JS.float_of_Z r0) (JS.float_of_Z g0) (JS.float_of_Z b0) al) "hex"
  = "#" ++ hexPair r0 ++ hexPair g0 ++ hexPair b0 ++ hexPair w.
Proof.
  intros Hr Hg Hb Hw Ha Hal.
  rewrite (toString_hex_alpha _ _ _ _ w) by (try apply channelOK_int; assumption).
  rewrite !byteOf_int by assumption. reflexivity.
Qed.

End HexPrinting.

(** *** Hex round trips *)

Section HexRoundTrip.
Local Open Scope Z_scope.
Local Open Scope string_scope.

Ltac zdiv := Z.div_mod_to_equations; lia.

Lemma digitChar_hex (k : Z) :
  0 <= k < 16 ->
  isHexDigit (JS.digitChar k) = true /\ hexValue (JS.digitChar k) = k.
Proof.
  intros H.
  assert (C : k = 0 \/ k = 1 \/ k = 2 \/ k = 3 \/ k = 4 \/ k = 5 \/ k = 6 \/ k = 7 \/ k = 8
              \/ k = 9 \/ k = 10 \/ k = 11 \/ k = 12 \/ k = 13 \/ k = 14 \/ k = 15) by lia.
  repeat (destruct C as [-> | C]; [split; reflexivity|]). subst k. split; reflexivity.
Qed.

Lemma digitChar_hexValue (c : ascii) :
  isHexDigit c = true -> JS.digitChar (hexValue c) = JS.lowerChar c.
Proof.
  destruct c as [[] [] [] [] [] [] [] []]; intros H; try discriminate H; reflexivity.
Qed.

Lemma hexByte_hexPair (n : Z) :
  0 <= n < 256 ->
  isHexDigit (JS.digitChar (n / 16)) = true /\ isHexDigit (JS.digitChar (n mod 16)) = true
  /\ hexByte (JS.digitChar (n / 16)) (JS.digitChar (n mod 16)) = JS.float_of_Z n.
Proof.
  intros H.
  destruct (digitChar_hex (n / 16) ltac:(zdiv)) as [H1 V1].
  destruct (digitChar_hex (n mod 16) ltac:(zdiv)) as [H2 V2].
  repeat split; try assumption.
  unfold hexByte. rewrite V1, V2. f_equal. zdiv.
Qed.

Lemma hexPair_hexByte (c1 c2 : ascii) :
  isHexDigit c1 = true -> isHexDigit c2 = true ->
  0 <= 16 * hexValue c1 + hexValue c2 < 256
  /\ hexPair (16 * hexValue c1 + hexValue c2)
     = String (JS.lowerChar c1) (String (JS.lowerChar c2) "").
Proof.
  intros H1 H2.
  pose proof (hex_value_range c1 H1) as R1. pose proof (hex_value_range c2 H2) as R2.
  split; [lia|]. unfold hexPair.
  replace ((16 * hexValue c1 + hexValue c2) / 16) with (hexValue c1) by zdiv.
  replace ((16 * hexValue c1 + hexValue c2) mod 16) with (hexValue c2) by zdiv.
  rewrite !digitChar_hexValue by assumption. reflexivity.
Qed.

Lemma byteAlpha_all : forallb byteAlpha (seq 0 256) = true.
Proof. vm_compute. reflexivity. Qed.

Lemma byteAlpha_spec (x : Z) :
  0 <= x < 256 ->
  let al := alphaOfByte (JS.float_of_Z x) in
  if (x =? 255)%Z then al = 1%float
  else (al =? 1)%float = false /\ JS.Math_round (al * 255) = JS.float_of_Z x.
Proof.
  intros Hx al.
  pose proof (proj1 (forallb_forall byteAlpha (seq 0 256)) byteAlpha_all (Z.to_nat x)) as H.
  assert (Hin : In (Z.to_nat x) (seq 0 256)) by (apply in_seq; lia).
  specialize (H Hin). unfold byteAlpha in H. rewrite Z2Nat.id in H by lia. fold al in H.
  destruct (x =? 255)%Z eqn:E.
  - apply Z.eqb_eq in E. subst x. cbn [Z.to_nat Pos.to_nat Nat.eqb] in H.
    change (Nat.eqb (Z.to_nat 255) 255) with true in H.
    apply FloatAxioms.Leibniz.eqb_spec. exact H.
  - apply Z.eqb_neq in E.
    replace (Nat.eqb (Z.to_nat x) 255) with false in H
      by (symmetry; apply Nat.eqb_neq; lia).
    apply andb_prop in H as [H1 H2]. split.
    + apply negb_true_iff. exact H1.
    + apply FloatAxioms.Leibniz.eqb_spec. exact H2.
Qed.


Lemma parse_hexPairs_six (r0 g0 b0 : Z) :
  0 <= r0 < 256 -> 0 <= g0 < 256 -> 0 <= b0 < 256 ->
  stringInputToObject ("#" ++ hexPair r0 ++ hexPair g0 ++ hexPair b0)
  = Some (Object (Some (JS.float_of_Z r0)) (Some (JS.float_of_Z g0))
                 (Some (JS.float_of_Z b0)) (Some 1%float)).
Proof.
  intros Hr Hg Hb.
  destruct (hexByte_hexPair r0 Hr) as (R1 & R2 & R3).
  destruct (hexByte_hexPair g0 Hg) as (G1 & G2 & G3).
  destruct (hexByte_hexPair b0 Hb) as (B1 & B2 & B3).
  unfold hexPair. cbn [append].
  rewrite stringInputToObject_hash
    by (cbn [allHex]; rewrite R1, R2, G1, G2, B1, B2; reflexivity).
  rewrite hexByte_six by assumption.
  rewrite R3, G3, B3. reflexivity.
Qed.

Lemma parse_hexPairs_eight (r0 g0 b0 x : Z) :
  0 <= r0 < 256 -> 0 <= g0 < 256 -> 0 <= b0 < 256 -> 0 <= x < 256 ->
  stringInputToObject ("#" ++ hexPair r0 ++ hexPair g0 ++ hexPair b0 ++ hexPair x)
  = Some (Object (Some (JS.float_of_Z r0)) (Some (JS.float_of_Z g0))
                 (Some (JS.float_of_Z b0)) (Some (alphaOfByte (JS.float_of_Z x)))).
Proof.
  intros Hr Hg Hb Hx.
  destruct (hexByte_hexPair r0 Hr) as (R1 & R2 & R3).
  destruct (hexByte_hexPair g0 Hg) as (G1 & G2 & G3).
  destruct (hexByte_hexPair b0 Hb) as (B1 & B2 & B3).
  destruct (hexByte_hexPair x Hx) as (X1 & X2 & X3).
  unfold hexPair. cbn [append].
  rewrite stringInputToObject_hash
    by (cbn [allHex]; rewrite R1, R2, G1, G2, B1, B2, X1, X2; reflexivity).
  rewrite hexByte_eight by assumption.
  rewrite R3, G3, B3, X3. reflexivity.
Qed.

(** X4.  [webcolor(c.toString('hex'))] is [c] with its channels rounded by
    [Math.round], for every colour with channels in [0, 255] and an alpha
    that is 1 or the alpha a hex byte parses to; so it is [c] again when the
    channels are integers. *)
Theorem hex_roundtrip (x y z : float) (k : Z) :
  channelOK x = true -> channelOK y = true -> channelOK z = true -> 0 <= k < 256 ->
  let al := alphaOfByte (JS.float_of_Z k) in
  let c := rgba x y z al in
  let c' := rgba (JS.float_of_Z (byteOf x)) (JS.float_of_Z (byteOf y))
                 (JS.float_of_Z (byteOf z)) al in
  webcolor (InString (toString c "hex")) = Normal c'
  /\ (isByte x = true -> isByte y = true -> isByte z = true -> c' = c).
Proof.
  intros Hx Hy Hz Hk al c c'. subst c c' al.
  destruct (byteOf_spec x Hx) as [Bx _]. destruct (byteOf_spec y Hy) as [By _].
  destruct (byteOf_spec z Hz) as [Bz _].
  split.
  - pose proof (byteAlpha_spec k Hk) as Ha. cbv zeta in Ha.
    destruct (k =? 255)%Z eqn:E.
    + rewrite Ha. rewrite toString_hex_opaque by (assumption || reflexivity).
      unfold webcolor. rewrite parse_hexPairs_six by lia. reflexivity.
    + destruct Ha as [Ha1 Ha2].
      rewrite (toString_hex_alpha _ _ _ _ k) by (assumption || lia).
      unfold webcolor. rewrite parse_hexPairs_eight by lia. reflexivity.
  - intros Ix Iy Iz. rewrite !isByte_byteOf by assumption. reflexivity.
Qed.

(** The channels 114.5, 0.4 and 255 print as [73], [00] and [ff]. *)
Lemma hex_roundtrip_witness :
  webcolor (InString "#7300ff99") = Normal (rgba 115 0 255 0.6)%float.
Proof.
  pose proof (proj1 (hex_roundtrip 114.5%float 0.4%float 255%float 153
                       eq_refl eq_refl eq_refl ltac:(lia))) as H.
  replace (toString _ "hex") with "#7300ff99" in H by (vm_compute; reflexivity).
  rewrite H. vm_compute. reflexivity.
Defined.

(** X5.  The other way round: [webcolor(s).toString('hex')] is the hex
    string [s] in lower case; a three-digit string comes back with its digits
    doubled, and an eight-digit string without its alpha digits when they are
    [ff]. *)
Theorem hex_parse_print (d1 d2 d3 d4 d5 d6 d7 d8 : ascii) :
  isHexDigit d1 = true -> isHexDigit d2 = true -> isHexDigit d3 = true ->
  isHexDigit d4 = true -> isHexDigit d5 = true -> isHexDigit d6 = true ->
  isHexDigit d7 = true -> isHexDigit d8 = true ->
  let six := String d1 (String d2 (String d3 (String d4 (String d5 (String d6 ""))))) in
  let eight := six ++ String d7 (String d8 "") in
  (exists c, webcolor (InString ("#" ++ six)) = Normal c
             /\ toString c "hex" = "#" ++ JS.toLowerCase six)
  /\ (exists c, webcolor (InString ("#" ++ String d1 (String d2 (String d3 "")))) = Normal c
                /\ toString c "hex"
                   = "#" ++ JS.toLowerCase (doubled (String d1 (String d2 (String d3 "")))))
  /\ (exists c, webcolor (InString ("#" ++ eight)) = Normal c
                /\ toString c "hex"
                   = "#" ++ JS.toLowerCase
                              (if (16 * hexValue d7 + hexValue d8 =? 255)%Z then six else eight)).
Proof.
  intros H1 H2 H3 H4 H5 H6 H7 H8 six eight. subst eight six. cbn [append].
  destruct (hexPair_hexByte d1 d2 H1 H2) as [R1 R2].
  destruct (hexPair_hexByte d3 d4 H3 H4) as [G1 G2].
  destruct (hexPair_hexByte d5 d6 H5 H6) as [B1 B2].
  destruct (hexPair_hexByte d7 d8 H7 H8) as [X1 X2].
  split; [|split].
  - eexists. split.
    + unfold webcolor.
      rewrite stringInputToObject_hash by (cbn [allHex]; rewrite H1, H2, H3, H4, H5, H6; reflexivity).
      rewrite hexByte_six by assumption. reflexivity.
    + unfold hexByte.
      change (fromObject (Object (Some ?x) (Some ?y) (Some ?z) (Some ?w))) with (rgba x y z w).
      rewrite toString_hex_opaque_int by (try lia; reflexivity).
      rewrite R2, G2, B2. reflexivity.
  - destruct (hexPair_hexByte d1 d1 H1 H1) as [R1' R2'].
    destruct (hexPair_hexByte d2 d2 H2 H2) as [G1' G2'].
    destruct (hexPair_hexByte d3 d3 H3 H3) as [B1' B2'].
    eexists. split.
    + unfold webcolor.
      rewrite stringInputToObject_hash by (cbn [allHex]; rewrite H1, H2, H3; reflexivity).
      rewrite shorthand_three, hexByte_six by assumption. reflexivity.
    + unfold hexByte.
      change (fromObject (Object (Some ?x) (Some ?y) (Some ?z) (Some ?w))) with (rgba x y z w).
      rewrite toString_hex_opaque_int by (try lia; reflexivity).
      rewrite R2', G2', B2'. reflexivity.
  - eexists. split.
    + unfold webcolor.
      rewrite stringInputToObject_hash
        by (cbn [allHex]; rewrite H1, H2, H3, H4, H5, H6, H7, H8; reflexivity).
      rewrite hexByte_eight by assumption. reflexivity.
    + unfold hexByte.
      change (fromObject (Object (Some ?x) (Some ?y) (Some ?z) (Some ?w))) with (rgba x y z w).
      pose proof (byteAlpha_spec _ X1) as Ha. cbv zeta in Ha.
      destruct (16 * hexValue d7 + hexValue d8 =? 255)%Z.
      * rewrite Ha. rewrite toString_hex_opaque_int by (try lia; reflexivity).
        rewrite R2, G2, B2. reflexivity.
      * destruct Ha as [Ha1 Ha2].
        rewrite (toString_hex_alpha_int _ _ _ (16 * hexValue d7 + hexValue d8))
          by (try lia; assumption).
        rewrite R2, G2, B2, X2. reflexivity.
Qed.


Lemma hex_parse_print_witness :
  exists c, webcolor (InString "#F3A") = Normal c /\ toString c "hex" = "#ff33aa".
Proof.
  exact (proj1 (proj2 (hex_parse_print "F" "3" "A" "0" "0" "0" "0" "0"
                         eq_refl eq_refl eq_refl eq_refl eq_refl eq_refl eq_refl eq_refl))).
Defined.

End HexRoundTrip.

(** *** The functional form *)

Section FunctionalForm.
Local Open Scope string_scope.
Local Open Scope Z_scope.

Lemma length_app (s t : string) :
  String.length (s ++ t) = (String.length s + String.length t)%nat.
Proof. induction s as [|c s IH]; cbn [append String.length]; [reflexivity | rewrite IH; reflexivity]. Qed.

Lemma toLowerCase_app (s t : string) :
  JS.toLowerCase (s ++ t) = JS.toLowerCase s ++ JS.toLowerCase t.
Proof. induction s as [|c s IH]; cbn [append JS.toLowerCase]; [reflexivity | rewrite IH; reflexivity]. Qed.

Lemma noComma_app (s t : string) : noComma (s ++ t) = noComma s && noComma t.
Proof.
  induction s as [|c s IH]; cbn [append noComma]; [reflexivity|].
  rewrite IH, andb_assoc. reflexivity.
Qed.

Lemma trimEnd_cons (c : ascii) (s : string) :
  JS.trimEnd s = s -> s <> "" -> JS.trimEnd (String c s) = String c s.
Proof.
  intros H Hs. cbn [JS.trimEnd]. rewrite H.
  destruct s; [contradiction | reflexivity].
Qed.

Lemma trimEnd_app (s t : string) :
  JS.trimEnd t = t -> t <> "" -> JS.trimEnd (s ++ t) = s ++ t.
Proof.
  intros H Ht. induction s as [|c s IH]; cbn [append]; [exact H|].
  apply trimEnd_cons; [exact IH|]. destruct s; cbn [append]; [exact Ht | discriminate].
Qed.

Lemma split_noComma (s : string) : noComma s = true -> JS.split "," s = [s]%list.
Proof.
  induction s as [|c s IH]; intros H; cbn [JS.split]; [reflexivity|].
  cbn [noComma] in H. apply andb_prop in H as [Hc Hs].
  apply negb_true_iff in Hc. rewrite Hc, (IH Hs). reflexivity.
Qed.

Lemma split_app (s t : string) :
  noComma s = true -> JS.split "," (s ++ String "," t) = (s :: JS.split "," t)%list.
Proof.
  induction s as [|c s IH]; intros H; cbn [append JS.split].
  - reflexivity.
  - cbn [noComma] in H. apply andb_prop in H as [Hc Hs].
    apply negb_true_iff in Hc. rewrite Hc, (IH Hs). reflexivity.
Qed.

Lemma substring_all (s : string) : substring 0 (String.length s) s = s.
Proof. induction s as [|c s IH]; cbn [String.length substring]; [reflexivity | rewrite IH; reflexivity]. Qed.

(** [s.slice(k)] drops the first [k] characters. *)
Lemma slice_drop (p s : string) :
  JS.slice (p ++ s) (Z.of_nat (String.length p)) None = s.
Proof.
  unfold JS.slice. rewrite length_app.
  replace (Z.of_nat (String.length p) <? 0) with false by (symmetry; apply Z.ltb_ge; lia).
  rewrite Z.min_l by lia. rewrite Nat2Z.id.
  replace (Z.to_nat (Z.max (Z.of_nat (String.length p + String.length s)
                            - Z.of_nat (String.length p)) 0)) with (String.length s) by lia.
  induction p as [|c p IH]; cbn [append String.length substring]; [apply substring_all | exact IH].
Qed.

(** The functional form: a string of more than 9 characters that starts
    with [r] and has three or four components between commas. *)
Lemma parseForms_three (p1 p2 p3 : string) :
  is_char (JS.at_ p1 0) "r" = true ->
  noComma p1 = true -> noComma p2 = true -> noComma p3 = true ->
  (9 < String.length (p1 ++ String "," (p2 ++ String "," p3)))%nat ->
  parseForms (p1 ++ String "," (p2 ++ String "," p3))
  = Some (Object
      (Some (JS.parseInt (if is_char (JS.at_ p1 3) "a" then JS.slice p1 5 None
                          else JS.slice p1 4 None) None))
      (Some (JS.parseInt p2 None)) (Some (JS.parseInt p3 None)) (Some 1%float)).
Proof.
  intros Hr H1 H2 H3 Hn. unfold parseForms.
  assert (E0 : JS.at_ (p1 ++ String "," (p2 ++ String "," p3)) 0 = JS.at_ p1 0).
  { destruct p1; [discriminate Hr | reflexivity]. }
  rewrite E0, Hr. cbn [negb andb].
  replace (9 <? Z.of_nat (String.length (p1 ++ String "," (p2 ++ String "," p3))))
    with true by (symmetry; apply Z.ltb_lt; lia).
  rewrite split_app, split_app, split_noComma by assumption.
  reflexivity.
Qed.

Lemma parseForms_four (p1 p2 p3 p4 : string) :
  is_char (JS.at_ p1 0) "r" = true ->
  noComma p1 = true -> noComma p2 = true -> noComma p3 = true -> noComma p4 = true ->
  (9 < String.length (p1 ++ String "," (p2 ++ String "," (p3 ++ String "," p4))))%nat ->
  parseForms (p1 ++ String "," (p2 ++ String "," (p3 ++ String "," p4)))
  = Some (Object
      (Some (JS.parseInt (if is_char (JS.at_ p1 3) "a" then JS.slice p1 5 None
                          else JS.slice p1 4 None) None))
      (Some (JS.parseInt p2 None)) (Some (JS.parseInt p3 None))
      (Some (match p4 with
             | String c a' => JS.parseFloat (String c a')
             | EmptyString => 1%float
             end))).
Proof.
  intros Hr H1 H2 H3 H4 Hn. unfold parseForms.
  assert (E0 : JS.at_ (p1 ++ String "," (p2 ++ String "," (p3 ++ String "," p4))) 0
               = JS.at_ p1 0).
  { destruct p1; [discriminate Hr | reflexivity]. }
  rewrite E0, Hr. cbn [negb andb].
  replace (9 <? Z.of_nat (String.length
             (p1 ++ String "," (p2 ++ String "," (p3 ++ String "," p4)))))
    with true by (symmetry; apply Z.ltb_lt; lia).
  rewrite split_app, split_app, split_app, split_noComma by assumption.
  reflexivity.
Qed.

End FunctionalForm.

(** *** The grammar of the functional form *)

Section FunctionalGrammar.
Local Open Scope string_scope.
Local Open Scope Z_scope.

Lemma lookup_In (k v : string) (t : list (string * string)) :
  lookup k t = Some v -> In (k, v) t.
Proof.
  induction t as [|[k' v'] t IH]; cbn [lookup]; [discriminate|].
  destruct (String.eqb k k') eqn:E.
  - intros H. injection H as <-. apply String.eqb_eq in E. subst k'. left. reflexivity.
  - intros H. right. apply IH. exact H.
Qed.

Lemma names_noComma : forallb (fun e => noComma (fst e)) names = true.
Proof. vm_compute. reflexivity. Qed.

Lemma lookup_comma (t : string) : noComma t = false -> lookup t names = None.
Proof.
  intros H. destruct (lookup t names) as [h|] eqn:E; [|reflexivity].
  apply lookup_In in E.
  pose proof (proj1 (forallb_forall _ _) names_noComma _ E) as Hk.
  cbn [fst] in Hk. congruence.
Qed.

Lemma comma_inside (p q : string) : noComma (p ++ String "," q) = false.
Proof. rewrite noComma_app. cbn [noComma]. rewrite andb_false_r. reflexivity. Qed.

Lemma not_transparent_comma (t : string) :
  noComma t = false -> String.eqb t "transparent" = false.
Proof.
  intros H. destruct (String.eqb t "transparent") eqn:E; [|reflexivity].
  apply String.eqb_eq in E. subst t. discriminate H.
Qed.

(** X18.  The functional form as the parser reads it.  When the trimmed,
    lower-cased string starts with [r], has more than 9 characters and
    consists of three components between commas, the channels are [parseInt]
    of the components, the first one taken from its fifth character (from
    its sixth when its fourth is [a]), and the alpha is 1; with four
    components the alpha is [parseFloat] of the fourth (1 when it is empty).
    Neither the function name nor the parentheses are looked at, and
    [parseInt] ignores what follows the digits. *)
Theorem functional_form (s p1 p2 p3 p4 : string) :
  is_char (JS.at_ p1 0) "r" = true ->
  noComma p1 = true -> noComma p2 = true -> noComma p3 = true -> noComma p4 = true ->
  let red := JS.parseInt (if is_char (JS.at_ p1 3) "a" then JS.slice p1 5 None
                          else JS.slice p1 4 None) None in
  (JS.toLowerCase (JS.trim s) = p1 ++ String "," (p2 ++ String "," p3) ->
   (9 < String.length (p1 ++ String "," (p2 ++ String "," p3)))%nat ->
   stringInputToObject s
   = Some (Object (Some red) (Some (JS.parseInt p2 None)) (Some (JS.parseInt p3 None))
                  (Some 1%float)))
  /\ (JS.toLowerCase (JS.trim s) = p1 ++ String "," (p2 ++ String "," (p3 ++ String "," p4)) ->
      (9 < String.length (p1 ++ String "," (p2 ++ String "," (p3 ++ String "," p4))))%nat ->
      stringInputToObject s
      = Some (Object (Some red) (Some (JS.parseInt p2 None)) (Some (JS.parseInt p3 None))
                     (Some (match p4 with
                            | String c a' => JS.parseFloat (String c a')
                            | EmptyString => 1%float
                            end)))).
Proof.
  intros Hr H1 H2 H3 H4 red. subst red. split.
  - intros Es Hn. unfold stringInputToObject. rewrite Es.
    rewrite lookup_comma, not_transparent_comma by apply comma_inside.
    apply parseForms_three; assumption.
  - intros Es Hn. unfold stringInputToObject. rewrite Es.
    rewrite lookup_comma, not_transparent_comma by apply comma_inside.
    apply parseForms_four; assumption.
Qed.

(** Percentages are read as plain numbers, and the name is not checked. *)
Lemma functional_form_witness :
  stringInputToObject " RGB(10%,20%,30%) "
  = Some (Object (Some 10%float) (Some 20%float) (Some 30%float) (Some 1%float))
  /\ stringInputToObject "rxyz10.7,20,30,0.5"
     = Some (Object (Some 10%float) (Some 20%float) (Some 30%float) (Some 0.5%float)).
Proof.
  split.
  - apply (proj1 (functional_form " RGB(10%,20%,30%) " "rgb(10%" "20%" "30%)" ""
                    eq_refl eq_refl eq_refl eq_refl eq_refl)).
    + reflexivity.
    + cbn. lia.
  - apply (proj2 (functional_form "rxyz10.7,20,30,0.5" "rxyz10.7" "20" "30" "0.5"
                    eq_refl eq_refl eq_refl eq_refl eq_refl)).
    + reflexivity.
    + cbn. lia.
Defined.

End FunctionalGrammar.

(** *** Round trip of the default format *)

Section RgbRoundTrip.
Local Open Scope string_scope.
Local Open Scope Z_scope.

Lemma decimalOK_all : forallb decimalOK (seq 0 256) = true.
Proof. vm_compute. reflexivity. Qed.

Lemma thousandthOK_all : forallb thousandthOK (seq 0 1000) = true.
Proof. vm_compute. reflexivity. Qed.

Lemma decimal_byte (n : Z) :
  0 <= n < 256 ->
  let t := JS.toString10 (JS.float_of_Z n) in
  noComma t = true /\ JS.toLowerCase t = t /\ t <> ""
  /\ JS.parseInt t None = JS.float_of_Z n
  /\ JS.parseInt (t ++ ")") None = JS.float_of_Z n.
Proof.
  intros Hn t.
  pose proof (proj1 (forallb_forall decimalOK (seq 0 256)) decimalOK_all (Z.to_nat n)) as H.
  assert (Hin : In (Z.to_nat n) (seq 0 256)) by (apply in_seq; lia).
  specialize (H Hin). unfold decimalOK in H. rewrite Z2Nat.id in H by lia. fold t in H.
  apply andb_prop in H as [H H5]. apply andb_prop in H as [H H4].
  apply andb_prop in H as [H H3]. apply andb_prop in H as [H1 H2].
  repeat split.
  - exact H1.
  - apply String.eqb_eq. exact H2.
  - intros E. rewrite E in H3. discriminate H3.
  - apply FloatAxioms.Leibniz.eqb_spec. exact H4.
  - apply FloatAxioms.Leibniz.eqb_spec. exact H5.
Qed.

Lemma decimal_thousandth (k : Z) :
  0 <= k < 1000 ->
  let al := (JS.float_of_Z k / 1000)%float in
  let t := JS.toString10 (JS.Math_round (al * 1000) / 1000)%float in
  (al =? 1)%float = false /\ noComma t = true /\ JS.toLowerCase t = t
  /\ JS.parseFloat (t ++ ")") = al.
Proof.
  intros Hk al t.
  pose proof (proj1 (forallb_forall thousandthOK (seq 0 1000)) thousandthOK_all (Z.to_nat k)) as H.
  assert (Hin : In (Z.to_nat k) (seq 0 1000)) by (apply in_seq; lia).
  specialize (H Hin). unfold thousandthOK in H. rewrite Z2Nat.id in H by lia.
  fold al in H. fold t in H.
  apply andb_prop in H as [H H4]. apply andb_prop in H as [H H3].
  apply andb_prop in H as [H1 H2].
  repeat split.
  - apply negb_true_iff. exact H1.
  - exact H2.
  - apply String.eqb_eq. exact H3.
  - apply FloatAxioms.Leibniz.eqb_spec. exact H4.
Qed.


Lemma lookup_rg (s : string) : lookup (String "r" (String "g" s)) names = None.
Proof. reflexivity. Qed.

Lemma not_transparent_rg (s : string) :
  String.eqb (String "r" (String "g" s)) "transparent" = false.
Proof. reflexivity. Qed.

Lemma trimEnd_paren (s : string) : JS.trimEnd (s ++ ")") = s ++ ")".
Proof. apply trimEnd_app; [reflexivity | discriminate]. Qed.

Lemma length_pos (s : string) : s <> "" -> (1 <= String.length s)%nat.
Proof. destruct s; [contradiction | cbn [String.length]; lia]. Qed.

Lemma app_nonempty (s t : string) : t <> "" -> s ++ t <> "".
Proof. intros H. destruct s; [exact H | discriminate]. Qed.

Ltac trim_end :=
  repeat first
    [ apply trimEnd_paren
    | apply trimEnd_app; [|repeat (apply app_nonempty); discriminate] ].

(** ["rgb(" + r + "," + g + "," + b + ")"] parses to the three integers. *)
Lemma parse_rgb (r0 g0 b0 : Z) :
  0 <= r0 < 256 -> 0 <= g0 < 256 -> 0 <= b0 < 256 ->
  stringInputToObject
    ("rgb(" ++ JS.toString10 (JS.float_of_Z r0) ++ "," ++ JS.toString10 (JS.float_of_Z g0)
     ++ "," ++ JS.toString10 (JS.float_of_Z b0) ++ ")")
  = Some (Object (Some (JS.float_of_Z r0)) (Some (JS.float_of_Z g0))
                 (Some (JS.float_of_Z b0)) (Some 1%float)).
Proof.
  intros Hr Hg Hb.
  destruct (decimal_byte r0 Hr) as (R1 & R2 & R3 & R4 & _).
  destruct (decimal_byte g0 Hg) as (G1 & G2 & G3 & G4 & _).
  destruct (decimal_byte b0 Hb) as (B1 & B2 & B3 & _ & B5).
  set (tr := JS.toString10 (JS.float_of_Z r0)) in *.
  set (tg := JS.toString10 (JS.float_of_Z g0)) in *.
  set (tb := JS.toString10 (JS.float_of_Z b0)) in *.
  set (s := "rgb(" ++ tr ++ "," ++ tg ++ "," ++ tb ++ ")").
  assert (Es : JS.toLowerCase (JS.trim s) = s).
  { unfold JS.trim.
    assert (Et : JS.trimEnd s = s).
    { subst s. trim_end. }
    change (JS.trimStart s) with s. rewrite Et.
    subst s. rewrite !toLowerCase_app, R2, G2, B2. reflexivity. }
  unfold stringInputToObject. rewrite Es.
  change s with (String "r" (String "g" (String "b" (String "("
                   (tr ++ "," ++ tg ++ "," ++ tb ++ ")"))))).
  rewrite lookup_rg, not_transparent_rg.
  change (String "r" (String "g" (String "b" (String "("
            (tr ++ "," ++ tg ++ "," ++ tb ++ ")")))))
    with (("rgb(" ++ tr) ++ String "," (tg ++ String "," (tb ++ ")"))).
  rewrite parseForms_three.
  - change (is_char (JS.at_ ("rgb(" ++ tr) 3) "a") with false. cbv iota.
    change 4 with (Z.of_nat (String.length "rgb(")).
    rewrite slice_drop, R4, G4, B5. reflexivity.
  - reflexivity.
  - change ("rgb(" ++ tr) with (String "r" (String "g" (String "b" (String "(" tr)))).
    cbn [noComma]. exact R1.
  - exact G1.
  - rewrite noComma_app, B1. reflexivity.
  - pose proof (length_pos tr R3). pose proof (length_pos tg G3).
    pose proof (length_pos tb B3).
    repeat (rewrite length_app; cbn [String.length]). lia.
Qed.


(** ["rgba(" + r + "," + g + "," + b + "," + a + ")"] parses to the three
    integers and to what [parseFloat] reads in the last component. *)
Lemma parse_rgba (r0 g0 b0 : Z) (ta : string) :
  0 <= r0 < 256 -> 0 <= g0 < 256 -> 0 <= b0 < 256 ->
  noComma ta = true -> JS.toLowerCase ta = ta ->
  stringInputToObject
    ("rgba(" ++ JS.toString10 (JS.float_of_Z r0) ++ "," ++ JS.toString10 (JS.float_of_Z g0)
     ++ "," ++ JS.toString10 (JS.float_of_Z b0) ++ "," ++ ta ++ ")")
  = Some (Object (Some (JS.float_of_Z r0)) (Some (JS.float_of_Z g0))
                 (Some (JS.float_of_Z b0)) (Some (JS.parseFloat (ta ++ ")")))).
Proof.
  intros Hr Hg Hb A1 A2.
  destruct (decimal_byte r0 Hr) as (R1 & R2 & R3 & R4 & _).
  destruct (decimal_byte g0 Hg) as (G1 & G2 & G3 & G4 & _).
  destruct (decimal_byte b0 Hb) as (B1 & B2 & B3 & B4 & _).
  set (tr := JS.toString10 (JS.float_of_Z r0)) in *.
  set (tg := JS.toString10 (JS.float_of_Z g0)) in *.
  set (tb := JS.toString10 (JS.float_of_Z b0)) in *.
  set (s := "rgba(" ++ tr ++ "," ++ tg ++ "," ++ tb ++ "," ++ ta ++ ")").
  assert (Es : JS.toLowerCase (JS.trim s) = s).
  { unfold JS.trim.
    assert (Et : JS.trimEnd s = s) by (subst s; trim_end).
    change (JS.trimStart s) with s. rewrite Et.
    subst s. rewrite !toLowerCase_app, R2, G2, B2, A2. reflexivity. }
  unfold stringInputToObject. rewrite Es.
  change s with (String "r" (String "g" (String "b" (String "a" (String "("
                   (tr ++ "," ++ tg ++ "," ++ tb ++ "," ++ ta ++ ")")))))).
  rewrite lookup_rg, not_transparent_rg.
  change (String "r" (String "g" (String "b" (String "a" (String "("
            (tr ++ "," ++ tg ++ "," ++ tb ++ "," ++ ta ++ ")"))))))
    with (("rgba(" ++ tr) ++ String "," (tg ++ String "," (tb ++ String "," (ta ++ ")")))).
  rewrite parseForms_four.
  - change (is_char (JS.at_ ("rgba(" ++ tr) 3) "a") with true. cbv iota.
    change 5 with (Z.of_nat (String.length "rgba(")).
    rewrite slice_drop, R4, G4, B4.
    destruct (ta ++ ")") as [|c a'] eqn:Ea; [|reflexivity].
    exfalso. revert Ea. apply app_nonempty. discriminate.
  - reflexivity.
  - change ("rgba(" ++ tr)
      with (String "r" (String "g" (String "b" (String "a" (String "(" tr))))).
    cbn [noComma]. exact R1.
  - exact G1.
  - exact B1.
  - rewrite noComma_app, A1. reflexivity.
  - pose proof (length_pos tr R3). pose proof (length_pos tg G3).
    pose proof (length_pos tb B3).
    repeat (rewrite length_app; cbn [String.length]). lia.
Qed.

Lemma toString_rgb_gamut (x y z al : float) :
  channelOK x = true -> channelOK y = true -> channelOK z = true ->
  toString (rgba x y z al) "rgb"
  = if (al =? 1)%float
    then "rgb(" ++ JS.toString10 (JS.float_of_Z (byteOf x)) ++ ","
         ++ JS.toString10 (JS.float_of_Z (byteOf y))
         ++ "," ++ JS.toString10 (JS.float_of_Z (byteOf z)) ++ ")"
    else "rgba(" ++ JS.toString10 (JS.float_of_Z (byteOf x)) ++ ","
         ++ JS.toString10 (JS.float_of_Z (byteOf y))
         ++ "," ++ JS.toString10 (JS.float_of_Z (byteOf z)) ++ ","
         ++ JS.toString10 (JS.Math_round (al * 1000) / 1000)%float ++ ")".
Proof.
  intros Hx Hy Hz. unfold toString. cbn [String.eqb Ascii.eqb Bool.eqb].
  rewrite r_rgba, g_rgba, b_rgba, a_rgba.
  rewrite !toString10_round by assumption. reflexivity.
Qed.

(** X6.  [webcolor(c.toString())] is [c] with its channels rounded by
    [Math.round], for every colour with channels in [0, 255] and an alpha
    [k/1000] with [k] in 0..1000; so it is [c] again when the channels are
    integers.  Either way [c.equals(c.toString())] holds. *)
Theorem rgb_roundtrip (x y z : float) (k : Z) :
  channelOK x = true -> channelOK y = true -> channelOK z = true -> 0 <= k <= 1000 ->
  let al := (JS.float_of_Z k / 1000)%float in
  let c := rgba x y z al in
  let c' := rgba (JS.float_of_Z (byteOf x)) (JS.float_of_Z (byteOf y))
                 (JS.float_of_Z (byteOf z)) al in
  webcolor (InString (toString c "rgb")) = Normal c'
  /\ (isByte x = true -> isByte y = true -> isByte z = true -> c' = c)
  /\ equals c (InString (toString c "rgb")) = Normal true.
Proof.
  intros Hx Hy Hz Hk al c c'.
  destruct (byteOf_spec x Hx) as [Bx _]. destruct (byteOf_spec y Hy) as [By _].
  destruct (byteOf_spec z Hz) as [Bz _].
  assert (E : webcolor (InString (toString c "rgb")) = Normal c').
  { subst c c' al. rewrite toString_rgb_gamut by assumption.
    destruct (Z.eq_dec k 1000) as [->|Hk'].
    - replace (JS.float_of_Z 1000 / 1000)%float with 1%float by (vm_compute; reflexivity).
      change (1 =? 1)%float with true. cbv iota.
      unfold webcolor. rewrite parse_rgb by lia. reflexivity.
    - destruct (decimal_thousandth k ltac:(lia)) as (A0 & A1 & A2 & A3).
      rewrite A0. unfold webcolor.
      rewrite parse_rgba, A3 by (assumption || lia). reflexivity. }
  assert (T : toString c' "rgb" = toString c "rgb").
  { subst c c'. rewrite !toString_rgb_gamut
      by (assumption || (apply channelOK_int; lia)).
    rewrite !byteOf_int by lia. reflexivity. }
  split; [exact E|]. split.
  - intros Ix Iy Iz. subst c c'. rewrite !isByte_byteOf by assumption. reflexivity.
  - unfold equals. rewrite E, T, String.eqb_refl. reflexivity.
Qed.

(** The channels 114.5, 0.4 and 255 print as 115, 0 and 255. *)
Lemma rgb_roundtrip_witness :
  webcolor (InString "rgba(115,0,255,0.6)") = Normal (rgba 115 0 255 0.6)%float.
Proof.
  pose proof (proj1 (rgb_roundtrip 114.5%float 0.4%float 255%float 600
                       eq_refl eq_refl eq_refl ltac:(lia))) as H.
  replace (toString _ "rgb") with "rgba(115,0,255,0.6)" in H by (vm_compute; reflexivity).
  rewrite H. vm_compute. reflexivity.
Defined.

End RgbRoundTrip.

(** *** [invert] *)

Section Invert.
Local Open Scope Z_scope.

Lemma lit_255 : @lit float float_arith 255 = JS.float_of_Z 255.
Proof. vm_compute. reflexivity. Qed.

Lemma invert_bytes (r0 g0 b0 : Z) (al : float) :
  0 <= r0 < 256 -> 0 <= g0 < 256 -> 0 <= b0 < 256 ->
  invert (rgba (JS.float_of_Z r0) (JS.float_of_Z g0) (JS.float_of_Z b0) al)
  = rgba (JS.float_of_Z (255 - r0)) (JS.float_of_Z (255 - g0)) (JS.float_of_Z (255 - b0)) al.
Proof.
  intros Hr Hg Hb. unfold invert. rewrite r_rgba, g_rgba, b_rgba, a_rgba.
  cbn [jsub float_arith]. rewrite lit_255.
  rewrite !float_sub_int by lia. reflexivity.
Qed.

(** X7.  [invert] is an involution on the colours with integer channels in
    0..255: it maps them to such colours, keeps the alpha, and applied twice
    gives the colour back.  In exact arithmetic it is an involution on all
    colours; in binary64 it is not (channel 0.1). *)
Theorem invert_involution (r0 g0 b0 : Z) (al : float) :
  0 <= r0 < 256 -> 0 <= g0 < 256 -> 0 <= b0 < 256 ->
  let c := rgba (JS.float_of_Z r0) (JS.float_of_Z g0) (JS.float_of_Z b0) al in
  invert c = rgba (JS.float_of_Z (255 - r0)) (JS.float_of_Z (255 - g0))
                  (JS.float_of_Z (255 - b0)) al
  /\ invert (invert c) = c
  /\ (forall c' : color R, invert (invert c') = rgba (r c') (g c') (b c') (a c'))
  /\ r (invert (invert (rgba 0.1 0 0 1)%float)) <> 0.1%float.
Proof.
  intros Hr Hg Hb c. subst c.
  split; [apply invert_bytes; assumption|].
  split.
  { rewrite invert_bytes by assumption. rewrite invert_bytes by lia.
    replace (255 - (255 - r0)) with r0 by lia.
    replace (255 - (255 - g0)) with g0 by lia.
    replace (255 - (255 - b0)) with b0 by lia. reflexivity. }
  split.
  { intros c'. unfold invert. rewrite !r_rgba, !g_rgba, !b_rgba, !a_rgba.
    cbn [jsub real_arith]. f_equal; lra. }
  intros H.
  assert (E : (r (invert (invert (rgba 0.1 0 0 1)%float)) =? 0.1)%float = true)
    by (rewrite H; reflexivity).
  vm_compute in E. discriminate E.
Qed.

Lemma invert_involution_witness :
  invert (rgba 67 196 3 0.6)%float = (rgba 188 59 252 0.6)%float.
Proof.
  pose proof (proj1 (invert_involution 67 196 3 0.6%float ltac:(lia) ltac:(lia) ltac:(lia))) as H.
  replace (JS.float_of_Z 67) with 67%float in H by (vm_compute; reflexivity).
  replace (JS.float_of_Z 196) with 196%float in H by (vm_compute; reflexivity).
  replace (JS.float_of_Z 3) with 3%float in H by (vm_compute; reflexivity).
  rewrite H. vm_compute. reflexivity.
Defined.

End Invert.

(** *** Ranges and the direction of [shadeBlend], in exact arithmetic *)

Section RealRanges.
Local Open Scope R_scope.

Lemma brightness_real (c : color R) :
  brightness c = (299 * r c + 587 * g c + 114 * b c) / 1000.
Proof. unfold brightness. real_ops. real_lits. lra. Qed.

Lemma Rdiv_le_bound (x y c : R) : 0 < y -> x <= c * y -> x / y <= c.
Proof.
  intros Hy H. apply (Rmult_le_reg_r y); [assumption|].
  unfold Rdiv. rewrite Rmult_assoc, Rinv_l by lra. lra.
Qed.

Lemma Rdiv_ge_bound (x y c : R) : 0 < y -> c * y <= x -> c <= x / y.
Proof.
  intros Hy H. apply (Rmult_le_reg_r y); [assumption|].
  unfold Rdiv. rewrite Rmult_assoc, Rinv_l by lra. lra.
Qed.

(** X8.  In exact arithmetic, for colours in the gamut: the brightness lies
    in [0, 255], the relative luminance in [0, 1], and the contrast ratio of
    two such colours in [1, 21]. *)
Theorem gamut_ranges (c0 c1 : color R) :
  inGamut c0 = true -> inGamut c1 = true -> memo_ok c0 -> memo_ok c1 ->
  0 <= fst (getBrightness c0) <= 255
  /\ 0 <= fst (getLuminance c0) <= 1
  /\ 1 <= contrastRatio c0 c1 <= 21.
Proof.
  intros H0 H1 M0 M1.
  apply inGamut_real in H0 as (Hr0 & Hg0 & Hb0 & _).
  apply inGamut_real in H1 as (Hr1 & Hg1 & Hb1 & _).
  destruct (getBrightness_memo c0 M0) as [Eb _].
  destruct (getLuminance_memo c0 M0) as [El0 _].
  destruct (getLuminance_memo c1 M1) as [El1 _].
  pose proof (luminance_range c0 Hr0 Hg0 Hb0) as L0.
  pose proof (luminance_range c1 Hr1 Hg1 Hb1) as L1.
  split; [|split].
  - rewrite Eb, brightness_real. lra.
  - rewrite El0. exact L0.
  - rewrite contrastRatio_real, El0, El1.
    unfold Rmax, Rmin. destruct (Rle_dec (luminance c0) (luminance c1)); split.
    + apply Rdiv_ge_bound; lra.
    + apply Rdiv_le_bound; lra.
    + apply Rdiv_ge_bound; lra.
    + apply Rdiv_le_bound; lra.
Qed.


Lemma gamut_ranges_witness :
  1 <= contrastRatio (hexffffff : color R) hex000000 <= 21.
Proof.
  apply (gamut_ranges hexffffff hex000000).
  - apply inGamut_real. unfold hexffffff. rewrite r_rgba, g_rgba, b_rgba, a_rgba.
    real_lits. lra.
  - apply inGamut_real. unfold hex000000. rewrite r_rgba, g_rgba, b_rgba, a_rgba.
    real_lits. lra.
  - apply fromObject_memo_ok.
  - apply fromObject_memo_ok.
Defined.

Lemma sqrt_sq_le (x y : R) : 0 <= x -> x * x <= y -> x <= sqrt y.
Proof.
  intros Hx H. rewrite <- (sqrt_square x) at 1 by assumption.
  apply sqrt_le_1_alt. exact H.
Qed.

Lemma sqrt_le_sq (x y : R) : 0 <= x -> y <= x * x -> sqrt y <= x.
Proof.
  intros Hx H. rewrite <- (sqrt_square x) at 1 by assumption.
  apply sqrt_le_1_alt. exact H.
Qed.

(** One channel blended toward 255 does not decrease, and toward 0 does not
    increase. *)
Lemma blendChannel_up (l : bool) (q x : R) :
  0 <= q <= 1 -> 0 <= x <= 255 ->
  x <= blendChannel l (jsub (lit 1) q) q x (lit 255) <= 255.
Proof.
  intros Hq Hx. replace (lit 255) with 255 by (real_lits; lra). split.
  - unfold blendChannel. destruct l.
    + real_ops. replace (lit 1) with 1 by (real_lits; lra).
      assert (0 <= q * (255 - x)) by (apply Rmult_le_pos; lra). lra.
    + cbn [jpow real_power]. rewrite !Rjs_pow_2. real_ops.
      replace (lit 1) with 1 by (real_lits; lra).
      assert (H1 : 0 <= q * (255 * 255 - x * x)) by (apply Rmult_le_pos; nra).
      assert (H2 : 0 <= (1 - q) * (x * x)) by (apply Rmult_le_pos; nra).
      rewrite Rjs_pow_half by lra.
      apply sqrt_sq_le; lra.
  - apply blendChannel_real; lra.
Qed.

Lemma blendChannel_down (l : bool) (q x : R) :
  0 <= q <= 1 -> 0 <= x <= 255 ->
  0 <= blendChannel l (jsub (lit 1) q) q x (lit 0) <= x.
Proof.
  intros Hq Hx. replace (lit 0) with 0 by (real_lits; lra). split.
  - apply blendChannel_real; lra.
  - unfold blendChannel. destruct l.
    + real_ops. replace (lit 1) with 1 by (real_lits; lra).
      assert (0 <= q * x) by (apply Rmult_le_pos; lra). lra.
    + cbn [jpow real_power]. rewrite !Rjs_pow_2. real_ops.
      replace (lit 1) with 1 by (real_lits; lra).
      assert (H1 : 0 <= q * (x * x)) by (apply Rmult_le_pos; nra).
      assert (H2 : 0 <= (1 - q) * (x * x)) by (apply Rmult_le_pos; nra).
      rewrite Rjs_pow_half by lra.
      apply sqrt_le_sq; lra.
Qed.


Lemma shadeBlend_toward_white (c : color R) (p : R) (l : bool) :
  0 <= p <= 1 ->
  shadeBlend c p None l
  = Some (rgba (blendChannel l (jsub (lit 1) p) p (r c) (lit 255))
               (blendChannel l (jsub (lit 1) p) p (g c) (lit 255))
               (blendChannel l (jsub (lit 1) p) p (b c) (lit 255))
               (blendAlpha (jsub (lit 1) p) p (a c) (lit 1))).
Proof.
  intros Hp.
  assert (E1 : jlt p (lit (-1)) = false) by (apply real_jlt_false; real_lits; lra).
  assert (E2 : jlt (lit 1) p = false) by (apply real_jlt_false; real_lits; lra).
  assert (E3 : jlt p (lit 0) = false) by (apply real_jlt_false; real_lits; lra).
  unfold shadeBlend. rewrite E1, E2, E3. cbn [orb].
  rewrite r_rgba, g_rgba, b_rgba, a_rgba. reflexivity.
Qed.

Lemma shadeBlend_toward_black (c : color R) (p : R) (l : bool) :
  0 < p <= 1 ->
  shadeBlend c (- p) None l
  = Some (rgba (blendChannel l (jsub (lit 1) p) p (r c) (lit 0))
               (blendChannel l (jsub (lit 1) p) p (g c) (lit 0))
               (blendChannel l (jsub (lit 1) p) p (b c) (lit 0))
               (blendAlpha (jsub (lit 1) p) p (a c) (lit 1))).
Proof.
  intros Hp.
  assert (E1 : jlt (- p) (lit (-1)) = false) by (apply real_jlt_false; real_lits; lra).
  assert (E2 : jlt (lit 1) (- p) = false) by (apply real_jlt_false; real_lits; lra).
  assert (E3 : jlt (- p) (lit 0) = true) by (apply real_jlt; real_lits; lra).
  assert (E4 : jmul (- p) (lit (-1)) = p) by (real_ops; real_lits; lra).
  unfold shadeBlend. rewrite E1, E2, E3. cbn [orb].
  rewrite E4, r_rgba, g_rgba, b_rgba, a_rgba. reflexivity.
Qed.

Lemma blendAlpha_opaque (q a0 : R) :
  0 <= q <= 1 -> 0 <= a0 <= 1 ->
  blendAlpha (jsub (lit 1) q) q a0 (lit 1) = a0 * (1 - q) + q.
Proof.
  intros Hq Ha. unfold blendAlpha.
  assert (E1 : jle (lit 0) a0 = true) by (apply real_jle; real_lits; lra).
  assert (E2 : jlt a0 (lit 0) = false) by (apply real_jlt_false; real_lits; lra).
  assert (E3 : jlt (lit 1) (lit 0) = false) by (apply real_jlt_false; real_lits; lra).
  rewrite E1, E2, E3. cbn [orb]. real_ops. real_lits. lra.
Qed.

Lemma blendChannel_one (l : bool) (x y : R) :
  0 <= y -> blendChannel l (jsub (lit 1) 1) 1 x y = y.
Proof.
  intros Hy. unfold blendChannel. destruct l.
  - real_ops. real_lits. lra.
  - cbn [jpow real_power]. rewrite !Rjs_pow_2. real_ops.
    replace ((lit 1 - 1) * (x * x) + 1 * (y * y)) with (y * y) by (real_lits; lra).
    rewrite Rjs_pow_half by nra. apply sqrt_square. exact Hy.
Qed.

(** X9.  In exact arithmetic, for a colour in the gamut and [0 < p <= 1]:
    [shadeBlend(p)] lightens (no channel decreases, none exceeds 255),
    [shadeBlend(-p)] darkens (no channel increases, none falls below 0), in
    both blend modes; either way the alpha moves toward 1, to
    [a (1 - p) + p]; and [shadeBlend(1)] is opaque white, [shadeBlend(-1)]
    opaque black. *)
Theorem shadeBlend_direction (c : color R) (p : R) (l : bool) :
  inGamut c = true -> 0 < p <= 1 ->
  (exists c', shadeBlend c p None l = Some c'
     /\ r c <= r c' <= 255 /\ g c <= g c' <= 255 /\ b c <= b c' <= 255
     /\ a c' = a c * (1 - p) + p)
  /\ (exists c', shadeBlend c (- p) None l = Some c'
     /\ 0 <= r c' <= r c /\ 0 <= g c' <= g c /\ 0 <= b c' <= b c
     /\ a c' = a c * (1 - p) + p)
  /\ (p = 1 ->
      shadeBlend c p None l = Some (rgba 255 255 255 1)
      /\ shadeBlend c (- p) None l = Some (rgba 0 0 0 1)).
Proof.
  intros Hc Hp. apply inGamut_real in Hc as (Hr & Hg & Hb & Ha).
  split; [|split].
  - eexists. split; [apply shadeBlend_toward_white; lra|].
    rewrite r_rgba, g_rgba, b_rgba, a_rgba.
    repeat split; try (apply blendChannel_up; lra).
    apply blendAlpha_opaque; lra.
  - eexists. split; [apply shadeBlend_toward_black; lra|].
    rewrite r_rgba, g_rgba, b_rgba, a_rgba.
    repeat split; try (apply blendChannel_down; lra).
    apply blendAlpha_opaque; lra.
  - intros ->.
    assert (E255 : @lit R real_arith 255 = 255) by (real_lits; lra).
    assert (E0 : @lit R real_arith 0 = 0) by (real_lits; lra).
    rewrite shadeBlend_toward_white, shadeBlend_toward_black by lra.
    rewrite !blendChannel_one by (rewrite ?E255, ?E0; lra).
    rewrite blendAlpha_opaque by lra.
    rewrite E255, E0.
    replace (a c * (1 - 1) + 1) with 1 by lra. split; reflexivity.
Qed.

Lemma shadeBlend_direction_witness :
  shadeBlend (rgba 128 128 128 1 : color R) 1 None false = Some (rgba 255 255 255 1).
Proof.
  apply (shadeBlend_direction (rgba 128 128 128 1) 1 false).
  - apply inGamut_real. rewrite r_rgba, g_rgba, b_rgba, a_rgba. lra.
  - lra.
  - reflexivity.
Defined.

(** X10.  With an explicit blend colour the sign of [p] is ignored: in exact
    arithmetic [shadeBlend(-p, c1, l)] is [shadeBlend(p, c1, l)]. *)
Theorem shadeBlend_sign_ignored (c t : color R) (p : R) (l : bool) :
  0 <= p <= 1 ->
  shadeBlend c (- p) (Some t) l = shadeBlend c p (Some t) l.
Proof.
  intros Hp. destruct (Req_dec_T p 0) as [->|Hp0].
  - rewrite Ropp_0. reflexivity.
  - assert (E1 : jlt (- p) (lit (-1)) = false) by (apply real_jlt_false; real_lits; lra).
    assert (E2 : jlt (lit 1) (- p) = false) by (apply real_jlt_false; real_lits; lra).
    assert (E3 : jlt (- p) (lit 0) = true) by (apply real_jlt; real_lits; lra).
    assert (E4 : jmul (- p) (lit (-1)) = p) by (real_ops; real_lits; lra).
    assert (F1 : jlt p (lit (-1)) = false) by (apply real_jlt_false; real_lits; lra).
    assert (F2 : jlt (lit 1) p = false) by (apply real_jlt_false; real_lits; lra).
    assert (F3 : jlt p (lit 0) = false) by (apply real_jlt_false; real_lits; lra).
    unfold shadeBlend. rewrite E1, E2, E3, F1, F2, F3. cbn [orb]. rewrite E4. reflexivity.
Qed.

Lemma shadeBlend_sign_ignored_witness :
  shadeBlend (rgba 10 20 30 1 : color R) (- (1 / 2)) (Some (rgba 200 100 50 1)) true
  = shadeBlend (rgba 10 20 30 1 : color R) (1 / 2) (Some (rgba 200 100 50 1)) true.
Proof. apply shadeBlend_sign_ignored. lra. Defined.

End RealRanges.

(** *** The two extremes of the direction policy *)

Section Extremes.
Local Open Scope R_scope.

Lemma luminance_black : luminance (hex000000 : color R) = 0.
Proof.
  rewrite luminance_real. unfold hex000000. rewrite r_rgba, g_rgba, b_rgba.
  replace (lit 0) with 0 by (real_lits; lra).
  rewrite linearChannel_low by lra. lra.
Qed.

Lemma luminance_white : luminance (hexffffff : color R) = 1.
Proof.
  rewrite luminance_real. unfold hexffffff. rewrite r_rgba, g_rgba, b_rgba.
  replace (lit 255) with 255 by (real_lits; lra).
  rewrite linearChannel_high by lra.
  replace ((255 / 255 + 55 / 1000) / (1055 / 1000)) with 1 by lra.
  rewrite Rpower_one. lra.
Qed.

Lemma contrast_against_extremes (c : color R) :
  memo_ok c -> 0 <= luminance c <= 1 ->
  contrastRatio c hex000000 = (luminance c + 5 / 100) / (5 / 100)
  /\ contrastRatio c hexffffff = (105 / 100) / (luminance c + 5 / 100).
Proof.
  intros M L. destruct (getLuminance_memo c M) as [El _].
  rewrite !contrastRatio_real, El.
  change (fst (getLuminance (hex000000 : color R))) with (luminance (hex000000 : color R)).
  change (fst (getLuminance (hexffffff : color R))) with (luminance (hexffffff : color R)).
  rewrite luminance_black, luminance_white.
  rewrite Rmax_left, Rmin_right, Rmax_right, Rmin_left by lra.
  split; f_equal; lra.
Qed.

(** X17.  In exact arithmetic, for a colour in the gamut with luminance [l],
    the contrast ratios against [#000000] and against [#ffffff] multiply to
    21.  So when [cmin * cmin < 21] (the default 4.5 does) at least one of the
    two tests of the direction policy, [contrastRatio('#000000') > cmin] and
    [contrastRatio('#ffffff') > cmin], succeeds; in general both fail exactly
    when [1.05 <= cmin (l + 0.05)] and [l + 0.05 <= 0.05 cmin]. *)
Theorem extremes_contrast (c : color R) (cmin : R) :
  inGamut c = true -> memo_ok c -> 0 < cmin ->
  contrastRatio c hex000000 * contrastRatio c hexffffff = 21
  /\ (cmin * cmin < 21 ->
      jlt cmin (contrastRatio c hex000000) = true
      \/ jlt cmin (contrastRatio c hexffffff) = true)
  /\ (jlt cmin (contrastRatio c hex000000) = false
      /\ jlt cmin (contrastRatio c hexffffff) = false
      <-> 105 / 100 <= cmin * (luminance c + 5 / 100)
          /\ luminance c + 5 / 100 <= 5 / 100 * cmin).
Proof.
  intros Hc M H0. apply inGamut_real in Hc as (Hr & Hg & Hb & _).
  pose proof (luminance_range c Hr Hg Hb) as L.
  destruct (contrast_against_extremes c M L) as [EB EW].
  set (l := luminance c) in *.
  assert (Hl : 0 < l + 5 / 100) by lra.
  assert (FB : ~ cmin < contrastRatio c hex000000 <-> l + 5 / 100 <= 5 / 100 * cmin).
  { rewrite EB. split; intros H.
    - apply Rnot_lt_le in H. apply (Rmult_le_compat_r (5 / 100)) in H; [|lra].
      unfold Rdiv in H at 1. rewrite Rmult_assoc, Rinv_l, Rmult_1_r in H by lra. lra.
    - apply Rle_not_lt. apply Rdiv_le_bound; lra. }
  assert (FW : ~ cmin < contrastRatio c hexffffff <-> 105 / 100 <= cmin * (l + 5 / 100)).
  { rewrite EW. split; intros H.
    - apply Rnot_lt_le in H. apply (Rmult_le_compat_r (l + 5 / 100)) in H; [|lra].
      unfold Rdiv in H at 1. rewrite Rmult_assoc, Rinv_l, Rmult_1_r in H by lra. lra.
    - apply Rle_not_lt. apply Rdiv_le_bound; lra. }
  split; [|split].
  - rewrite EB, EW. field. lra.
  - intros Hs.
    destruct (Rlt_dec cmin (contrastRatio c hex000000)) as [H|H].
    + left. apply real_jlt. exact H.
    + right. apply real_jlt.
      destruct (Rlt_dec cmin (contrastRatio c hexffffff)) as [H'|H']; [exact H'|].
      exfalso. apply FB in H. apply FW in H'.
      assert (cmin * (l + 5 / 100) <= cmin * (5 / 100 * cmin))
        by (apply Rmult_le_compat_l; lra).
      nra.
  - rewrite !real_jlt_false, FB, FW. tauto.
Qed.

Lemma extremes_contrast_witness :
  contrastRatio grey808080 hex000000 * contrastRatio grey808080 hexffffff = 21.
Proof.
  apply (extremes_contrast grey808080 (45 / 10)).
  - apply inGamut_real. unfold grey808080. rewrite r_rgba, g_rgba, b_rgba, a_rgba. lra.
  - apply fromObject_memo_ok.
  - lra.
Defined.

End Extremes.

(** *** The brightness test on 8-bit colours *)

Section Brightness.
Local Open Scope Z_scope.

Lemma darkOK_all : darkOK (Z.to_nat 255001) 0%float 0 = true.
Proof. vm_compute. reflexivity. Qed.

Lemma darkOK_at (n : nat) (s k : Z) :
  0 <= s -> s + Z.of_nat n < 2 ^ 53 ->
  darkOK n (JS.float_of_Z s) s = true ->
  s <= k < s + Z.of_nat n ->
  (JS.float_of_Z k / 1000 <? 128)%float = (k <? 128000).
Proof.
  revert s. induction n as [|n IH]; intros s Hs Hn H Hk; [lia|].
  cbn [darkOK] in H. apply andb_prop in H as [H1 H2].
  destruct (Z.eq_dec k s) as [->|Hne].
  - apply Bool.eqb_prop. exact H1.
  - apply (IH (s + 1)); try lia.
    replace 1%float with (JS.float_of_Z 1) in H2 by reflexivity.
    rewrite float_add_int in H2 by lia. exact H2.
Qed.

Lemma brightness_bytes (r0 g0 b0 : Z) (al : float) :
  0 <= r0 < 256 -> 0 <= g0 < 256 -> 0 <= b0 < 256 ->
  brightness (rgba (JS.float_of_Z r0) (JS.float_of_Z g0) (JS.float_of_Z b0) al)
  = (JS.float_of_Z (299 * r0 + 587 * g0 + 114 * b0) / 1000)%float.
Proof.
  intros Hr Hg Hb. unfold brightness. rewrite r_rgba, g_rgba, b_rgba.
  cbn [jadd jmul jdiv float_arith].
  replace (@lit float float_arith 299) with (JS.float_of_Z 299) by (vm_compute; reflexivity).
  replace (@lit float float_arith 587) with (JS.float_of_Z 587) by (vm_compute; reflexivity).
  replace (@lit float float_arith 114) with (JS.float_of_Z 114) by (vm_compute; reflexivity).
  replace (@lit float float_arith 1000) with 1000%float by (vm_compute; reflexivity).
  rewrite !float_mul_int by lia. rewrite !float_add_int by lia.
  f_equal. f_equal. lia.
Qed.

(** X11.  For integer channels in 0..255 the binary64 brightness test is
    exact: [isDark()] is true iff [299 r + 587 g + 114 b < 128000]; and
    [contrastingColor()] without a target returns the colour with all
    channels 255 for these, and the colour with all channels 0 otherwise. *)
Theorem isDark_bytes (pw : float -> float -> float) (fuel : nat) (cmin : float)
    (r0 g0 b0 : Z) (al : float) :
  0 <= r0 < 256 -> 0 <= g0 < 256 -> 0 <= b0 < 256 ->
  let c := rgba (JS.float_of_Z r0) (JS.float_of_Z g0) (JS.float_of_Z b0) al in
  isDark c = (299 * r0 + 587 * g0 + 114 * b0 <? 128000)
  /\ contrastingColor (PW := float_power pw) fuel c None cmin
     = Some (Normal (if 299 * r0 + 587 * g0 + 114 * b0 <? 128000
                     then rgb 255%float 255%float 255%float
                     else rgb 0%float 0%float 0%float)).
Proof.
  intros Hr Hg Hb c.
  assert (E : isDark c = (299 * r0 + 587 * g0 + 114 * b0 <? 128000)).
  { unfold isDark, getBrightness. subst c. cbn [cb rgba fromObject fst].
    change (Color _ _ _ _ None None)
      with (rgba (JS.float_of_Z r0) (JS.float_of_Z g0) (JS.float_of_Z b0) al).
    rewrite brightness_bytes by assumption.
    cbn [jlt float_arith].
    replace (@lit float float_arith 128) with 128%float by (vm_compute; reflexivity).
    apply (darkOK_at (Z.to_nat 255001) 0); rewrite ?Z2Nat.id; try lia.
    exact darkOK_all. }
  split; [exact E|].
  unfold contrastingColor. rewrite E.
  destruct (299 * r0 + 587 * g0 + 114 * b0 <? 128000); reflexivity.
Qed.


Lemma isDark_bytes_witness :
  isDark (rgba (JS.float_of_Z 128) (JS.float_of_Z 128) (JS.float_of_Z 128) 1%float) = false.
Proof.
  exact (proj1 (isDark_bytes (fun x _ => x) 0 0%float 128 128 128 1%float
                  ltac:(lia) ltac:(lia) ltac:(lia))).
Defined.

End Brightness.

(** *** The loop never throws *)

Section LoopOutcomes.

Lemma shade_step_some (pw : float -> float -> float) (t : color float) (sd : float) :
  sd = lit 1 \/ sd = lit (-1) ->
  exists t', shadeBlend (PW := float_power pw) t (jmul (lit 0.2) sd) None false = Some t'.
Proof.
  intros [-> | ->]; unfold shadeBlend.
  - replace (jlt (jmul (lit 0.2) (lit 1)) (lit (-1)) || jlt (lit 1) (jmul (lit 0.2) (lit 1)))
      with false by (vm_compute; reflexivity).
    eexists. reflexivity.
  - replace (jlt (jmul (lit 0.2) (lit (-1))) (lit (-1))
             || jlt (lit 1) (jmul (lit 0.2) (lit (-1))))
      with false by (vm_compute; reflexivity).
    eexists. reflexivity.
Qed.

Lemma contrastingLoop_no_throw (pw : float -> float -> float) (fuel : nat)
    (this t : color float) (cmin : float) (m : bool) :
  contrastingLoop (PW := float_power pw) fuel this t cmin m <> Some TypeError.
Proof.
  revert t m. induction fuel as [|fuel IH]; intros t m; cbn [contrastingLoop];
    destruct (jlt (contrastRatio (PW := float_power pw) this t) cmin && negb m);
    try discriminate.
  destruct (shade_step_some pw t (shadeDirection (PW := float_power pw) this t cmin)
              (shadeDirection_cases (PW := float_power pw) this t cmin)) as [t' E].
  rewrite E. apply IH.
Qed.

(** X12.  In binary64, whatever [Math.pow] computes, [contrastingColor] never
    throws: the step [0.2 * sd] always lies in [-1, 1], so [shadeBlend] inside
    the loop never returns [null].  The call returns a colour or does not return. *)
Theorem contrastingColor_never_throws (pw : float -> float -> float) (fuel : nat)
    (this : color float) (targetcolor : option (color float)) (cmin : float) :
  contrastingColor (PW := float_power pw) fuel this targetcolor cmin <> Some TypeError.
Proof.
  unfold contrastingColor. destruct targetcolor as [t|].
  - apply contrastingLoop_no_throw.
  - destruct (isDark this); discriminate.
Qed.

End LoopOutcomes.

(** *** What the loop keeps *)

(** The two strings [contrastingColor] passes to [contrastRatio] construct
    the two colours the loop is written with. *)
Lemma hex_literals_parse :
  webcolor (InString "#000000") = Normal hex000000
  /\ webcolor (InString "#ffffff") = Normal hexffffff.
Proof. split; vm_compute; reflexivity. Qed.

Section LoopInvariants.

Variable pw : float -> float -> float.

(** One round of the loop on an opaque candidate gives an opaque candidate,
    and on a grey one a grey one. *)
Lemma shade_step_keeps (t t' : color float) (sd : float) :
  sd = lit 1 \/ sd = lit (-1) ->
  shadeBlend (PW := float_power pw) t (jmul (lit 0.2) sd) None false = Some t' ->
  (a t = 1%float -> a t' = 1%float)
  /\ (r t = g t -> g t = b t -> r t' = g t' /\ g t' = b t').
Proof.
  intros [-> | ->]; unfold shadeBlend.
  - replace (jlt (jmul (lit 0.2) (lit 1)) (lit (-1)) || jlt (lit 1) (jmul (lit 0.2) (lit 1)))
      with false by (vm_compute; reflexivity).
    replace (jlt (jmul (lit 0.2) (lit 1)) (lit 0)) with false by (vm_compute; reflexivity).
    intros H. injection H as <-. rewrite r_rgba, g_rgba, b_rgba, a_rgba. split.
    + intros ->. vm_compute. reflexivity.
    + intros -> ->. split; reflexivity.
  - replace (jlt (jmul (lit 0.2) (lit (-1))) (lit (-1))
             || jlt (lit 1) (jmul (lit 0.2) (lit (-1))))
      with false by (vm_compute; reflexivity).
    replace (jlt (jmul (lit 0.2) (lit (-1))) (lit 0)) with true by (vm_compute; reflexivity).
    intros H. injection H as <-. rewrite r_rgba, g_rgba, b_rgba, a_rgba. split.
    + intros ->. vm_compute. reflexivity.
    + intros -> ->. split; reflexivity.
Qed.

Lemma contrastingLoop_keeps (fuel : nat) (this t c : color float) (cmin : float) (m : bool) :
  contrastingLoop (PW := float_power pw) fuel this t cmin m = Some (Normal c) ->
  (a t = 1%float -> a c = 1%float)
  /\ (r t = g t -> g t = b t -> r c = g c /\ g c = b c).
Proof.
  revert t m. induction fuel as [|fuel IH]; intros t m; cbn [contrastingLoop];
    destruct (jlt (contrastRatio (PW := float_power pw) this t) cmin && negb m).
  - discriminate.
  - intros H. injection H as <-. split; auto.
  - destruct (shadeBlend (PW := float_power pw) t
                (jmul (lit 0.2) (shadeDirection (PW := float_power pw) this t cmin))
                None false) as [t'|] eqn:E; [|discriminate].
    intros H. apply IH in H as [Ha Hg].
    destruct (shade_step_keeps t t' _
                (shadeDirection_cases (PW := float_power pw) this t cmin) E) as [Ka Kg].
    split.
    + intros H1. apply Ha, Ka, H1.
    + intros H1 H2. destruct (Kg H1 H2) as [G1 G2]. apply Hg; assumption.
  - intros H. injection H as <-. split; auto.
Qed.

End LoopInvariants.

(** X19.  In binary64, whatever [Math.pow] computes: when
    [contrastingColor] with a target returns, an opaque target (alpha 1)
    gives an opaque result, and a grey target ([r = g = b]) a grey result. *)
Theorem contrastingColor_keeps (pw : float -> float -> float) (fuel : nat)
    (this t c : color float) (cmin : float) :
  contrastingColor (PW := float_power pw) fuel this (Some t) cmin = Some (Normal c) ->
  (a t = 1%float -> a c = 1%float)
  /\ (r t = g t -> g t = b t -> r c = g c /\ g c = b c).
Proof. unfold contrastingColor. apply contrastingLoop_keeps. Qed.

(** [rgb(9,9,9)] against [rgb(10,10,10)] with [cmin = 1.01]: the loop runs
    one round, which darkens the target; the luminances stay in the linear
    branch, so [Math.pow] is only called by [shadeBlend]. *)
Lemma contrastingColor_keeps_witness :
  contrastingColor (PW := float_power pow_special) 0 (rgba 10 10 10 1)%float
    (Some (rgba 9 9 9 1)%float) 1.01%float = None
  /\ exists c : color float,
       contrastingColor (PW := float_power pow_special) 1 (rgba 10 10 10 1)%float
         (Some (rgba 9 9 9 1)%float) 1.01%float = Some (Normal c)
       /\ PrimFloat.ltb (r c) 9 = true
       /\ a c = 1%float /\ r c = g c /\ g c = b c.
Proof.
  split; [vm_compute; reflexivity|].
  destruct (contrastingColor (PW := float_power pow_special) 1 (rgba 10 10 10 1)%float
              (Some (rgba 9 9 9 1)%float) 1.01%float) as [[c|]|] eqn:E;
    [| vm_compute in E; discriminate E | vm_compute in E; discriminate E].
  exists c. split; [reflexivity|].
  destruct (contrastingColor_keeps pow_special 1 (rgba 10 10 10 1)%float
              (rgba 9 9 9 1)%float c 1.01%float E) as [Ha Hg].
  split.
  - vm_compute in E. injection E as <-. vm_compute. reflexivity.
  - split; [apply Ha; reflexivity | apply Hg; reflexivity].
Defined.

(** *** Memoisation is transparent *)

Section Memo.

Context {num : Type} {AR : Arith num} {PW : Power num}.

(** X13.  Memoisation is transparent.  After [getBrightness()] and
    [getLuminance()] the receiver has the same channels and alpha and holds
    both values; the getters then return what they returned before, and so do
    [isDark()] and [contrastRatio()] on either side. *)
Theorem memo_transparent (c d : color num) :
  memo_ok c ->
  let c' := snd (getLuminance (snd (getBrightness c))) in
  memo_ok c'
  /\ r c' = r c /\ g c' = g c /\ b c' = b c /\ a c' = a c
  /\ cb c' = Some (brightness c) /\ rl c' = Some (luminance c)
  /\ fst (getBrightness c') = fst (getBrightness c)
  /\ fst (getLuminance c') = fst (getLuminance c)
  /\ isDark c' = isDark c
  /\ contrastRatio c' d = contrastRatio c d
  /\ contrastRatio d c' = contrastRatio d c.
Proof.
  intros [[Hc | Hc] [Hl | Hl]] c'; subst c';
    unfold memo_ok, cb_ok, rl_ok, contrastRatio, isDark, getLuminance, getBrightness;
    rewrite Hc; cbn [snd fst rl cb r g b a]; rewrite ?Hl, ?Hc; cbn [snd fst rl cb r g b a];
    rewrite ?Hl, ?Hc; repeat split; auto.
Qed.

End Memo.

(** Mid grey, over the reals. *)
Lemma memo_transparent_witness :
  contrastRatio (snd (getLuminance (snd (getBrightness grey808080)))) grey808080
  = contrastRatio grey808080 grey808080.
Proof.
  apply (memo_transparent (num := R) grey808080 grey808080).
  apply fromObject_memo_ok.
Defined.

(** *** Normalisation of the input, and the keywords *)

Section Normalisation.
Local Open Scope string_scope.

Ltac each_char c := destruct c as [[] [] [] [] [] [] [] []].

Lemma lowerChar_idem (c : ascii) : JS.lowerChar (JS.lowerChar c) = JS.lowerChar c.
Proof. each_char c; reflexivity. Qed.

Lemma lowerChar_space (c : ascii) : JS.isWhiteSpace (JS.lowerChar c) = JS.isWhiteSpace c.
Proof. each_char c; reflexivity. Qed.

Lemma toLowerCase_idem (s : string) : JS.toLowerCase (JS.toLowerCase s) = JS.toLowerCase s.
Proof.
  induction s as [|c s IH]; cbn [JS.toLowerCase]; [reflexivity|].
  rewrite lowerChar_idem, IH. reflexivity.
Qed.

Lemma trimStart_lower (s : string) :
  JS.trimStart (JS.toLowerCase s) = JS.toLowerCase (JS.trimStart s).
Proof.
  induction s as [|c s IH]; cbn [JS.toLowerCase JS.trimStart]; [reflexivity|].
  rewrite lowerChar_space. destruct (JS.isWhiteSpace c); [exact IH | reflexivity].
Qed.

Lemma toLowerCase_empty (s : string) : JS.toLowerCase s = "" <-> s = "".
Proof. destruct s; cbn [JS.toLowerCase]; split; intros H; (reflexivity || discriminate H). Qed.

Lemma trimEnd_lower (s : string) :
  JS.trimEnd (JS.toLowerCase s) = JS.toLowerCase (JS.trimEnd s).
Proof.
  induction s as [|c s IH]; cbn [JS.toLowerCase JS.trimEnd]; [reflexivity|].
  rewrite IH, lowerChar_space.
  destruct (JS.trimEnd s) as [|c' t]; cbn [JS.toLowerCase].
  - destruct (JS.isWhiteSpace c); reflexivity.
  - reflexivity.
Qed.

Lemma trimStart_idem (s : string) : JS.trimStart (JS.trimStart s) = JS.trimStart s.
Proof.
  induction s as [|c s IH]; cbn [JS.trimStart]; [reflexivity|].
  destruct (JS.isWhiteSpace c) eqn:E; [exact IH|].
  cbn [JS.trimStart]. rewrite E. reflexivity.
Qed.

Lemma trimEnd_idem (s : string) : JS.trimEnd (JS.trimEnd s) = JS.trimEnd s.
Proof.
  induction s as [|c s IH]; cbn [JS.trimEnd]; [reflexivity|].
  destruct (JS.trimEnd s) as [|c' t] eqn:E.
  - destruct (JS.isWhiteSpace c) eqn:Ec; [reflexivity|].
    cbn [JS.trimEnd]. rewrite Ec. reflexivity.
  - cbn [JS.trimEnd] in *. rewrite IH. reflexivity.
Qed.

(** Trimming the end keeps a first character that is not white space. *)
Lemma trimStart_trimEnd (s : string) :
  JS.trimStart s = s -> JS.trimStart (JS.trimEnd s) = JS.trimEnd s.
Proof.
  destruct s as [|c s]; [reflexivity|]. cbn [JS.trimStart].
  destruct (JS.isWhiteSpace c) eqn:Ec.
  - intros H. exfalso.
    assert (L : forall u, (String.length (JS.trimStart u) <= String.length u)%nat).
    { induction u as [|x u IHu]; cbn [JS.trimStart String.length]; [lia|].
      destruct (JS.isWhiteSpace x); cbn [String.length]; lia. }
    pose proof (L s) as Hl. rewrite H in Hl. cbn [String.length] in Hl. lia.
  - intros _. cbn [JS.trimEnd].
    destruct (JS.trimEnd s) as [|c' t]; rewrite ?Ec; cbn [JS.trimStart]; rewrite Ec; reflexivity.
Qed.

Lemma trim_idem (s : string) : JS.trim (JS.trim s) = JS.trim s.
Proof.
  unfold JS.trim.
  rewrite (trimStart_trimEnd (JS.trimStart s)) by apply trimStart_idem.
  apply trimEnd_idem.
Qed.

Lemma trim_lower (s : string) : JS.trim (JS.toLowerCase s) = JS.toLowerCase (JS.trim s).
Proof. unfold JS.trim. rewrite trimStart_lower, trimEnd_lower. reflexivity. Qed.

Lemma normal_idem (s : string) :
  JS.toLowerCase (JS.trim (JS.toLowerCase (JS.trim s))) = JS.toLowerCase (JS.trim s).
Proof. rewrite trim_lower, trim_idem, toLowerCase_idem. reflexivity. Qed.

(** X14.  The constructor reads a string only through [s.trim().toLowerCase()]:
    strings with the same trimmed, lower-cased form construct the same colour
    (or both throw), and a string constructs what its own trimmed, lower-cased
    form constructs. *)
Theorem webcolor_normalises (s s' : string) :
  (JS.toLowerCase (JS.trim s) = JS.toLowerCase (JS.trim s') ->
   webcolor (InString s) = webcolor (InString s'))
  /\ webcolor (InString (JS.toLowerCase (JS.trim s))) = webcolor (InString s).
Proof.
  split.
  - intros H. unfold webcolor. rewrite (stringInputToObject_normal s s' H). reflexivity.
  - unfold webcolor.
    rewrite (stringInputToObject_normal (JS.toLowerCase (JS.trim s)) s (normal_idem s)).
    reflexivity.
Qed.

Lemma webcolor_normalises_witness :
  webcolor (InString "  #FFF ") = webcolor (InString "#fff").
Proof. apply (proj1 (webcolor_normalises "  #FFF " "#fff")). reflexivity. Defined.

Lemma namedOK_all : forallb namedOK names = true.
Proof. vm_compute. reflexivity. Qed.

(** X15.  Every keyword of the table, in any letter case and with white
    space around it, constructs an opaque colour whose channels are integers
    in 0..255; none throws. *)
Theorem named_colors_are_bytes (name hex s : string) :
  In (name, hex) names ->
  JS.toLowerCase (JS.trim s) = name ->
  exists r0 g0 b0,
    (0 <= r0 < 256 /\ 0 <= g0 < 256 /\ 0 <= b0 < 256)%Z
    /\ webcolor (InString s)
       = Normal (rgba (JS.float_of_Z r0) (JS.float_of_Z g0) (JS.float_of_Z b0) 1%float).
Proof.
  intros Hin Hs.
  pose proof (proj1 (forallb_forall roundtrips names) names_roundtrip _ Hin) as Hn.
  unfold roundtrips in Hn. cbn [fst snd] in Hn.
  apply andb_prop in Hn as [Hn _]. apply String.eqb_eq in Hn.
  pose proof (proj1 (forallb_forall namedOK names) namedOK_all _ Hin) as H.
  unfold namedOK in H. cbn [fst] in H.
  assert (E : webcolor (InString s) = webcolor (InString name)).
  { unfold webcolor. rewrite (stringInputToObject_normal s name) by congruence.
    reflexivity. }
  rewrite E.
  destruct (webcolor (InString name)) as [c|]; [|discriminate H].
  apply andb_prop in H as [H H5]. apply andb_prop in H as [H H4].
  apply andb_prop in H as [H H3]. apply andb_prop in H as [H1 H2].
  destruct (isByte_spec _ H1) as (r0 & Hr & Er).
  destruct (isByte_spec _ H2) as (g0 & Hg & Eg).
  destruct (isByte_spec _ H3) as (b0 & Hb & Eb).
  apply FloatAxioms.Leibniz.eqb_spec in H4.
  exists r0, g0, b0. split; [auto|].
  destruct c as [cr cg cb_ ca crl ccb]. cbn [r g b a rl cb] in *.
  destruct crl; [discriminate H5|]. destruct ccb; [discriminate H5|].
  subst. reflexivity.
Qed.


Lemma named_colors_are_bytes_witness :
  exists r0 g0 b0,
    (0 <= r0 < 256 /\ 0 <= g0 < 256 /\ 0 <= b0 < 256)%Z
    /\ webcolor (InString " RebeccaPurple ")
       = Normal (rgba (JS.float_of_Z r0) (JS.float_of_Z g0) (JS.float_of_Z b0) 1%float).
Proof.
  apply (named_colors_are_bytes "rebeccapurple" "663399" " RebeccaPurple ").
  - unfold names. repeat (try (left; reflexivity); right).
  - vm_compute. reflexivity.
Defined.

End Normalisation.

(** *** The contrast of a colour against itself, in binary64 *)

Section SelfContrast.
Local Open Scope Z_scope.

Lemma float_ltb_irrefl (x : float) : (x <? x)%float = false.
Proof.
  destruct (x <? x)%float eqn:E; [|reflexivity].
  pose proof (float_ltb_asym x x E) as H. congruence.
Qed.

Lemma Math_max_self (x : float) : JS.Math_max x x = if is_nan x then nan else x.
Proof.
  unfold JS.Math_max. rewrite orb_diag, float_ltb_irrefl.
  destruct (is_nan x); [reflexivity|]. destruct (get_sign x); reflexivity.
Qed.

Lemma Math_min_self (x : float) : JS.Math_min x x = if is_nan x then nan else x.
Proof.
  unfold JS.Math_min. rewrite orb_diag, float_ltb_irrefl.
  destruct (is_nan x); [reflexivity|]. destruct (get_sign x); reflexivity.
Qed.

Lemma is_nan_spec (x : float) : is_nan x = true -> x = nan.
Proof.
  unfold is_nan. rewrite eqb_spec. intros H. apply Prim2SF_inj.
  change (Prim2SF nan) with S754_nan.
  destruct (Prim2SF x) as [s|s| |s m e]; try reflexivity; unfold SFeqb in H.
  - discriminate H.
  - destruct s; discriminate H.
  - rewrite SFcompare_refl_finite in H. discriminate H.
Qed.

(** A finite non-zero Number divided by itself is 1; a zero, an infinity or
    [NaN] divided by itself is [NaN]. *)
Lemma float_div_self (x : float) : (x / x)%float = if finiteNonzero x then 1%float else nan.
Proof.
  apply Prim2SF_inj. rewrite div_spec. unfold finiteNonzero.
  destruct (Prim2SF x) as [s|s| |s m e]; try reflexivity.
  unfold SF64div, SFdiv, SFdiv_core_binary.
  rewrite Z.sub_diag.
  replace (Zdigits2 (Zpos m) + e - (Zdigits2 (Zpos m) + e)) with 0 by lia.
  change (Z.min (fexp prec emax 0) 0) with (-53).
  change (0 - -53) with 53.
  rewrite Z.shiftl_mul_pow2 by lia.
  assert (E : Z.div_eucl (Zpos m * 2 ^ 53) (Zpos m) = (2 ^ 53, 0)).
  { pose proof (Z.div_mul (2 ^ 53) (Zpos m) ltac:(lia)) as Hq.
    pose proof (Z.mod_mul (2 ^ 53) (Zpos m) ltac:(lia)) as Hr.
    rewrite Z.mul_comm. unfold Z.div in Hq. unfold Z.modulo in Hr.
    destruct (Z.div_eucl (2 ^ 53 * Zpos m) (Zpos m)) as [q r0].
    cbn [fst snd] in *. subst. reflexivity. }
  rewrite E.
  assert (L : new_location (Zpos m) 0 = loc_Exact).
  { unfold new_location, new_location_even, new_location_odd.
    destruct (Z.even (Zpos m)); reflexivity. }
  rewrite L. rewrite xorb_nilpotent.
  reflexivity.
Qed.

Lemma float_add_nan (y : float) : (nan + y)%float = nan.
Proof.
  apply Prim2SF_inj. rewrite add_spec. change (Prim2SF nan) with S754_nan. reflexivity.
Qed.

(** X16.  In binary64, whatever the channels and whatever [Math.pow]
    computes, [contrastRatio(a, a)] is exactly 1 when the luminance plus 0.05
    is a finite non-zero Number, and [NaN] otherwise. *)
Theorem contrastRatio_self_float (pw : float -> float -> float) (c : color float) :
  contrastRatio (PW := float_power pw) c c
  = if finiteNonzero (fst (getLuminance (PW := float_power pw) c) + 0.05)%float
    then 1%float else nan.
Proof.
  unfold contrastRatio. cbn [Math_max Math_min jadd jdiv float_arith].
  replace (@lit float float_arith 0.05) with 0.05%float by (vm_compute; reflexivity).
  rewrite Math_max_self, Math_min_self.
  destruct (is_nan (fst (getLuminance c))) eqn:N.
  - apply is_nan_spec in N. rewrite N, float_add_nan. reflexivity.
  - apply float_div_self.
Qed.

End SelfContrast.

(** *** When the loop of [contrastingColor] ends

    The loop has no bound of its own.  On the reals it ends, with the
    contrast asked for, whenever the direction policy can keep its first
    choice: darkening a target that is darker than the receiver, or
    lightening one that is lighter. *)

Section Darkening.
Local Open Scope R_scope.

















End Darkening.

Section Lightening.
Local Open Scope R_scope.










End Lightening.

(** *** Rounding in binary64

    Upper bounds of the correctly rounded product, sum, difference and
    square root of Numbers that are zeros or finite and positive, from the
    definitions of IEEE 754 arithmetic; with them, the range of what
    [shadeBlend] computes. *)

Section RoundingBounds.
Local Open Scope R_scope.

Lemma P2_pos (e : Z) : 0 < P2 e.
Proof. unfold P2. apply powerRZ_lt. lra. Qed.

Lemma P2_add (a b : Z) : P2 (a + b) = P2 a * P2 b.
Proof. unfold P2. apply powerRZ_add. lra. Qed.

Lemma P2_Z (k : Z) : (0 <= k)%Z -> P2 k = IZR (2 ^ k).
Proof.
  intros Hk. pattern k. apply natlike_ind; [reflexivity | | exact Hk].
  intros x Hx IH. unfold Z.succ. rewrite P2_add, IH, Z.pow_add_r by lia.
  rewrite mult_IZR. f_equal. unfold P2. simpl. lra.
Qed.

Lemma P2_ge_1 (k : Z) : (0 <= k)%Z -> 1 <= P2 k.
Proof.
  intros Hk. rewrite P2_Z by exact Hk. apply IZR_le.
  pose proof (Z.pow_pos_nonneg 2 k ltac:(lia) Hk). lia.
Qed.

Lemma P2_le (a b : Z) : (a <= b)%Z -> P2 a <= P2 b.
Proof.
  intros H. replace b with (a + (b - a))%Z by lia. rewrite P2_add.
  pose proof (P2_pos a). pose proof (P2_ge_1 (b - a) ltac:(lia)). nra.
Qed.

Lemma P2_lt (a b : Z) : (a < b)%Z -> P2 a < P2 b.
Proof.
  intros H. replace b with (a + 1 + (b - a - 1))%Z by lia. rewrite !P2_add.
  pose proof (P2_pos a). pose proof (P2_ge_1 (b - a - 1) ltac:(lia)).
  replace (P2 1) with 2 in * by (unfold P2; simpl; lra). nra.
Qed.

Lemma P2_le_inv (a b : Z) : P2 a <= P2 b -> (a <= b)%Z.
Proof.
  intros H. destruct (Z_le_gt_dec a b) as [|Hgt]; [assumption|].
  pose proof (P2_lt b a ltac:(lia)). lra.
Qed.

Lemma P2_lt_inv (a b : Z) : P2 a < P2 b -> (a < b)%Z.
Proof.
  intros H. destruct (Z_lt_le_dec a b) as [|Hge]; [assumption|].
  pose proof (P2_le b a Hge). lra.
Qed.

(** The mantissa against its number of digits. *)
Lemma digits2_pos_low (p : positive) : (2 ^ (Zpos (digits2_pos p) - 1) <= Zpos p)%Z.
Proof.
  destruct (Z_lt_le_dec (Zpos p) (2 ^ (Zpos (digits2_pos p) - 1))) as [H|H]; [|exact H].
  pose proof (digits2_pos_bound p (Zpos (digits2_pos p) - 1) ltac:(lia) H). lia.
Qed.

Lemma mantissa_low (p : positive) : P2 (Zpos (digits2_pos p) - 1) <= IZR (Zpos p).
Proof. rewrite P2_Z by lia. apply IZR_le. apply digits2_pos_low. Qed.

Lemma mantissa_high (p : positive) : IZR (Zpos p) < P2 (Zpos (digits2_pos p)).
Proof. rewrite P2_Z by lia. apply IZR_lt. apply digits2_pos_gt. Qed.

(** Shifting right truncates. *)
Lemma shr_m_shr_1 (mrs : shr_record) :
  (0 <= shr_m mrs)%Z -> shr_m (shr_1 mrs) = (shr_m mrs / 2)%Z.
Proof.
  destruct mrs as [m r0 s]. cbn [shr_m]. intros H.
  destruct m as [|[p|p|]|p]; try lia; cbn [shr_1 shr_m].
  - reflexivity.
  - rewrite Pos2Z.inj_xI. apply Z.div_unique with 1%Z; lia.
  - rewrite Pos2Z.inj_xO. apply Z.div_unique with 0%Z; lia.
  - reflexivity.
Qed.

Lemma shr_m_iter (k : nat) (mrs : shr_record) :
  (0 <= shr_m mrs)%Z ->
  shr_m (Nat.iter k shr_1 mrs) = (shr_m mrs / 2 ^ Z.of_nat k)%Z.
Proof.
  intros H. induction k as [|k IH].
  - cbn [Nat.iter]. rewrite Z.pow_0_r, Z.div_1_r. reflexivity.
  - change (Nat.iter (S k) shr_1 mrs) with (shr_1 (Nat.iter k shr_1 mrs)).
    rewrite shr_m_shr_1, IH.
    + rewrite Z.div_div by lia. rewrite Nat2Z.inj_succ, Z.pow_succ_r by lia.
      f_equal. lia.
    + rewrite IH. apply Z.div_pos; lia.
Qed.

Lemma shr_m_pos (p : positive) (mrs : shr_record) :
  (0 <= shr_m mrs)%Z ->
  shr_m (SpecFloat.iter_pos shr_1 p mrs) = (shr_m mrs / 2 ^ Zpos p)%Z.
Proof.
  intros H. rewrite iter_pos_nat, shr_m_iter by exact H.
  rewrite positive_nat_Z. reflexivity.
Qed.

Lemma rne_bounds (m : Z) (l : location) :
  (m <= round_nearest_even m l <= m + 1)%Z.
Proof.
  unfold round_nearest_even. destruct l as [|[| |]]; try lia.
  destruct (Z.even m); lia.
Qed.

Lemma trunc_le (m k : Z) : (0 <= m)%Z -> (0 <= k)%Z -> IZR (m / 2 ^ k) * P2 k <= IZR m.
Proof.
  intros Hm Hk. rewrite P2_Z by exact Hk. rewrite <- mult_IZR. apply IZR_le.
  pose proof (Z.mul_div_le m (2 ^ k) ltac:(lia)). lia.
Qed.

(** Rounding a positive value [m * 2^e] to nearest: the result is a zero or
    a positive finite Number, above the value by at most one part in 2^52
    and 2^-1074. *)
Lemma round_aux_ub (m : positive) (e : Z) :
  (e <= 971)%Z -> IZR (Zpos m) * P2 e <= P2 1000 ->
  exists v, SFvalue (binary_round_aux prec emax false (Zpos m) e loc_Exact) = Some v
            /\ v <= IZR (Zpos m) * P2 e * (1 + P2 (-52)) + P2 (-1074).
Proof.
  intros He HV.
  set (V := IZR (Zpos m) * P2 e) in *.
  assert (HV0 : 0 < V) by (subst V; apply Rmult_lt_0_compat; [apply IZR_lt; lia | apply P2_pos]).
  pose proof (P2_pos (-52)) as Hu. pose proof (P2_pos (-1074)) as Heta.
  assert (Hu1 : P2 (-52) <= 1) by (change 1 with (P2 0); apply P2_le; lia).
  assert (Heta1 : P2 (-1074) <= 1) by (change 1 with (P2 0); apply P2_le; lia).
  assert (Hsame : V <= V * (1 + P2 (-52)) + P2 (-1074)) by nra.
  set (d := Zpos (digits2_pos m)).
  assert (Hde : (d + e <= 1001)%Z).
  { pose proof (mantissa_low m) as Hl. fold d in Hl.
    assert (P2 (d - 1 + e) <= P2 1000).
    { rewrite P2_add. apply Rle_trans with V; [|exact HV].
      subst V. pose proof (P2_pos e). nra. }
    apply P2_le_inv in H. lia. }
  unfold binary_round_aux, shr_fexp.
  change (Zdigits2 (Zpos m)) with d.
  destruct (fexp prec emax (d + e) - e)%Z as [|p|p] eqn:Ek.
  - cbn [shr shr_record_of_loc shr_m loc_of_shr_record round_nearest_even].
    change (Zdigits2 (Zpos m)) with d. rewrite Ek. cbn [shr shr_record_of_loc shr_m].
    replace (e <=? emax - prec)%Z with true
      by (symmetry; apply Z.leb_le; unfold emax, prec; lia).
    exists V. split; [reflexivity | exact Hsame].
  - cbn [shr shr_record_of_loc].
    set (mrs := SpecFloat.iter_pos shr_1 p {| shr_m := Zpos m; shr_r := false; shr_s := false |}).
    assert (Emt : shr_m mrs = (Zpos m / 2 ^ Zpos p)%Z)
      by (subst mrs; rewrite shr_m_pos by (cbn; lia); reflexivity).
    assert (Hmt0 : (0 <= shr_m mrs)%Z) by (rewrite Emt; apply Z.div_pos; lia).
    set (e1 := (e + Zpos p)%Z).
    assert (Ee1 : e1 = fexp prec emax (d + e)) by (subst e1; lia).
    assert (He1 : (e1 <= 971)%Z) by (rewrite Ee1; unfold fexp, emin, prec, emax; lia).
    assert (Hstep : P2 e1 <= V * P2 (-52) + P2 (-1074)).
    { rewrite Ee1. unfold fexp, emin, prec, emax.
      destruct (Z.max_spec (d + e - 53) (3 - 1024 - 53)) as [[_ ->] | [_ ->]].
      - change (3 - 1024 - 53)%Z with (-1074)%Z. nra.
      - replace (d + e - 53)%Z with ((d - 1) + e + (-52))%Z by lia.
        rewrite !P2_add. pose proof (mantissa_low m) as Hl. fold d in Hl.
        pose proof (P2_pos e). subst V.
        assert (P2 (d - 1) * P2 e <= IZR (Zpos m) * P2 e) by nra. nra. }
    pose proof (rne_bounds (shr_m mrs) (loc_of_shr_record mrs)) as Hr.
    set (mr := round_nearest_even (shr_m mrs) (loc_of_shr_record mrs)) in *.
    assert (Hmr : IZR mr * P2 e1 <= V * (1 + P2 (-52)) + P2 (-1074)).
    { apply Rle_trans with ((IZR (shr_m mrs) + 1) * P2 e1).
      - apply Rmult_le_compat_r; [left; apply P2_pos|].
        rewrite <- plus_IZR. apply IZR_le. lia.
      - assert (IZR (shr_m mrs) * P2 e1 <= V).
        { subst e1. rewrite P2_add, Emt.
          pose proof (trunc_le (Zpos m) (Zpos p) ltac:(lia) ltac:(lia)).
          pose proof (P2_pos e). subst V. nra. }
        nra. }
    destruct mr as [|q|q] eqn:Emr; [| |lia].
    + (* rounded to zero *)
      assert (Z0' : forall n, shr_m (fst (shr {| shr_m := 0; shr_r := false; shr_s := false |} e1 n)) = 0%Z).
      { intros [|n|n]; cbn [shr fst shr_m]; try reflexivity.
        rewrite shr_m_pos by (cbn; lia). reflexivity. }
      cbn [shr_record_of_loc].
      destruct (shr _ e1 _) as [mrs2 e2] eqn:E2.
      specialize (Z0' (fexp prec emax (Zdigits2 0 + e1) - e1)%Z).
      rewrite E2 in Z0'. cbn [fst] in Z0'. rewrite Z0'.
      exists 0. split; [reflexivity|]. nra.
    + cbn [shr_record_of_loc]. change (Zdigits2 (Zpos q)) with (Zpos (digits2_pos q)).
      set (dq := Zpos (digits2_pos q)).
      assert (Hdq : (dq + e1 <= 1003)%Z).
      { pose proof (mantissa_low q) as Hl. fold dq in Hl.
        assert (P2 (dq - 1 + e1) < P2 1002).
        { rewrite P2_add. apply Rle_lt_trans with (IZR (Zpos q) * P2 e1).
          - pose proof (P2_pos e1). nra.
          - apply Rle_lt_trans with (V * (1 + P2 (-52)) + P2 (-1074)); [exact Hmr|].
            replace 1002%Z with (1000 + 2)%Z by lia. rewrite P2_add.
            replace (P2 2) with 4 by (unfold P2; simpl; lra). pose proof (P2_ge_1 1000 ltac:(lia)). nra. }
        apply P2_lt_inv in H. lia. }
      destruct (fexp prec emax (dq + e1) - e1)%Z as [|p2|p2] eqn:Ek2.
      * cbn [shr shr_m].
        replace (e1 <=? emax - prec)%Z with true
          by (symmetry; apply Z.leb_le; unfold emax, prec; lia).
        exists (IZR (Zpos q) * P2 e1). split; [reflexivity | exact Hmr].
      * cbn [shr].
        set (mrs2 := SpecFloat.iter_pos shr_1 p2 _).
        assert (Em2 : shr_m mrs2 = (Zpos q / 2 ^ Zpos p2)%Z)
          by (subst mrs2; rewrite shr_m_pos by (cbn; lia); reflexivity).
        assert (H2 : IZR (shr_m mrs2) * P2 (e1 + Zpos p2) <= IZR (Zpos q) * P2 e1).
        { rewrite Em2, P2_add.
          pose proof (trunc_le (Zpos q) (Zpos p2) ltac:(lia) ltac:(lia)).
          pose proof (P2_pos e1). nra. }
        assert (Hm20 : (0 <= shr_m mrs2)%Z) by (rewrite Em2; apply Z.div_pos; lia).
        destruct (shr_m mrs2) as [|m2|m2] eqn:Es; [| |lia].
        -- exists 0. split; [reflexivity|]. nra.
        -- replace (e1 + Zpos p2 <=? emax - prec)%Z with true.
           ++ exists (IZR (Zpos m2) * P2 (e1 + Zpos p2)). split; [reflexivity|]. lra.
           ++ symmetry. apply Z.leb_le.
              replace (e1 + Zpos p2)%Z with (fexp prec emax (dq + e1)) by lia.
              unfold fexp, emin, emax, prec. lia.
      * cbn [shr shr_m].
        replace (e1 <=? emax - prec)%Z with true
          by (symmetry; apply Z.leb_le; unfold emax, prec; lia).
        exists (IZR (Zpos q) * P2 e1). split; [reflexivity | exact Hmr].
  - cbn [shr shr_record_of_loc shr_m loc_of_shr_record round_nearest_even].
    change (Zdigits2 (Zpos m)) with d. rewrite Ek. cbn [shr shr_record_of_loc shr_m].
    replace (e <=? emax - prec)%Z with true
      by (symmetry; apply Z.leb_le; unfold emax, prec; lia).
    exists V. split; [reflexivity | exact Hsame].
Qed.

Lemma P2_neg (k : Z) : P2 (- k) = / P2 k.
Proof.
  pose proof (P2_pos k). pose proof (P2_add (- k) k) as H1.
  replace (- k + k)%Z with 0%Z in H1 by lia. change (P2 0) with 1 in H1.
  apply (Rmult_eq_reg_r (P2 k)); [|lra]. rewrite <- H1. field. lra.
Qed.

(** What validity says about a mantissa and its exponent. *)
Lemma bounded_spec (m : positive) (e : Z) :
  SpecFloat.bounded prec emax m e = true ->
  (-1074 <= e <= 971)%Z /\ (Zpos (digits2_pos m) <= 53)%Z
  /\ ((-1074 < e)%Z -> Zpos (digits2_pos m) = 53%Z).
Proof.
  unfold SpecFloat.bounded, canonical_mantissa. intros H.
  apply andb_prop in H as [H1 H2]. apply Z.eqb_eq in H1. apply Z.leb_le in H2.
  unfold fexp, emin, prec, emax in *. lia.
Qed.





Lemma shl_align_spec (m : positive) (e e' : Z) :
  IZR (Zpos (fst (shl_align m e e'))) * P2 (snd (shl_align m e e')) = IZR (Zpos m) * P2 e
  /\ (snd (shl_align m e e') <= e)%Z.
Proof.
  unfold shl_align. destruct (e' - e)%Z as [|d|d] eqn:Ed; cbn [fst snd]; try (split; [reflexivity | lia]).
  split; [|lia].
  rewrite iter_xO_value, mult_IZR, <- P2_Z by lia.
  replace (P2 e) with (P2 (Zpos d + e')) by (f_equal; lia). rewrite P2_add. ring.
Qed.


Lemma aligned_value (m : positive) (e ez : Z) :
  (ez <= e)%Z -> IZR (Zpos (fst (shl_align m e ez))) * P2 ez = IZR (Zpos m) * P2 e.
Proof.
  intros H. rewrite shl_align_value by exact H. rewrite mult_IZR, <- P2_Z by lia.
  replace (P2 e) with (P2 (e - ez + ez)) by (f_equal; lia). rewrite P2_add. ring.
Qed.


Lemma one_value : IZR 4503599627370496 * P2 (-52) = 1.
Proof.
  replace (P2 (-52)) with (/ P2 52) by (symmetry; apply (P2_neg 52)).
  rewrite P2_Z by lia. change (2 ^ 52)%Z with 4503599627370496%Z. field.
Qed.

Lemma fval_one : fval 1 = Some 1.
Proof.
  unfold fval. change (Prim2SF 1) with (S754_finite false 4503599627370496 (-52)).
  cbn [SFvalue]. rewrite one_value. reflexivity.
Qed.


(** Comparison of valid positive Numbers is comparison of their values. *)
Lemma exp_lt_value (m1 m2 : positive) (e1 e2 : Z) :
  SpecFloat.bounded prec emax m1 e1 = true -> SpecFloat.bounded prec emax m2 e2 = true ->
  (e1 < e2)%Z -> IZR (Zpos m1) * P2 e1 < IZR (Zpos m2) * P2 e2.
Proof.
  intros B1 B2 H.
  destruct (bounded_spec m1 e1 B1) as (He1 & Hd1 & _).
  destruct (bounded_spec m2 e2 B2) as (He2 & _ & Hn2).
  specialize (Hn2 ltac:(lia)).
  pose proof (mantissa_high m1) as H1. pose proof (mantissa_low m2) as H2.
  rewrite Hn2 in H2. change (53 - 1)%Z with 52%Z in H2.
  pose proof (P2_le (Zpos (digits2_pos m1)) 53 Hd1) as H3.
  pose proof (P2_pos e1). pose proof (P2_pos e2).
  assert (Hexp : P2 53 * P2 e1 <= P2 52 * P2 e2).
  { rewrite <- !P2_add. apply P2_le. lia. }
  pose proof (P2_pos 52). nra.
Qed.

Lemma SFleb_value (m1 m2 : positive) (e1 e2 : Z) :
  SpecFloat.bounded prec emax m1 e1 = true -> SpecFloat.bounded prec emax m2 e2 = true ->
  (SFleb (S754_finite false m1 e1) (S754_finite false m2 e2) = true
   <-> IZR (Zpos m1) * P2 e1 <= IZR (Zpos m2) * P2 e2).
Proof.
  intros B1 B2. unfold SFleb. cbn [SFcompare].
  destruct (Z.compare_spec e1 e2) as [He|He|He].
  - subst e2. change (Pos.compare_cont Eq m1 m2) with (Pos.compare m1 m2).
    pose proof (P2_pos e1).
    destruct (Pos.compare_spec m1 m2) as [Hc|Hc|Hc].
    + subst m2. split; [lra | reflexivity].
    + split; [|reflexivity]. intros _.
      assert (IZR (Zpos m1) < IZR (Zpos m2)) by (apply IZR_lt; lia). nra.
    + split; [discriminate|]. intros Hv. exfalso.
      assert (IZR (Zpos m2) < IZR (Zpos m1)) by (apply IZR_lt; lia). nra.
  - pose proof (exp_lt_value m1 m2 e1 e2 B1 B2 He). split; [lra | reflexivity].
  - pose proof (exp_lt_value m2 m1 e2 e1 B2 B1 He). split; [discriminate | lra].
Qed.

Lemma fval_leb (x y : float) (vx vy : R) :
  fval x = Some vx -> fval y = Some vy -> ((x <=? y)%float = true <-> vx <= vy).
Proof.
  unfold fval. rewrite leb_spec.
  pose proof (Prim2SF_valid x) as Vx. pose proof (Prim2SF_valid y) as Vy.
  destruct (Prim2SF x) as [sx|sx| |[|] mx ex]; cbn [SFvalue]; intros Hx; try discriminate Hx;
    destruct (Prim2SF y) as [sy|sy| |[|] my ey]; cbn [SFvalue]; intros Hy; try discriminate Hy;
    injection Hx as <-; injection Hy as <-.
  - split; [lra | reflexivity].
  - assert (0 < IZR (Zpos my) * P2 ey)
      by (apply Rmult_lt_0_compat; [apply IZR_lt; lia | apply P2_pos]).
    split; [lra | reflexivity].
  - assert (0 < IZR (Zpos mx) * P2 ex)
      by (apply Rmult_lt_0_compat; [apply IZR_lt; lia | apply P2_pos]).
    split; [discriminate | lra].
  - apply SFleb_value; assumption.
Qed.

(** A Number between zero and a positive bound is a zero or finite and
    positive. *)
Lemma fval_between (x c : float) (vc : R) :
  fval c = Some vc -> (0 <=? x)%float = true -> (x <=? c)%float = true ->
  exists v, fval x = Some v /\ v <= vc.
Proof.
  intros Hc H0 H1.
  assert (E : exists v, fval x = Some v).
  { revert H0 H1. unfold fval in *. rewrite !leb_spec.
    change (Prim2SF 0) with (S754_zero false).
    destruct (Prim2SF x) as [sx|[|]| |[|] mx ex]; cbn [SFvalue]; intros H0 H1;
      try discriminate H0; try (eexists; reflexivity).
    destruct (Prim2SF c) as [sc|[|]| |[|] mc ec]; cbn [SFvalue] in Hc; try discriminate Hc;
      discriminate H1. }
  destruct E as [v Ev]. exists v. split; [exact Ev|].
  apply (fval_leb x c v vc Ev Hc). exact H1.
Qed.











Lemma fval_small (x : float) (v B : R) :
  fval x = Some v -> v <= B -> B <= 1000000000 -> v <= P2 400.
Proof.
  intros _ H1 H2. apply Rle_trans with (P2 30); [|apply P2_le; lia].
  rewrite P2_Z by lia. change (2 ^ 30)%Z with 1073741824%Z. lra.
Qed.











End RoundingBounds.

Section SqrtBounds.
Local Open Scope R_scope.








End SqrtBounds.

Section SqrtMode.
Local Open Scope R_scope.




End SqrtMode.



(** *** The contrast ratio in binary64 *)

Section SumsArePositive.
Local Open Scope R_scope.

Lemma shifted_positive (q : positive) (k : Z) :
  (0 <= k < Zpos (digits2_pos q))%Z -> (0 < Zpos q / 2 ^ k)%Z.
Proof.
  intros Hk. pose proof (digits2_pos_low q) as Hl.
  assert (2 ^ k <= 2 ^ (Zpos (digits2_pos q) - 1))%Z by (apply Z.pow_le_mono_r; lia).
  apply Z.div_str_pos. pose proof (Z.pow_pos_nonneg 2 k ltac:(lia) ltac:(lia)). lia.
Qed.

(** Rounding a positive value whose mantissa is shifted by fewer places than
    it has digits gives a finite positive Number, not a zero. *)
Lemma round_aux_finite (m : positive) (e : Z) :
  (-1074 <= e <= 971)%Z -> IZR (Zpos m) * P2 e <= P2 1000 ->
  (fexp prec emax (Zpos (digits2_pos m) + e) - e < Zpos (digits2_pos m))%Z ->
  exists m' e', binary_round_aux prec emax false (Zpos m) e loc_Exact
                = S754_finite false m' e'.
Proof.
  intros He HV Hk.
  destruct (round_aux_ub m e ltac:(lia) HV) as (v & Ev & _).
  assert (NZ : forall s, binary_round_aux prec emax false (Zpos m) e loc_Exact <> S754_zero s).
  { intros s0. unfold binary_round_aux, shr_fexp.
    change (Zdigits2 (Zpos m)) with (Zpos (digits2_pos m)).
    set (d := Zpos (digits2_pos m)) in *.
    assert (Keep : forall q : positive,
               (let '(mrs'', e'') := shr
                    (shr_record_of_loc (Zpos q) loc_Exact) (Z.max e (fexp prec emax (d + e)))
                    (fexp prec emax (Zdigits2 (Zpos q) + Z.max e (fexp prec emax (d + e)))
                     - Z.max e (fexp prec emax (d + e))) in
                match shr_m mrs'' with
                | 0%Z => S754_zero false
                | Zpos m0 => if (e'' <=? emax - prec)%Z then S754_finite false m0 e''
                             else S754_infinity false
                | Zneg _ => S754_nan
                end) <> S754_zero s0).
    { intros q. set (e1 := Z.max e (fexp prec emax (d + e))).
      change (Zdigits2 (Zpos q)) with (Zpos (digits2_pos q)).
      destruct (fexp prec emax (Zpos (digits2_pos q) + e1) - e1)%Z as [|p2|p2] eqn:Ek2;
        cbn [shr shr_record_of_loc shr_m].
      - destruct (e1 <=? emax - prec)%Z; discriminate.
      - rewrite shr_m_pos by (cbn; lia). cbn [shr_m].
        assert (0 < Zpos q / 2 ^ Zpos p2)%Z.
        { apply shifted_positive. unfold fexp, emin, prec, emax in Ek2. subst e1.
          unfold fexp, emin, prec, emax in *. lia. }
        destruct (Zpos q / 2 ^ Zpos p2)%Z as [|m2|m2]; try lia.
        destruct (e1 + Zpos p2 <=? emax - prec)%Z; discriminate.
      - destruct (e1 <=? emax - prec)%Z; discriminate. }
    destruct (fexp prec emax (d + e) - e)%Z as [|p|p] eqn:Ek;
      cbn [shr shr_record_of_loc shr_m loc_of_shr_record round_nearest_even].
    - specialize (Keep m). replace (Z.max e (fexp prec emax (d + e))) with e in Keep by lia.
      exact Keep.
    - set (mrs := SpecFloat.iter_pos shr_1 p _).
      assert (Emt : shr_m mrs = (Zpos m / 2 ^ Zpos p)%Z)
        by (subst mrs; rewrite shr_m_pos by (cbn; lia); reflexivity).
      pose proof (shifted_positive m (Zpos p) ltac:(lia)) as Hpos.
      pose proof (rne_bounds (shr_m mrs) (loc_of_shr_record mrs)) as Hr.
      destruct (round_nearest_even (shr_m mrs) (loc_of_shr_record mrs)) as [|q|q] eqn:Emr;
        rewrite Emt in Hr; [lia | | lia].
      specialize (Keep q).
      replace (Z.max e (fexp prec emax (d + e))) with (e + Zpos p)%Z in Keep by lia.
      exact Keep.
    - specialize (Keep m). replace (Z.max e (fexp prec emax (d + e))) with e in Keep by lia.
      exact Keep. }
  destruct (binary_round_aux prec emax false (Zpos m) e loc_Exact) as [s|s| |[|] m' e'];
    cbn [SFvalue] in Ev; try discriminate Ev.
  - exfalso. exact (NZ s eq_refl).
  - exists m', e'. reflexivity.
Qed.

Lemma round_finite (m : positive) (e : Z) :
  (-1074 <= e <= 971)%Z -> IZR (Zpos m) * P2 e <= P2 1000 ->
  exists m' e', binary_round prec emax false m e = S754_finite false m' e'.
Proof.
  intros He HV. unfold binary_round.
  pose proof (shl_align_spec m e (fexp prec emax (Zpos (digits2_pos m) + e))) as [Ev Ee].
  set (F := fexp prec emax (Zpos (digits2_pos m) + e)) in *.
  assert (HF : (-1074 <= F)%Z) by (subst F; unfold fexp, emin, prec, emax; lia).
  destruct (shl_align m e F) as [mz ez] eqn:Es. cbn [fst snd] in Ev, Ee.
  assert (Hsh : (ez = Z.min e F /\ Zpos (digits2_pos mz) + ez = Zpos (digits2_pos m) + e)%Z).
  { unfold shl_align in Es. destruct (F - e)%Z as [|dd|dd] eqn:Ed.
    - injection Es as <- <-. lia.
    - injection Es as <- <-. lia.
    - injection Es as <- <-. rewrite iter_xO_digits. lia. }
  destruct Hsh as [Hez Hdig].
  apply round_aux_finite.
  - lia.
  - rewrite Ev. exact HV.
  - rewrite Hdig. fold F. subst F. unfold fexp, emin, prec, emax in *. lia.
Qed.

(** A sum with a positive term is finite and not a zero. *)
Lemma float_add_positive (x y : float) (vx vy : R) :
  fval x = Some vx -> fval y = Some vy -> 0 < vy -> vx <= P2 400 -> vy <= P2 400 ->
  finiteNonzero (x + y) = true.
Proof.
  unfold fval, finiteNonzero. rewrite add_spec.
  pose proof (Prim2SF_valid x) as Vx. pose proof (Prim2SF_valid y) as Vy.
  destruct (Prim2SF x) as [sx|sx| |[|] mx ex] eqn:Ex; cbn [SFvalue]; intros Hx; try discriminate Hx;
    destruct (Prim2SF y) as [sy|sy| |[|] my ey] eqn:Ey; cbn [SFvalue]; intros Hy; try discriminate Hy;
    injection Hx as <-; injection Hy as <-; intros Py Bx By; try lra.
  - reflexivity.
  - unfold SF64add, SFadd. cbn [cond_Zopp].
    set (ez := Z.min ex ey).
    destruct (bounded_spec mx ex Vx) as (Hex & _). destruct (bounded_spec my ey Vy) as (Hey & _).
    pose proof (aligned_value mx ex ez ltac:(lia)) as Ax.
    pose proof (aligned_value my ey ez ltac:(lia)) as Ay.
    set (a := fst (shl_align mx ex ez)) in *. set (b := fst (shl_align my ey ez)) in *.
    change (Zpos a + Zpos b)%Z with (Zpos (a + b)). cbn [binary_normalize].
    assert (EV : IZR (Zpos (a + b)) * P2 ez = IZR (Zpos mx) * P2 ex + IZR (Zpos my) * P2 ey).
    { rewrite Pos2Z.inj_add, plus_IZR. lra. }
    destruct (round_finite (a + b) ez) as (m' & e' & ->).
    + lia.
    + rewrite EV. replace 1000%Z with (400 + 600)%Z by lia. rewrite P2_add.
      pose proof (P2_pos 400).
      replace (P2 600) with (P2 1 * P2 599) by (rewrite <- P2_add; reflexivity).
      replace (P2 1) with 2 by (unfold P2; simpl; lra).
      pose proof (P2_ge_1 599 ltac:(lia)). nra.
    + reflexivity.
Qed.

End SumsArePositive.

Lemma float_eqb_self (x : float) : PrimFloat.eqb x x = negb (is_nan x).
Proof. unfold is_nan. rewrite negb_involutive. reflexivity. Qed.

(** C7, as amended.  In binary64, whatever [Math.pow] computes:
    [contrastRatio] is [(max(L0,L1) + 0.05) / (min(L0,L1) + 0.05)] over the
    two relative luminances and does not read alpha; [contrastRatio(a,b)] and
    [contrastRatio(b,a)] are the same Number, so they are [==] exactly when
    that Number is not [NaN]; and [contrastRatio(a,a) == 1] exactly when the
    luminance of [a] plus 0.05 is a finite non-zero Number, in particular
    whenever the computed luminance is in [0, 1].  In exact arithmetic that is
    every colour whose luminance is not -0.05, in particular every colour
    with non-negative channels. *)
Theorem contrastRatio_spec (pw : float -> float -> float) (c0 c1 : color float) :
  let l0 := fst (getLuminance (PW := float_power pw) c0) in
  let l1 := fst (getLuminance (PW := float_power pw) c1) in
  contrastRatio (PW := float_power pw) c0 c1
  = ((JS.Math_max l0 l1 + 0.05) / (JS.Math_min l0 l1 + 0.05))%float
  /\ (forall x y, contrastRatio (PW := float_power pw) (setAlpha c0 x) (setAlpha c1 y)
                  = contrastRatio (PW := float_power pw) c0 c1)
  /\ contrastRatio (PW := float_power pw) c0 c1 = contrastRatio (PW := float_power pw) c1 c0
  /\ PrimFloat.eqb (contrastRatio (PW := float_power pw) c0 c1)
                   (contrastRatio (PW := float_power pw) c1 c0)
     = negb (is_nan (contrastRatio (PW := float_power pw) c0 c1))
  /\ PrimFloat.eqb (contrastRatio (PW := float_power pw) c0 c0) 1
     = finiteNonzero (l0 + 0.05)%float
  /\ (PrimFloat.leb 0 l0 && PrimFloat.leb l0 1 = true ->
      PrimFloat.eqb (contrastRatio (PW := float_power pw) c0 c0) 1 = true)
  /\ (forall d : color R,
        fst (getLuminance d) <> (- (5 / 100))%R -> contrastRatio d d = 1%R)
  /\ (forall d : color R,
        rl_ok d -> (0 <= r d)%R -> (0 <= g d)%R -> (0 <= b d)%R -> contrastRatio d d = 1%R).
Proof.
  intros l0 l1.
  assert (F : contrastRatio (PW := float_power pw) c0 c1
              = ((JS.Math_max l0 l1 + 0.05) / (JS.Math_min l0 l1 + 0.05))%float).
  { unfold contrastRatio. cbn [Math_max Math_min jadd jdiv float_arith].
    replace (@lit float float_arith 0.05) with 0.05%float by (vm_compute; reflexivity).
    reflexivity. }
  assert (S : contrastRatio (PW := float_power pw) c0 c1
              = contrastRatio (PW := float_power pw) c1 c0).
  { unfold contrastRatio. cbn [Math_max Math_min float_arith].
    rewrite (Math_max_comm (fst (getLuminance c0))).
    rewrite (Math_min_comm (fst (getLuminance c0))). reflexivity. }
  split; [exact F|]. split.
  { intros x y. unfold contrastRatio, getLuminance, setAlpha. simpl.
    destruct (rl c0), (rl c1); reflexivity. }
  split; [exact S|]. split.
  { rewrite <- S. apply float_eqb_self. }
  assert (E1 : PrimFloat.eqb (contrastRatio (PW := float_power pw) c0 c0) 1
               = finiteNonzero (l0 + 0.05)%float).
  { unfold contrastRatio. cbn [Math_max Math_min jadd jdiv float_arith].
    replace (@lit float float_arith 0.05) with 0.05%float by (vm_compute; reflexivity).
    fold l0. rewrite Math_max_self, Math_min_self.
    destruct (is_nan l0) eqn:N.
    - apply is_nan_spec in N. rewrite N, float_add_nan. reflexivity.
    - rewrite float_div_self. destruct (finiteNonzero (l0 + 0.05)); reflexivity. }
  split; [exact E1|]. split.
  { intros H. apply andb_prop in H as [H0 H1]. rewrite E1.
    destruct (fval_between l0 1%float 1%R fval_one H0 H1) as (v & Hv & Bv).
    assert (H05 : exists m e, Prim2SF 0.05 = S754_finite false m e)
      by (do 2 eexists; vm_compute; reflexivity).
    destruct H05 as (m & e & E05).
    assert (F05 : fval 0.05 = Some (IZR (Zpos m) * P2 e)%R)
      by (unfold fval; rewrite E05; reflexivity).
    assert (B05 : (IZR (Zpos m) * P2 e <= 1)%R).
    { apply (fval_leb 0.05%float 1%float _ _ F05 fval_one). vm_compute. reflexivity. }
    assert (P05 : (0 < IZR (Zpos m) * P2 e)%R)
      by (apply Rmult_lt_0_compat; [apply IZR_lt; lia | apply P2_pos]).
    apply (float_add_positive l0 0.05%float v _ Hv F05 P05).
    - apply (fval_small l0 v 1 Hv Bv). lra.
    - apply (fval_small 0.05%float _ 1 F05 B05). lra. }
  split.
  - intros d. exact (proj1 (proj2 (proj2 (proj2 (contrastRatio_real_spec d d))))).
  - intros d. exact (proj2 (proj2 (proj2 (proj2 (contrastRatio_real_spec d d))))).
Qed.

(** Black against itself in binary64 (luminance 0, no call of [Math.pow]),
    and mid grey against itself in exact arithmetic. *)
Lemma contrastRatio_spec_witness :
  PrimFloat.eqb (contrastRatio (PW := float_power pow_special) hex000000 hex000000) 1 = true
  /\ contrastRatio grey808080 grey808080 = 1%R.
Proof.
  pose proof (contrastRatio_spec pow_special hex000000 hex000000)
    as (_ & _ & _ & _ & _ & H1 & _ & H2).
  split.
  - apply H1. vm_compute. reflexivity.
  - apply H2.
    + left. reflexivity.
    + unfold grey808080. rewrite r_rgba. lra.
    + unfold grey808080. rewrite g_rgba. lra.
    + unfold grey808080. rewrite b_rgba. lra.
Defined.
